(** * Label placement engine of the organ diagram (OrganSvg.tsx)

    A shallow embedding of the two variants of [OrganMarkersContainer]
    found in [src/components/OrganSvg.tsx]:

    - [Curved]: the variant with quadratic connector curves, whose
      per-side solver is [resolveSide] (forward pass, uniform overflow
      shift, backward pass, underflow shift, clamp) followed by the
      de-collision loop over all positions;
    - [Grid]: the variant with elbow connectors, whose per-side solver
      is [adjustSide] (forward pass and overflow pull-up loop).

    JavaScript numbers are modelled by exact rationals ([Q]): every
    constant of the source (6.5, 3.2, 1.5, ...) is a rational, and the
    operations used are +, -, *, /, comparison, min, max and ceil.
    Rounding of IEEE doubles is outside the model.  Equalities between
    computed coordinates are therefore stated with [==] ([Qeq]). *)

From Stdlib Require Import QArith Qround Lqa ZArith Lia List Bool String.
From Stdlib Require Import Sorting.Sorted Sorting.Permutation.
Import ListNotations.

Local Open Scope Q_scope.

(** ** Numbers *)

Module Num.

(** [a < b] on numbers, as a boolean test. *)
Definition ltb (a b : Q) : bool :=
  match a ?= b with Lt => true | _ => false end.

(** [a <= b] on numbers, as a boolean test. *)
Definition leb (a b : Q) : bool := Qle_bool a b.

(** [Math.max(a, b)] *)
Definition max (a b : Q) : Q := if leb a b then b else a.

(** [Math.min(a, b)] *)
Definition min (a b : Q) : Q := if leb a b then a else b.

(** [Math.abs(a)] *)
Definition abs (a : Q) : Q := if ltb a 0 then - a else a.

(** [Math.ceil(a)] *)
Definition ceil (a : Q) : Z := Qceiling a.

End Num.

(** ** Strings

    A JavaScript string is a sequence of UTF-16 code units. *)

Module JsText.

Definition jsstring := list N.

(** The class [\s] of a JavaScript regular expression, which is also the
    set of characters removed by [String.prototype.trim]: WhiteSpace and
    LineTerminator code points. *)
Definition is_space (c : N) : bool :=
  ((9 <=? c) && (c <=? 13) || (c =? 32) || (c =? 160) || (c =? 5760)
   || (8192 <=? c) && (c <=? 8202) || (c =? 8232) || (c =? 8233)
   || (c =? 8239) || (c =? 8287) || (c =? 12288) || (c =? 65279))%N.

Definition SPACE : N := 32%N.

(** [s.replace(/\s+/g, ' ')]: every maximal run of white space becomes
    one space.  [in_run] tells that the previous code unit was white
    space, whose run has already been replaced. *)
Fixpoint replace_runs (in_run : bool) (s : jsstring) : jsstring :=
  match s with
  | [] => []
  | c :: r =>
      if is_space c
      then (if in_run then replace_runs true r
            else SPACE :: replace_runs true r)
      else c :: replace_runs false r
  end.

Fixpoint trimStart (s : jsstring) : jsstring :=
  match s with
  | [] => []
  | c :: r => if is_space c then trimStart r else s
  end.

Definition trimEnd (s : jsstring) : jsstring := rev (trimStart (rev s)).

(** [s.trim()] *)
Definition trim (s : jsstring) : jsstring := trimEnd (trimStart s).

(** [detail.replace(/\s+/g, ' ').trim()] *)
Definition clean (detail : jsstring) : jsstring :=
  trim (replace_runs false detail).

(** Truthiness of a string: the empty string is falsy. *)
Definition truthy (s : jsstring) : bool :=
  match s with [] => false | _ => true end.

End JsText.

(** ** Data shared by the two variants *)

Inductive OrganKey : Type :=
  | brain | heart | lungs | liver | stomach | kidney | intestine | pancreas.

(** [Object.keys(ORGAN_CLIP_IDS)], in insertion order. *)
Definition ORGAN_KEYS : list OrganKey :=
  [brain; heart; lungs; liver; stomach; kidney; intestine; pancreas].

Definition OrganKey_eqb (a b : OrganKey) : bool :=
  match a, b with
  | brain, brain | heart, heart | lungs, lungs | liver, liver
  | stomach, stomach | kidney, kidney | intestine, intestine
  | pancreas, pancreas => true
  | _, _ => false
  end.

(** The property name of an organ key. *)
Definition key_name (k : OrganKey) : string :=
  match k with
  | brain => "brain" | heart => "heart" | lungs => "lungs"
  | liver => "liver" | stomach => "stomach" | kidney => "kidney"
  | intestine => "intestine" | pancreas => "pancreas"
  end%string.

(** [ORGAN_LABELS[organKey].toLowerCase()] *)
Definition label_lower (k : OrganKey) : string :=
  match k with
  | brain => "brain" | heart => "heart" | lungs => "lungs"
  | liver => "liver" | stomach => "stomach" | kidney => "kidneys"
  | intestine => "intestines" | pancreas => "pancreas"
  end%string.

(** [{ left: number; top: number }], in percent of the view box. *)
Record position : Type := mkPosition { left : Q; top : Q }.

(** The props of [OrganMarkersContainer] that the layout reads.
    [Partial<Record<OrganKey, ...>>] and [Record<string, string>] are
    lookups that may be undefined. *)
Record props : Type := mkProps {
  isOrganHighlighted : OrganKey -> bool;
  markerPositions : OrganKey -> option position;
  organDetails : string -> option JsText.jsstring
}.

(** [organDetails[organKey] || organDetails[ORGAN_LABELS[organKey].toLowerCase()]] *)
Definition getOrganDetail (p : props) (k : OrganKey) : option JsText.jsstring :=
  match organDetails p (key_name k) with
  | Some s => if JsText.truthy s then Some s else organDetails p (label_lower k)
  | None => organDetails p (label_lower k)
  end.

(** [array.sort((a, b) => key(a) - key(b))].  [Array.prototype.sort] is
    stable: among elements of equal key the earlier one stays first.  The
    sorted array is built from the right, each element being placed before
    the first element whose key is not smaller. *)
Section Sort.
Context {A : Type} (key : A -> Q).

Fixpoint sort_insert (e : A) (l : list A) : list A :=
  match l with
  | [] => [e]
  | x :: r =>
      if Num.leb (key e) (key x) then e :: l
      else x :: sort_insert e r
  end.

Fixpoint sort_by (l : list A) : list A :=
  match l with
  | [] => []
  | e :: r => sort_insert e (sort_by r)
  end.
End Sort.

(** ** The variant with curved connectors *)

Module Curved.

Definition LABEL_HEIGHT : Q := 13 # 2.
Definition MIN_VERTICAL_SPACING : Q := 6.
Definition MIN_BOUND : Q := 8.
Definition MAX_BOUND : Q := 92.

Definition clampCenterWithHeight (center height : Q) : Q :=
  let half := height / 2 in
  if Num.ltb (center - half) MIN_BOUND then MIN_BOUND + half
  else if Num.ltb MAX_BOUND (center + half) then MAX_BOUND - half
  else center.

Definition estimateLabelHeight (detail : option JsText.jsstring) : Q :=
  match detail with
  | None => LABEL_HEIGHT
  | Some d =>
      if negb (JsText.truthy d) then LABEL_HEIGHT
      else
        let clean := JsText.clean d in
        if negb (JsText.truthy clean) then LABEL_HEIGHT
        else
          let approxLines :=
            Num.ceil (inject_Z (Z.of_nat (List.length clean)) / 34) in
          LABEL_HEIGHT + inject_Z approxLines * (16 # 5)
  end.

Record adjusted : Type := mkAdjusted {
  a_left : Q; a_top : Q; labelX : Q; labelY : Q
}.

(** One element of the [positions] array. *)
Record entry : Type := mkEntry {
  organKey : OrganKey;
  originalPosition : position;
  adjustedPosition : adjusted;
  isRightSide : bool;
  labelHeight : Q
}.

(** [entry.adjustedPosition.labelY = y] *)
Definition set_labelY (y : Q) (e : entry) : entry :=
  let a := adjustedPosition e in
  mkEntry (organKey e) (originalPosition e)
          (mkAdjusted (a_left a) (a_top a) (labelX a) y)
          (isRightSide e) (labelHeight e).

(** [entry.adjustedPosition.labelY += d] *)
Definition add_labelY (d : Q) (e : entry) : entry :=
  set_labelY (labelY (adjustedPosition e) + d) e.

Definition y_of (e : entry) : Q := labelY (adjustedPosition e).
Definition top_of (e : entry) : Q := top (originalPosition e).

(** The body of the first [forEach]: one organ key either pushes an entry
    or returns early. *)
Definition collect_one (p : props) (k : OrganKey) : option entry :=
  if negb (isOrganHighlighted p k) then None
  else
    match markerPositions p k with
    | None => None
    | Some pos =>
        let organCenterX := left pos in
        let organCenterY := top pos in
        let isRight := Num.ltb 55 organCenterX in
        let labelOffsetX := 36 in
        let lx := if isRight then organCenterX - labelOffsetX
                  else organCenterX + labelOffsetX in
        let dynamicLabelHeight := estimateLabelHeight (getOrganDetail p k) in
        Some (mkEntry k pos
                (mkAdjusted organCenterX organCenterY lx
                   (clampCenterWithHeight organCenterY dynamicLabelHeight))
                isRight dynamicLabelHeight)
    end.

Fixpoint collect_keys (p : props) (ks : list OrganKey) : list entry :=
  match ks with
  | [] => []
  | k :: r =>
      match collect_one p k with
      | Some e => e :: collect_keys p r
      | None => collect_keys p r
      end
  end.

(** The [positions] array after the first [forEach]. *)
Definition collect (p : props) : list entry := collect_keys p ORGAN_KEYS.

(** [.sort((a, b) => a.originalPosition.top - b.originalPosition.top)] *)
Definition sort_by_top (l : list entry) : list entry := sort_by top_of l.

(** [sideEntries.reduce((sum, entry) => sum + entry.labelHeight, 0)] *)
Definition sum_heights (l : list entry) : Q :=
  fold_left (fun sum e => sum + labelHeight e) l 0.

Definition availableHeight : Q := MAX_BOUND - MIN_BOUND.

Definition count (l : list entry) : Q := inject_Z (Z.of_nat (List.length l)).

Definition totalHeight (l : list entry) : Q :=
  sum_heights l + Num.max 0 (count l - 1) * MIN_VERTICAL_SPACING.

Definition spacing_of (l : list entry) : Q :=
  if Num.ltb availableHeight (totalHeight l)
  then Num.max (3 # 2)
         ((availableHeight - sum_heights l) / Num.max 1 (count l - 1))
  else MIN_VERTICAL_SPACING.

(** One iteration of the loop of [applyForwardSpacing], for the pair
    [prev], [current]; the result is the updated [current]. *)
Definition forward_step (spacing : Q) (prev current : entry) : entry :=
  let prevBottom := y_of prev + labelHeight prev / 2 in
  let currentTop := y_of current - labelHeight current / 2 in
  if Num.ltb (currentTop - prevBottom) spacing
  then let needed := spacing - (currentTop - prevBottom) in
       add_labelY needed current
  else current.

Fixpoint forward_from (spacing : Q) (prev : entry) (rest : list entry)
  : list entry :=
  match rest with
  | [] => []
  | current :: r =>
      let current' := forward_step spacing prev current in
      current' :: forward_from spacing current' r
  end.

(** The loop [for (i = 1; i < length; i++)]: each entry is compared with
    its already updated predecessor. *)
Definition applyForwardSpacing (spacing : Q) (l : list entry) : list entry :=
  match l with
  | [] => []
  | first :: r => first :: forward_from spacing first r
  end.

(** One iteration of the loop of [applyBackwardSpacing], for the pair
    [current], [next]; the result is the updated [current]. *)
Definition backward_step (spacing : Q) (next current : entry) : entry :=
  let nextTop := y_of next - labelHeight next / 2 in
  let currentBottom := y_of current + labelHeight current / 2 in
  if Num.ltb (nextTop - currentBottom) spacing
  then let needed := spacing - (nextTop - currentBottom) in
       add_labelY (- needed) current
  else current.

Fixpoint backward_from (spacing : Q) (next : entry) (rest : list entry)
  : list entry :=
  match rest with
  | [] => []
  | current :: r =>
      let current' := backward_step spacing next current in
      current' :: backward_from spacing current' r
  end.

(** The loop [for (i = length - 2; i >= 0; i--)], run over the reversed
    array: each entry is compared with its already updated successor. *)
Definition applyBackwardSpacing (spacing : Q) (l : list entry) : list entry :=
  match rev l with
  | [] => []
  | last :: r => rev (last :: backward_from spacing last r)
  end.

Definition bottom_of (e : entry) : Q := y_of e + labelHeight e / 2.
Definition topEdge_of (e : entry) : Q := y_of e - labelHeight e / 2.

(** The initial clamp of [resolveSide]. *)
Definition initial_clamp (l : list entry) : list entry :=
  map (fun e => set_labelY (clampCenterWithHeight (top_of e) (labelHeight e)) e) l.

(** The overflow block: [if (lastBottom > MAX_BOUND) { ... }]. *)
Definition overflow_block (spacing : Q) (l : list entry) : list entry :=
  match rev l with
  | [] => l
  | last :: _ =>
      let lastBottom := bottom_of last in
      if Num.ltb MAX_BOUND lastBottom
      then let overflow := lastBottom - MAX_BOUND in
           applyBackwardSpacing spacing (map (add_labelY (- overflow)) l)
      else l
  end.

(** The underflow block: [if (firstTop < MIN_BOUND) { ... }]. *)
Definition underflow_block (spacing : Q) (l : list entry) : list entry :=
  match l with
  | [] => l
  | first :: _ =>
      let firstTop := topEdge_of first in
      if Num.ltb firstTop MIN_BOUND
      then let underflow := MIN_BOUND - firstTop in
           applyForwardSpacing spacing (map (add_labelY underflow) l)
      else l
  end.

(** The final clamp of [resolveSide]. *)
Definition final_clamp (l : list entry) : list entry :=
  map (fun e => set_labelY (clampCenterWithHeight (y_of e) (labelHeight e)) e) l.

(** [resolveSide] after its early return, on the sorted entries of one
    side. *)
Definition resolveSide_entries (sideEntries : list entry) : list entry :=
  let spacing := spacing_of sideEntries in
  let s0 := initial_clamp sideEntries in
  let s1 := applyForwardSpacing spacing s0 in
  let s2 := overflow_block spacing s1 in
  let s3 := underflow_block spacing s2 in
  final_clamp s3.

(** The entries of [sideEntries] are the objects of [positions]: an
    update of an entry is seen through [positions].  Entries are
    identified by their organ key, which is unique in [positions]. *)
Definition write_back (solved positions : list entry) : list entry :=
  map (fun p =>
         match find (fun s => OrganKey_eqb (organKey s) (organKey p)) solved with
         | Some s => s
         | None => p
         end) positions.

Definition side_entries (isRight : bool) (positions : list entry) : list entry :=
  sort_by_top (filter (fun e => Bool.eqb (isRightSide e) isRight) positions).

Definition resolveSide (isRight : bool) (positions : list entry) : list entry :=
  let sideEntries := side_entries isRight positions in
  match sideEntries with
  | [] => positions
  | _ => write_back (resolveSide_entries sideEntries) positions
  end.

(** The body of the last [forEach]: de-collision with the marker, then
    clamp. *)
Definition decollide (current : entry) : entry :=
  let distance := Num.abs (y_of current - top_of current) in
  let pushed :=
    if Num.ltb distance LABEL_HEIGHT
    then (if Num.ltb (y_of current) (top_of current)
          then top_of current - LABEL_HEIGHT - 1
          else top_of current + LABEL_HEIGHT + 1)
    else y_of current in
  set_labelY (clampCenterWithHeight pushed (labelHeight current)) current.

(** The value of the [useMemo]: the layout plan of this variant. *)
Definition adjustedPositions (p : props) : list entry :=
  map decollide (resolveSide false (resolveSide true (collect p))).

(** The connector of [OrganMarker]:
    [M organCenterX organCenterY Q controlPointX controlPointY labelX labelY]. *)
Record quad_path : Type := mkQuad {
  q_startX : Q; q_startY : Q;
  q_controlX : Q; q_controlY : Q;
  q_endX : Q; q_endY : Q
}.

Definition connector (pos : adjusted) (isRight : bool) : quad_path :=
  let organCenterX := a_left pos in
  let organCenterY := a_top pos in
  let lx := labelX pos in
  let ly := labelY pos in
  let midX := (organCenterX + lx) / 2 in
  let controlPointX := midX + (if isRight then - (8) else 8) in
  let controlPointY := (organCenterY + ly) / 2 in
  mkQuad organCenterX organCenterY controlPointX controlPointY lx ly.

(** Labels of a plan in reduced form, for concrete runs. *)
Definition labelYs (l : list entry) : list Q := map (fun e => Qred (y_of e)) l.

End Curved.

(** ** The variant with elbow connectors *)

Module Grid.

(** [GRID_CONFIG], the fields the layout reads. *)
Definition leftNameColumnX : Q := 73.
Definition rightNameColumnX : Q := 27.

(** [LABEL_LAYOUT] *)
Definition minVerticalGap : Q := 4.
Definition cardHeight : Q := 7.
Definition topPadding : Q := 3.
Definition bottomPadding : Q := 3.

Record ColumnPositionOverrides : Type := mkOverrides {
  cp_left : option Q;
  cp_right : option Q
}.

(** An element of [highlighted]. *)
Record item : Type := mkItem {
  organKey : OrganKey;
  item_position : position
}.

(** An element of [gridPositions]. *)
Record assignment : Type := mkAssignment {
  a_organKey : OrganKey;
  organPosition : position;
  isRightSide : bool;
  columnX : Q;
  rowY : Q
}.

Definition halfHeight : Q := cardHeight / 2.
Definition minCenter : Q := topPadding + halfHeight.
Definition maxCenter : Q := 100 - bottomPadding - halfHeight.
Definition spacing : Q := cardHeight + minVerticalGap.

Definition clampCenter (value : Q) : Q :=
  Num.min (Num.max value minCenter) maxCenter.

(** [Object.keys(ORGAN_CLIP_IDS).filter(isOrganHighlighted).map(...)
    .filter(item => !!item.position)] *)
Fixpoint highlighted_keys (p : props) (ks : list OrganKey) : list item :=
  match ks with
  | [] => []
  | k :: r =>
      if isOrganHighlighted p k
      then match markerPositions p k with
           | Some pos => mkItem k pos :: highlighted_keys p r
           | None => highlighted_keys p r
           end
      else highlighted_keys p r
  end.

Definition highlighted (p : props) : list item := highlighted_keys p ORGAN_KEYS.

Definition item_top (it : item) : Q := top (item_position it).

(** The [forEach] that fills [centers]; [prev] is [centers[index - 1]],
    absent at index 0. *)
Fixpoint forward_centers (prev : option Q) (sortedItems : list item) : list Q :=
  match sortedItems with
  | [] => []
  | it :: r =>
      let preferred := clampCenter (item_top it) in
      let minAllowed :=
        match prev with None => minCenter | Some c => c + spacing end in
      let c := Num.max preferred minAllowed in
      c :: forward_centers (Some c) r
  end.

(** The loop [for (i = length - 1; i >= 0 && overflow > 0; i -= 1)], run
    over the reversed array: the head is [centers[i]] and the next
    element, when there is one, is [centers[i - 1]]. *)
Fixpoint pull_up (overflow : Q) (reversed : list Q) : list Q :=
  match reversed with
  | [] => []
  | c :: before =>
      if Num.ltb 0 overflow
      then
        let prevBound :=
          match before with [] => minCenter | p :: _ => p + spacing end in
        let availableShift := c - prevBound in
        if Num.leb availableShift 0 then c :: pull_up overflow before
        else
          let shift := Num.min availableShift overflow in
          (c - shift) :: pull_up (overflow - shift) before
      else reversed
  end.

(** [if (centers.length > 0 && centers[centers.length - 1] > maxCenter) { ... }] *)
Definition overflow_block (centers : list Q) : list Q :=
  match rev centers with
  | [] => centers
  | last :: _ =>
      if Num.ltb maxCenter last
      then rev (pull_up (last - maxCenter) (rev centers))
      else centers
  end.

(** The centers of the sorted items of one side. *)
Definition side_centers (sortedItems : list item) : list Q :=
  overflow_block (forward_centers None sortedItems).

(** [sortedItems.map(({ organKey, position }, index) => ({ ..., rowY:
    centers[index] }))]; [centers] has the length of [sortedItems]. *)
Fixpoint assign (colX : Q) (isRight : bool) (sortedItems : list item)
  (centers : list Q) : list assignment :=
  match sortedItems, centers with
  | it :: r, c :: cs =>
      mkAssignment (organKey it) (item_position it) isRight colX c
        :: assign colX isRight r cs
  | _, _ => []
  end.

Definition adjustSide (items : list item) (colX : Q) (isRight : bool)
  : list assignment :=
  let sortedItems := sort_by item_top items in
  assign colX isRight sortedItems (side_centers sortedItems).

(** [columnPositions?.left ?? GRID_CONFIG.leftNameColumnX] *)
Definition leftColumnX (cols : option ColumnPositionOverrides) : Q :=
  match cols with
  | Some c => match cp_left c with Some x => x | None => leftNameColumnX end
  | None => leftNameColumnX
  end.

Definition rightColumnX (cols : option ColumnPositionOverrides) : Q :=
  match cols with
  | Some c => match cp_right c with Some x => x | None => rightNameColumnX end
  | None => rightNameColumnX
  end.

(** The value of the [useMemo]: the layout plan of this variant. *)
Definition gridPositions (p : props) (cols : option ColumnPositionOverrides)
  : list assignment :=
  let hl := highlighted p in
  let leftAssignments :=
    adjustSide (filter (fun it => Num.leb (left (item_position it)) 50) hl)
      (leftColumnX cols) false in
  let rightAssignments :=
    adjustSide (filter (fun it => Num.ltb 50 (left (item_position it))) hl)
      (rightColumnX cols) true in
  leftAssignments ++ rightAssignments.

(** The connector of [OrganMarker]:
    [M anchorX rowY L connectorMidX rowY L organX organY]. *)
Record elbow_path : Type := mkElbow {
  e_startX : Q; e_startY : Q;
  e_midX : Q; e_midY : Q;
  e_endX : Q; e_endY : Q
}.

Definition pathCommand (organPos : position) (colX row : Q) : elbow_path :=
  let organX := left organPos in
  let organY := top organPos in
  let anchorX := colX in
  let connectorMidX := (organX + anchorX) / 2 in
  mkElbow anchorX row connectorMidX row organX organY.

Definition rowYs (l : list assignment) : list Q := map (fun a => Qred (rowY a)) l.

End Grid.

(** ** Vocabulary of the properties *)

(** [chain R l]: every element of [l] is related by [R] to its
    successor. *)
Fixpoint chain {A : Type} (R : A -> A -> Prop) (l : list A) : Prop :=
  match l with
  | a :: (b :: _) as t => R a b /\ chain R t
  | _ => True
  end.

(** The props in which organ [k] is not highlighted, all else equal. *)
Definition deactivate (k : OrganKey) (p : props) : props :=
  mkProps (fun k' => if OrganKey_eqb k' k then false else isOrganHighlighted p k')
    (markerPositions p) (organDetails p).

(** Order of the sort keys. *)
Definition key_le {A : Type} (key : A -> Q) (a b : A) : Prop := key a <= key b.

Module TextSpec.

(** The text has a code unit that is not white space. *)
Definition has_ink (s : JsText.jsstring) : bool :=
  existsb (fun c => negb (JsText.is_space c)) s.

(** The number of lines of a text of [len] code units, as the integer
    ceiling of [len / 34]. *)
Definition lines_for (len : nat) : Z := (Z.of_nat len + 34 - 1) / 34.

(** The height of one more line. *)
Definition perLineHeight : Q := 16 # 5.

End TextSpec.

Module CurvedSpec.
Import Curved.

(** [b] lies below [a] with at least [sp] between the two labels. *)
Definition spaced (sp : Q) (a b : entry) : Prop :=
  sp <= topEdge_of b - bottom_of a.

(** The label is not taller than the span between the bounds. *)
Definition fits (e : entry) : Prop :=
  0 <= labelHeight e /\ labelHeight e <= availableHeight.

(** The label lies between the bounds. *)
Definition within_bounds (e : entry) : Prop :=
  MIN_BOUND <= topEdge_of e /\ bottom_of e <= MAX_BOUND.

(** A property of an entry that does not read [labelY]. *)
Definition framed (P : entry -> Prop) : Prop :=
  forall e y, P e -> P (set_labelY y e).

End CurvedSpec.

Module GridSpec.
Import Grid.

(** The vertical bounds of the cards: the paddings of [LABEL_LAYOUT]. *)
Definition minBound : Q := topPadding.
Definition maxBound : Q := 100 - bottomPadding.

(** [b] is at least one [spacing] below [a]. *)
Definition gap_le (a b : Q) : Prop := a + spacing <= b.

(** An assignment comes before another in the column: its source is not
    lower and its card is at least one [spacing] above. *)
Definition above (a b : assignment) : Prop :=
  top (organPosition a) <= top (organPosition b)
  /\ rowY a + spacing <= rowY b.

End GridSpec.

Module PathSpec.

(** The first segment of the elbow keeps its x: it is vertical. *)
Definition vertical_first (c : Grid.elbow_path) : Prop :=
  Grid.e_startX c == Grid.e_midX c.

(** The first segment of the elbow keeps its y: it is horizontal. *)
Definition horizontal_first (c : Grid.elbow_path) : Prop :=
  Grid.e_startY c == Grid.e_midY c.

(** The path of a card of the elbow variant. *)
Definition elbow_of (a : Grid.assignment) : Grid.elbow_path :=
  Grid.pathCommand (Grid.organPosition a) (Grid.columnX a) (Grid.rowY a).

(** The path of a label of the curved variant. *)
Definition curve_of (e : Curved.entry) : Curved.quad_path :=
  Curved.connector (Curved.adjustedPosition e) (Curved.isRightSide e).

End PathSpec.

(** Inputs for concrete runs. *)
Module Sample.

(** The props in which the listed organs are highlighted and resolved at
    the given positions, without detail texts. *)
Definition regions (l : list (OrganKey * position)) : props :=
  mkProps
    (fun k => existsb (fun x => OrganKey_eqb (fst x) k) l)
    (fun k =>
       match find (fun x => OrganKey_eqb (fst x) k) l with
       | Some x => Some (snd x)
       | None => None
       end)
    (fun _ => None).

Definition at_ (k : OrganKey) (x y : Q) : OrganKey * position :=
  (k, mkPosition x y).

(** Two regions of the left side, low on the diagram. *)
Definition low_regions : props := regions [at_ brain 40 90; at_ heart 40 91].

Definition low_pair : list Grid.item :=
  [Grid.mkItem brain (mkPosition 40 90); Grid.mkItem heart (mkPosition 40 91)].

(** Two regions of the left side at the same height. *)
Definition level_pair : props := regions [at_ brain 40 50; at_ heart 40 50].

(** Two regions of the left side, 6 apart. *)
Definition close_pair : props := regions [at_ brain 40 50; at_ heart 40 56].

(** Two regions of the left side, the lower one near the bottom bound. *)
Definition bottom_pair : props := regions [at_ brain 40 76; at_ heart 40 89].

(** Three regions of the left side, one at the top and two at the
    bottom. *)
Definition spread_triple : props :=
  regions [at_ brain 40 10; at_ heart 40 90; at_ lungs 40 91].

(** The regions of scenarios A and B. *)
Definition one_region (y : Q) : props := regions [at_ brain 40 y].
Definition scenario_B : props := regions [at_ brain 40 10; at_ heart 40 12].

(** An entry of the left side with its label at its source. *)
Definition entry_at (k : OrganKey) (y h : Q) : Curved.entry :=
  Curved.mkEntry k (mkPosition 40 y) (Curved.mkAdjusted 40 y 76 y) false h.

(** Three labels of the left side, low on the diagram (scenario C). *)
Definition low_triple : list Curved.entry :=
  [entry_at brain 80 (13 # 2); entry_at heart 85 (13 # 2);
   entry_at lungs 90 (13 # 2)].

(** The two labels of scenario B. *)
Definition scenario_B_entries : list Curved.entry :=
  [entry_at brain 10 7; entry_at heart 12 7].

Definition scenario_B_items : list Grid.item :=
  [Grid.mkItem brain (mkPosition 40 10); Grid.mkItem heart (mkPosition 40 12)].

(** No organ is highlighted. *)
Definition nothing : props := regions [].

(** Every organ is highlighted; only the brain has a position. *)
Definition brain_only : props :=
  mkProps (fun _ => true)
    (fun k => match k with brain => Some (mkPosition 40 50) | _ => None end)
    (fun _ => None).

End Sample.

(** ** The container component [BodyOrganSvg] *)

Module Highlight.

(** The code units of an organ key. *)
Definition key_units (k : OrganKey) : JsText.jsstring :=
  map Ascii.N_of_ascii (list_ascii_of_string (key_name k)).

(** [hay.startsWith(needle)] *)
Fixpoint startsWith (needle hay : JsText.jsstring) : bool :=
  match needle, hay with
  | [], _ => true
  | _ :: _, [] => false
  | n :: ns, h :: hs => N.eqb n h && startsWith ns hs
  end.

(** [hay.includes(needle)]: [needle] starts at some index of [hay]. *)
Fixpoint includes (needle hay : JsText.jsstring) : bool :=
  startsWith needle hay
  || match hay with
     | [] => false
     | _ :: r => includes needle r
     end.

(** [normalizedHighlights.some((name) => name.includes(organKey))], for
    the lower-cased names [normalizedHighlights]. *)
Definition isOrganHighlighted (normalizedHighlights : list JsText.jsstring)
  (organKey : OrganKey) : bool :=
  existsb (fun name => includes (key_units organKey) name) normalizedHighlights.

End Highlight.

Module Measure.

(** [BODY_VIEWBOX] *)
Definition BODY_VIEWBOX_width : Q := 810.
Definition BODY_VIEWBOX_height : Q := 2025 # 2.

(** An [SVGRect]: the view box of the diagram or the bounding box of an
    organ group. *)
Record rect : Type := mkRect { x : Q; y : Q; width : Q; height : Q }.

(** What the effect reads of the realized diagram: the view box, when
    there is one, and for each organ the bounding box of its group, when
    [querySelector] finds the group. *)
Record svg : Type := mkSvg {
  viewBox : option rect;
  organGroup : OrganKey -> option rect
}.

(** [value || fallback] on numbers: zero is falsy. *)
Definition or_else (value fallback : Q) : Q :=
  if Qeq_bool value 0 then fallback else value.

(** [viewBox?.width || BODY_VIEWBOX.width] *)
Definition viewBoxWidth (s : svg) : Q :=
  match viewBox s with
  | Some vb => or_else (width vb) BODY_VIEWBOX_width
  | None => BODY_VIEWBOX_width
  end.

(** [viewBox?.height || BODY_VIEWBOX.height] *)
Definition viewBoxHeight (s : svg) : Q :=
  match viewBox s with
  | Some vb => or_else (height vb) BODY_VIEWBOX_height
  | None => BODY_VIEWBOX_height
  end.

(** The position stored for a group of bounding box [bbox]. *)
Definition center_percent (s : svg) (bbox : rect) : position :=
  mkPosition
    (((x bbox + width bbox / 2) / viewBoxWidth s) * 100)
    (((y bbox + height bbox / 2) / viewBoxHeight s) * 100).

(** The [positions] that the effect passes to [setMarkerPositions]; the
    state stays empty while the diagram is not ready. *)
Definition markerPositions_of (s : option svg) (k : OrganKey) : option position :=
  match s with
  | None => None
  | Some s =>
      match organGroup s k with
      | None => None
      | Some bbox => Some (center_percent s bbox)
      end
  end.

End Measure.

(** The props that [BodyOrganSvg] hands to [OrganMarkersContainer]. *)
Definition container_props (normalizedHighlights : list JsText.jsstring)
  (s : option Measure.svg) (details : string -> option JsText.jsstring) : props :=
  mkProps (Highlight.isOrganHighlighted normalizedHighlights)
          (Measure.markerPositions_of s) details.

(** Organ [k] is highlighted and has a marker position. *)
Definition active (p : props) (k : OrganKey) : bool :=
  isOrganHighlighted p k
  && match markerPositions p k with Some _ => true | None => false end.

Module CleanSpec.

(** A code unit that is not white space. *)
Definition ink (c : N) : bool := negb (JsText.is_space c).

(** White space is written as a single space. *)
Definition plain_space (c : N) : Prop :=
  JsText.is_space c = true -> c = JsText.SPACE.

(** Two neighbours are not both white space. *)
Definition not_both_space (a b : N) : Prop :=
  JsText.is_space a = false \/ JsText.is_space b = false.

(** The first code unit of a text, when there is one, is not white
    space. *)
Definition starts_with_ink (s : JsText.jsstring) : Prop :=
  forall c, hd_error s = Some c -> JsText.is_space c = false.

End CleanSpec.

(** White-space normalisation in the words of the specification: the
    words of the text, in order, with one space between neighbours. *)
Module NormalSpec.

(** The text begins with a code unit that is not white space. *)
Definition begins_word (s : JsText.jsstring) : bool :=
  match s with
  | [] => false
  | c :: _ => negb (JsText.is_space c)
  end.

(** The words of a text: its maximal runs of code units that are not
    white space, from left to right. *)
Fixpoint words (s : JsText.jsstring) : list JsText.jsstring :=
  match s with
  | [] => []
  | c :: r =>
      if JsText.is_space c then words r
      else if begins_word r
           then match words r with
                | w :: ws => (c :: w) :: ws
                | [] => [[c]]
                end
           else [c] :: words r
  end.

(** The words written one after the other, a single space between two
    neighbours. *)
Fixpoint join_words (ws : list JsText.jsstring) : JsText.jsstring :=
  match ws with
  | [] => []
  | w :: rest =>
      match rest with
      | [] => w
      | _ :: _ => w ++ JsText.SPACE :: join_words rest
      end
  end.

Definition normalise (s : JsText.jsstring) : JsText.jsstring :=
  join_words (words s).

(** The height of a label as the contract words it: the base height for
    an absent text, otherwise the base height and one line height for
    every 34 code units, begun or complete, of the normalised text. *)
Definition height_of_text (text : option JsText.jsstring) : Q :=
  match text with
  | None => Curved.LABEL_HEIGHT
  | Some s =>
      Curved.LABEL_HEIGHT
      + inject_Z (TextSpec.lines_for (List.length (normalise s)))
        * TextSpec.perLineHeight
  end.

(** A letter, a run of [n] spaces, a letter. *)
Definition gapped_text (n : nat) : JsText.jsstring :=
  (97 :: repeat JsText.SPACE n ++ [98])%N.

(** A text with a tab, a line feed and a no-break space around two
    letters. *)
Definition mixed_text : JsText.jsstring := [32; 97; 9; 10; 98; 160]%N.

End NormalSpec.

Module SideSpec.

(** An entry without its label center: what [resolveSide] and the
    de-collision loop leave as it is. *)
Definition frame (e : Curved.entry) : Curved.entry := Curved.set_labelY 0 e.

(** What [positions] holds in the place of the entry [e] after
    [resolveSide] ran on the side [r]. *)
Definition stored (r : bool) (ps : list Curved.entry) (e : Curved.entry)
  : Curved.entry :=
  match find (fun s => OrganKey_eqb (Curved.organKey s) (Curved.organKey e))
          (Curved.resolveSide_entries (Curved.side_entries r ps)) with
  | Some s => s
  | None => e
  end.

End SideSpec.

Module PullUpSpec.

(** A center of the forward pass of [adjustSide] is not beyond
    [maxCenter] unless it is exactly one [spacing] below its
    predecessor [q]. *)
Definition low_or_pushed (q c : Q) : Prop :=
  c <= Grid.maxCenter \/ c = q + Grid.spacing.

(** The clamped source of an item: where [adjustSide] would like its
    card. *)
Definition preferred (it : Grid.item) : Q := Grid.clampCenter (Grid.item_top it).

(** The number of elements of a list, as a number. *)
Definition size {A : Type} (l : list A) : Q := inject_Z (Z.of_nat (List.length l)).

(** Each item leaves room, between its clamped source and [maxCenter],
    for the cards of the items after it. *)
Fixpoint room_below (items : list Grid.item) : Prop :=
  match items with
  | [] => True
  | it :: r =>
      preferred it + size r * Grid.spacing <= Grid.maxCenter /\ room_below r
  end.

(** The clamped sources of neighbours are at least one [spacing]
    apart. *)
Definition well_apart (a b : Grid.item) : Prop :=
  preferred a + Grid.spacing <= preferred b.

End PullUpSpec.

(** A diagram for concrete runs: only the heart group is found. *)
Module SampleDiagram.

Definition diagram : Measure.svg :=
  Measure.mkSvg (Some (Measure.mkRect 0 0 810 1000))
    (fun k => match k with
              | heart => Some (Measure.mkRect 300 200 100 80)
              | _ => None
              end).

(** Two labels of 50 units each on the left side. *)
Definition tall_pair : list Curved.entry :=
  [Sample.entry_at brain 30 50; Sample.entry_at heart 60 50].

(** Two items of the left side, 30 apart. *)
Definition apart_items : list Grid.item :=
  [Grid.mkItem heart (mkPosition 40 60); Grid.mkItem brain (mkPosition 40 30)].

(** Three items of the left side, 5 apart, near the lower bound. *)
Definition low_items : list Grid.item :=
  [Grid.mkItem brain (mkPosition 40 80); Grid.mkItem heart (mkPosition 40 85);
   Grid.mkItem lungs (mkPosition 40 90)].

End SampleDiagram.

(** * Properties *)

(** ** Numbers *)

Module NumFacts.

Lemma ltb_spec (a b : Q) : reflect (a < b) (Num.ltb a b).
Proof.
  unfold Num.ltb. destruct (a ?= b) eqn:E; constructor.
  - apply Qeq_alt in E. lra.
  - apply Qlt_alt in E. exact E.
  - apply Qgt_alt in E. lra.
Qed.

Lemma leb_spec (a b : Q) : reflect (a <= b) (Num.leb a b).
Proof.
  unfold Num.leb. destruct (Qle_bool a b) eqn:E; constructor.
  - apply Qle_bool_iff. exact E.
  - intro H. apply Qle_bool_iff in H. congruence.
Qed.

Lemma ltb_cases (a b : Q) :
  (a < b /\ Num.ltb a b = true) \/ (b <= a /\ Num.ltb a b = false).
Proof. destruct (ltb_spec a b); [left | right]; split; trivial; lra. Qed.

Lemma leb_cases (a b : Q) :
  (a <= b /\ Num.leb a b = true) \/ (b < a /\ Num.leb a b = false).
Proof. destruct (leb_spec a b); [left | right]; split; trivial; lra. Qed.

End NumFacts.

(** Case analysis on the boolean tests of the code. *)
Ltac num_case lem a b :=
  let E := fresh "E" in
  destruct (lem a b) as [[? E] | [? E]]; rewrite ?E in *; clear E.

Ltac num_cases :=
  repeat (match goal with
  | |- context [Num.ltb ?a ?b] => num_case NumFacts.ltb_cases a b
  | |- context [Num.leb ?a ?b] => num_case NumFacts.leb_cases a b
  | H : context [Num.ltb ?a ?b] |- _ => num_case NumFacts.ltb_cases a b
  | H : context [Num.leb ?a ?b] |- _ => num_case NumFacts.leb_cases a b
  end; cbv iota in *).

(** Linear arithmetic, with halves written as products. *)
Ltac qlra := unfold Qdiv in *; change (/ 2) with (1 # 2) in *; lra.

Lemma OrganKey_eqb_eq (a b : OrganKey) : OrganKey_eqb a b = true <-> a = b.
Proof. destruct a, b; simpl; split; intro H; congruence. Qed.


(** ** Adjacent pairs of a list *)

Section Chain.
Context {A : Type} (R : A -> A -> Prop).

Local Abbreviation chain := (chain R).

Lemma chain_cons (a : A) (l : list A) :
  chain l -> (forall b, hd_error l = Some b -> R a b) -> chain (a :: l).
Proof.
  destruct l as [|b t]; simpl; intros Hc Hh; [exact I|].
  split; [apply Hh; reflexivity | exact Hc].
Qed.

Lemma chain_tail (a : A) (l : list A) : chain (a :: l) -> chain l.
Proof. destruct l; simpl; tauto. Qed.

Lemma chain_nth (l : list A) :
  chain l ->
  forall i a b, nth_error l i = Some a -> nth_error l (S i) = Some b -> R a b.
Proof.
  induction l as [|x t IH]; intros Hc i a b Ha Hb.
  - destruct i; discriminate.
  - destruct i as [|i].
    + destruct t as [|y t']; [discriminate|].
      simpl in *. injection Ha as <-. injection Hb as <-. tauto.
    + apply (IH (chain_tail _ _ Hc) i a b); assumption.
Qed.

(** With a transitive relation, an element is related to every later
    one. *)
Lemma chain_later (Htrans : forall a b c, R a b -> R b c -> R a c)
  (l : list A) :
  chain l ->
  forall i j a b, (i < j)%nat ->
    nth_error l i = Some a -> nth_error l j = Some b -> R a b.
Proof.
  intros Hc i j. revert i.
  induction j as [|j IH]; intros i a b Hij Ha Hb; [lia|].
  destruct (Nat.eq_dec i j) as [->|Hne].
  - apply (chain_nth l Hc j); assumption.
  - destruct (nth_error l j) as [c|] eqn:Hj.
    + apply (Htrans a c b).
      * apply (IH i a c); [lia | assumption | reflexivity].
      * apply (chain_nth l Hc j); assumption.
    + apply nth_error_None in Hj.
      assert (nth_error l (S j) <> None) by congruence.
      apply nth_error_Some in H. lia.
Qed.
End Chain.

Lemma chain_app_single {A : Type} (R : A -> A -> Prop) (l : list A) (x : A) :
  chain R l -> (forall a, hd_error (rev l) = Some a -> R a x) ->
  chain R (l ++ [x]).
Proof.
  induction l as [|a t IH]; simpl; intros Hc Hl; [exact I|].
  destruct t as [|b t'].
  - simpl. split; [apply Hl; reflexivity | exact I].
  - change ((a :: b :: t') ++ [x]) with (a :: ((b :: t') ++ [x])).
    destruct Hc as [Hab Hc].
    simpl. split; [exact Hab|].
    apply IH; [exact Hc|].
    intros y Hy. apply Hl. simpl in *.
    destruct (rev t' ++ [b]) eqn:E; simpl in *.
    + destruct (rev t'); discriminate.
    + exact Hy.
Qed.

(** Reversing a list reverses the relation between neighbours. *)
Lemma chain_rev {A : Type} (R : A -> A -> Prop) (l : list A) :
  chain R l -> chain (fun a b => R b a) (rev l).
Proof.
  induction l as [|a t IH]; simpl; intros Hc; [exact I|].
  apply chain_app_single.
  - apply IH. exact (chain_tail R a t Hc).
  - rewrite rev_involutive. destruct t as [|b t']; simpl; [discriminate|].
    intros y Hy. injection Hy as <-. simpl in Hc. tauto.
Qed.

Lemma chain_rev_inv {A : Type} (R : A -> A -> Prop) (l : list A) :
  chain (fun a b => R b a) (rev l) -> chain R l.
Proof.
  intros H. apply chain_rev in H. rewrite rev_involutive in H.
  exact H.
Qed.

(** ** The stable sort *)

Section SortFacts.
Context {A : Type} (key : A -> Q).

Local Abbreviation key_le := (key_le key).

Lemma sort_insert_In (e x : A) (l : list A) :
  In x (sort_insert key e l) <-> x = e \/ In x l.
Proof.
  induction l as [|y t IH]; simpl.
  - intuition congruence.
  - destruct (Num.leb (key e) (key y)); simpl; [intuition congruence|].
    rewrite IH. intuition congruence.
Qed.

Lemma sort_by_In (x : A) (l : list A) : In x (sort_by key l) <-> In x l.
Proof.
  induction l as [|e t IH]; simpl; [tauto|].
  rewrite sort_insert_In, IH. intuition congruence.
Qed.

Lemma sort_insert_length (e : A) (l : list A) :
  List.length (sort_insert key e l) = S (List.length l).
Proof.
  induction l as [|y t IH]; simpl; [reflexivity|].
  destruct (Num.leb (key e) (key y)); simpl; congruence.
Qed.

Lemma sort_by_length (l : list A) :
  List.length (sort_by key l) = List.length l.
Proof.
  induction l as [|e t IH]; simpl; [reflexivity|].
  rewrite sort_insert_length. congruence.
Qed.

Lemma sort_insert_sorted (e : A) (l : list A) :
  chain key_le l -> chain key_le (sort_insert key e l).
Proof.
  induction l as [|y t IH]; intros Hc; [exact I|].
  cbn [sort_insert]. destruct (NumFacts.leb_spec (key e) (key y)) as [Hle|Hgt].
  - split; assumption.
  - apply chain_cons.
    + apply IH. exact (chain_tail _ _ _ Hc).
    + intros b Hb. unfold key_le.
      destruct t as [|z t'].
      * simpl in Hb. injection Hb as <-. lra.
      * cbn [sort_insert] in Hb.
        destruct (Num.leb (key e) (key z)); simpl in Hb; injection Hb as <-.
        -- lra.
        -- simpl in Hc. apply Hc.
Qed.

(** The array is in non-decreasing order of key after the sort. *)
Lemma sort_by_sorted (l : list A) : chain key_le (sort_by key l).
Proof.
  induction l as [|e t IH]; [exact I|].
  simpl. apply sort_insert_sorted. exact IH.
Qed.

Lemma sort_by_Forall (P : A -> Prop) (l : list A) :
  Forall P l -> Forall P (sort_by key l).
Proof.
  rewrite !Forall_forall. intros H x Hx. apply H.
  apply sort_by_In. exact Hx.
Qed.
End SortFacts.

(** ** White space normalisation *)

Module JsTextFacts.
Import JsText TextSpec.

Lemma replace_runs_all_space (s : jsstring) :
  forallb is_space s = true -> replace_runs true s = [].
Proof.
  induction s as [|c r IH]; simpl; [reflexivity|].
  intros H. apply andb_true_iff in H as [Hc Hr].
  rewrite Hc. auto.
Qed.

(** A text made of white space only is cleaned to the empty text. *)
Lemma clean_all_space (s : jsstring) :
  forallb is_space s = true -> clean s = [].
Proof.
  unfold clean. destruct s as [|c r]; [reflexivity|].
  simpl. intros H. apply andb_true_iff in H as [Hc Hr].
  rewrite Hc, (replace_runs_all_space r Hr). reflexivity.
Qed.

Lemma has_ink_not_all_space (s : jsstring) :
  forallb is_space s = false <-> has_ink s = true.
Proof.
  unfold has_ink. induction s as [|c r IH]; simpl; [split; discriminate|].
  destruct (is_space c); simpl; [exact IH | tauto].
Qed.

Lemma has_ink_replace_runs (b : bool) (s : jsstring) :
  has_ink (replace_runs b s) = has_ink s.
Proof.
  revert b. induction s as [|c r IH]; intros b; simpl; [reflexivity|].
  destruct (is_space c) eqn:E.
  - destruct b; simpl; rewrite IH; reflexivity.
  - simpl. rewrite E. reflexivity.
Qed.

Lemma has_ink_trimStart (s : jsstring) : has_ink (trimStart s) = has_ink s.
Proof.
  induction s as [|c r IH]; simpl; [reflexivity|].
  destruct (is_space c) eqn:E; simpl; [exact IH|].
  rewrite E. reflexivity.
Qed.

Lemma existsb_rev_eq (f : N -> bool) (s : jsstring) :
  existsb f (rev s) = existsb f s.
Proof.
  induction s as [|c r IH]; simpl; [reflexivity|].
  rewrite existsb_app, IH. simpl.
  rewrite orb_false_r. apply orb_comm.
Qed.

Lemma has_ink_rev (s : jsstring) : has_ink (rev s) = has_ink s.
Proof. apply existsb_rev_eq. Qed.

Lemma has_ink_clean (s : jsstring) : has_ink (clean s) = has_ink s.
Proof.
  unfold clean, trim, trimEnd.
  rewrite has_ink_rev, has_ink_trimStart, has_ink_rev, has_ink_trimStart.
  apply has_ink_replace_runs.
Qed.

Lemma has_ink_truthy (s : jsstring) : has_ink s = true -> truthy s = true.
Proof. destruct s; [discriminate | reflexivity]. Qed.

(** A text without white space is left as it is. *)
Lemma replace_runs_no_space (b : bool) (s : jsstring) :
  existsb is_space s = false -> replace_runs b s = s.
Proof.
  revert b. induction s as [|c r IH]; intros b; simpl; [reflexivity|].
  intros H. apply orb_false_iff in H as [Hc Hr].
  rewrite Hc. f_equal. auto.
Qed.

Lemma trimStart_no_space (s : jsstring) :
  existsb is_space s = false -> trimStart s = s.
Proof.
  destruct s as [|c r]; simpl; [reflexivity|].
  intros H. apply orb_false_iff in H as [Hc Hr].
  rewrite Hc. reflexivity.
Qed.

Lemma clean_no_space (s : jsstring) :
  existsb is_space s = false -> clean s = s.
Proof.
  intros H. unfold clean, trim, trimEnd.
  rewrite (replace_runs_no_space false s H), (trimStart_no_space s H).
  rewrite trimStart_no_space, rev_involutive; [reflexivity|].
  rewrite existsb_rev_eq. exact H.
Qed.

End JsTextFacts.

(** ** The height estimator *)

Module HeightFacts.
Import JsText TextSpec JsTextFacts Curved.

Lemma ceil_over_34 (n : Z) : Num.ceil (inject_Z n / 34) = ((n + 34 - 1) / 34)%Z.
Proof.
  unfold Num.ceil, Qceiling, Qfloor, Qdiv, Qmult, Qinv, inject_Z. simpl.
  rewrite Z.mul_1_r.
  pose proof (Z.div_mod (- n) 34 ltac:(lia)) as H1.
  pose proof (Z.mod_pos_bound (- n) 34 ltac:(lia)) as H2.
  pose proof (Z.div_mod (n + 34 - 1) 34 ltac:(lia)) as H3.
  pose proof (Z.mod_pos_bound (n + 34 - 1) 34 ltac:(lia)) as H4.
  lia.
Qed.

Lemma lines_for_nonneg (len : nat) : (0 <= lines_for len)%Z.
Proof. unfold lines_for. apply Z.div_pos; lia. Qed.

Lemma estimate_of_clean (s : jsstring) :
  truthy (clean s) = true ->
  estimateLabelHeight (Some s)
  = LABEL_HEIGHT + inject_Z (lines_for (List.length (clean s))) * perLineHeight.
Proof.
  intros H. unfold estimateLabelHeight.
  destruct (truthy s) eqn:Hs.
  - simpl. rewrite H. simpl. rewrite ceil_over_34. reflexivity.
  - destruct s; [|discriminate]. discriminate.
Qed.

Lemma estimate_lower_bound (d : option jsstring) :
  LABEL_HEIGHT <= estimateLabelHeight d.
Proof.
  destruct d as [s|]; [|unfold estimateLabelHeight; lra].
  destruct (truthy (clean s)) eqn:H.
  - rewrite (estimate_of_clean s H).
    pose proof (lines_for_nonneg (List.length (clean s))) as Hl.
    assert (0 <= inject_Z (lines_for (List.length (clean s)))) as Hq.
    { rewrite <- (Zle_Qle 0). exact Hl. }
    unfold perLineHeight. nra.
  - unfold estimateLabelHeight. destruct (truthy s); simpl; [|lra].
    rewrite H. simpl. lra.
Qed.

End HeightFacts.

(** ** The solver of the elbow variant *)

Module GridFacts.
Import Grid GridSpec.

Lemma clampCenter_range (v : Q) :
  minCenter <= clampCenter v /\ clampCenter v <= maxCenter.
Proof.
  unfold clampCenter, Num.min, Num.max, minCenter, maxCenter, halfHeight,
    topPadding, bottomPadding, cardHeight.
  num_cases; qlra.
Qed.

Lemma forward_centers_length (prev : option Q) (items : list item) :
  List.length (forward_centers prev items) = List.length items.
Proof.
  revert prev. induction items as [|it r IH]; intros prev; simpl; auto.
Qed.

(** After the forward pass every center is at least one [spacing] below
    its predecessor. *)
Lemma forward_centers_gapped (prev : option Q) (items : list item) :
  chain gap_le (forward_centers prev items)
  /\ (forall c h, prev = Some c ->
        hd_error (forward_centers prev items) = Some h -> gap_le c h).
Proof.
  revert prev. induction items as [|it r IH]; intros prev.
  - split; [exact I | discriminate].
  - cbn [forward_centers].
    set (c0 := Num.max _ _).
    destruct (IH (Some c0)) as [IHc IHh].
    split.
    + apply chain_cons; [exact IHc|].
      intros b Hb. apply (IHh c0 b); [reflexivity | exact Hb].
    + intros c h -> Hh. simpl in Hh. injection Hh as <-.
      unfold gap_le, c0, Num.max. num_cases; qlra.
Qed.

Lemma pull_up_length (o : Q) (l : list Q) :
  List.length (pull_up o l) = List.length l.
Proof.
  revert o. induction l as [|c r IH]; intros o; simpl; [reflexivity|].
  destruct (Num.ltb 0 o); [|reflexivity].
  destruct (Num.leb _ 0); simpl; rewrite IH; reflexivity.
Qed.

(** The pull-up loop never moves a center down. *)
Lemma pull_up_hd (o : Q) (l : list Q) (c : Q) :
  hd_error l = Some c ->
  exists c', hd_error (pull_up o l) = Some c' /\ c' <= c.
Proof.
  destruct l as [|x r]; [discriminate|].
  intros H. injection H as ->. cbn [pull_up].
  destruct (Num.ltb 0 o) eqn:Ho.
  - destruct (Num.leb _ 0) eqn:Ha.
    + exists c. split; [reflexivity | lra].
    + eexists. split; [reflexivity|].
      unfold Num.min. revert Ho Ha. num_cases; intros; try discriminate; lra.
  - exists c. split; [reflexivity | lra].
Qed.

(** The pull-up loop keeps the distance between neighbours: a center
    moves up by at most the slack above its predecessor. *)
Lemma pull_up_gapped (o : Q) (l : list Q) :
  chain (fun a b => gap_le b a) l ->
  chain (fun a b => gap_le b a) (pull_up o l).
Proof.
  revert o. induction l as [|c r IH]; intros o Hc; [exact I|].
  cbn [pull_up].
  destruct (Num.ltb 0 o) eqn:Ho; [|exact Hc].
  pose proof (chain_tail _ _ _ Hc) as Hr.
  destruct (Num.leb _ 0) eqn:Ha.
  - apply chain_cons; [apply IH; exact Hr|].
    intros b Hb. destruct r as [|p r']; [discriminate|].
    destruct (pull_up_hd o (p :: r') p eq_refl) as (p' & Hp' & Hle).
    rewrite Hp' in Hb. injection Hb as <-.
    simpl in Hc. unfold gap_le in *. lra.
  - apply chain_cons; [apply IH; exact Hr|].
    intros b Hb. destruct r as [|p r']; [discriminate|].
    destruct (pull_up_hd (o - Num.min (c - (p + spacing)) o) (p :: r') p eq_refl)
      as (p' & Hp' & Hle).
    rewrite Hp' in Hb. injection Hb as <-.
    unfold gap_le, Num.min in *. num_cases; qlra.
Qed.

Lemma overflow_block_length (centers : list Q) :
  List.length (overflow_block centers) = List.length centers.
Proof.
  unfold overflow_block. destruct (rev centers) as [|l r] eqn:E; [reflexivity|].
  destruct (Num.ltb maxCenter l); [|reflexivity].
  rewrite length_rev, pull_up_length, <- E, length_rev. reflexivity.
Qed.

Lemma overflow_block_gapped (centers : list Q) :
  chain gap_le centers -> chain gap_le (overflow_block centers).
Proof.
  intros Hc. unfold overflow_block.
  destruct (rev centers) as [|l r] eqn:E; [exact Hc|].
  destruct (Num.ltb maxCenter l); [|exact Hc].
  apply chain_rev_inv. rewrite rev_involutive.
  apply pull_up_gapped. rewrite <- E.
  apply (chain_rev gap_le). exact Hc.
Qed.

Lemma side_centers_length (items : list item) :
  List.length (side_centers items) = List.length items.
Proof.
  unfold side_centers.
  rewrite overflow_block_length. apply forward_centers_length.
Qed.

Lemma side_centers_gapped (items : list item) :
  chain gap_le (side_centers items).
Proof.
  apply overflow_block_gapped. apply forward_centers_gapped.
Qed.

Lemma above_trans (a b c : assignment) : above a b -> above b c -> above a c.
Proof.
  unfold above, spacing, cardHeight, minVerticalGap. intros [? ?] [? ?].
  split; lra.
Qed.

Lemma forward_centers_min (prev : option Q) (items : list item) :
  Forall (fun c => minCenter <= c) (forward_centers prev items).
Proof.
  revert prev. induction items as [|it r IH]; intros prev; [constructor|].
  cbn [forward_centers]. constructor; [|apply IH].
  pose proof (clampCenter_range (item_top it)) as [H _].
  unfold Num.max. num_cases; lra.
Qed.

Lemma pull_up_min (o : Q) (l : list Q) :
  Forall (fun c => minCenter <= c) l ->
  Forall (fun c => minCenter <= c) (pull_up o l).
Proof.
  intros H. revert o. induction H as [|c before Hc Hb IH]; intros o;
    [constructor|].
  cbn [pull_up]. destruct (Num.ltb 0 o); [|constructor; assumption].
  destruct (NumFacts.leb_cases
              (c - match before with [] => minCenter | p :: _ => p + spacing end)
              0) as [[_ ->] | [Ha ->]].
  - constructor; [exact Hc | apply IH].
  - constructor; [|apply IH].
    destruct before as [|p r].
    + unfold Num.min. num_cases; lra.
    + apply Forall_inv in Hb.
      unfold Num.min, spacing, cardHeight, minVerticalGap in *.
      num_cases; lra.
Qed.

(** No card of a side is above the top bound. *)
Lemma side_centers_min (items : list item) :
  Forall (fun c => minCenter <= c) (side_centers items).
Proof.
  unfold side_centers, overflow_block.
  pose proof (forward_centers_min None items) as H.
  destruct (rev (forward_centers None items)) as [|l r] eqn:E; [exact H|].
  destruct (Num.ltb maxCenter l); [|exact H].
  apply Forall_rev, pull_up_min. rewrite <- E. apply Forall_rev. exact H.
Qed.

Lemma assign_chain (colX : Q) (isRight : bool) (items : list item)
  (centers : list Q) :
  chain (key_le item_top) items -> chain gap_le centers ->
  chain above (assign colX isRight items centers).
Proof.
  revert centers. induction items as [|it r IH]; intros centers Hi Hc;
    [exact I|].
  destruct centers as [|c cs]; [exact I|].
  cbn [assign]. apply chain_cons.
  - apply IH; [exact (chain_tail _ _ _ Hi) | exact (chain_tail _ _ _ Hc)].
  - intros b Hb. destruct r as [|it' r']; [discriminate|].
    destruct cs as [|c' cs']; [discriminate|].
    simpl in Hb. injection Hb as <-.
    simpl in Hi, Hc. unfold above, key_le, gap_le, item_top in *. simpl.
    tauto.
Qed.

Lemma adjustSide_chain (items : list item) (colX : Q) (isRight : bool) :
  chain above (adjustSide items colX isRight).
Proof.
  unfold adjustSide. apply assign_chain.
  - apply sort_by_sorted.
  - apply side_centers_gapped.
Qed.

Lemma assign_side (colX : Q) (isRight : bool) (items : list item)
  (centers : list Q) (a : assignment) :
  In a (assign colX isRight items centers) ->
  isRightSide a = isRight /\ columnX a = colX.
Proof.
  revert centers. induction items as [|it r IH]; intros centers H;
    [contradiction|].
  destruct centers as [|c cs]; [contradiction|].
  destruct H as [<-|H]; [split; reflexivity|].
  apply (IH cs). exact H.
Qed.

(** Two cards of one column: the one with the strictly higher source is
    at least one [spacing] above the other. *)
Lemma adjustSide_order (items : list item) (colX : Q) (isRight : bool)
  (a b : assignment) :
  In a (adjustSide items colX isRight) ->
  In b (adjustSide items colX isRight) ->
  top (organPosition a) < top (organPosition b) ->
  rowY a + spacing <= rowY b.
Proof.
  intros Ha Hb Hlt.
  apply In_nth_error in Ha as [i Hi].
  apply In_nth_error in Hb as [j Hj].
  pose proof (adjustSide_chain items colX isRight) as Hc.
  destruct (Nat.lt_trichotomy i j) as [Hij | [<- | Hji]].
  - apply (chain_later above above_trans _ Hc i j a b Hij Hi Hj).
  - rewrite Hi in Hj. injection Hj as <-. lra.
  - pose proof (chain_later above above_trans _ Hc j i b a Hji Hj Hi) as [H _].
    lra.
Qed.

End GridFacts.

(** ** The solver of the curved variant *)

Module CurvedFacts.
Import Curved CurvedSpec.

Ltac unfold_geometry :=
  unfold spaced, fits, within_bounds, bottom_of, topEdge_of, add_labelY,
    set_labelY, y_of, top_of, availableHeight, MIN_BOUND, MAX_BOUND,
    LABEL_HEIGHT, MIN_VERTICAL_SPACING in *;
  cbn [labelY adjustedPosition labelHeight originalPosition] in *.

Lemma clamp_range (center height : Q) :
  height <= availableHeight ->
  MIN_BOUND + height / 2 <= clampCenterWithHeight center height
  /\ clampCenterWithHeight center height <= MAX_BOUND - height / 2.
Proof.
  unfold clampCenterWithHeight. unfold_geometry. intros H.
  num_cases; qlra.
Qed.

Lemma clamp_inside (center height : Q) :
  MIN_BOUND <= center - height / 2 -> center + height / 2 <= MAX_BOUND ->
  clampCenterWithHeight center height = center.
Proof.
  unfold clampCenterWithHeight. unfold_geometry. intros H1 H2.
  num_cases; try reflexivity; qlra.
Qed.

(** *** Forward pass *)

Lemma forward_step_cases (sp : Q) (prev current : entry) :
  (y_of current - y_of prev < (labelHeight prev + labelHeight current) / 2 + sp
   /\ forward_step sp prev current
      = add_labelY (sp - (topEdge_of current - bottom_of prev)) current
   /\ y_of (forward_step sp prev current)
      == y_of prev + (labelHeight prev + labelHeight current) / 2 + sp)
  \/ ((labelHeight prev + labelHeight current) / 2 + sp <= y_of current - y_of prev
      /\ forward_step sp prev current = current).
Proof.
  unfold forward_step, topEdge_of, bottom_of.
  num_cases; [left | right]; unfold_geometry; repeat split; qlra.
Qed.

Lemma forward_step_spaced (sp : Q) (prev current : entry) :
  spaced sp prev (forward_step sp prev current).
Proof.
  destruct (forward_step_cases sp prev current) as [(H & E & Hy) | (H & E)].
  - unfold spaced, topEdge_of, bottom_of. rewrite E in *.
    unfold_geometry. qlra.
  - rewrite E. unfold_geometry. qlra.
Qed.

Lemma forward_from_spaced (sp : Q) (prev : entry) (rest : list entry) :
  chain (spaced sp) (prev :: forward_from sp prev rest).
Proof.
  revert prev. induction rest as [|c r IH]; intros prev; [exact I|].
  cbn [forward_from]. apply chain_cons; [apply IH|].
  intros b Hb. injection Hb as <-. apply forward_step_spaced.
Qed.

(** After the forward pass every label is at least [sp] below its
    predecessor. *)
Lemma applyForwardSpacing_spaced (sp : Q) (l : list entry) :
  chain (spaced sp) (applyForwardSpacing sp l).
Proof.
  destruct l as [|first r]; [exact I|]. apply forward_from_spaced.
Qed.

Lemma forward_from_nth (sp : Q) (rest : list entry) :
  forall (prev : entry) (i : nat) (prev' current : entry),
    nth_error (prev :: forward_from sp prev rest) i = Some prev' ->
    nth_error rest i = Some current ->
    nth_error (forward_from sp prev rest) i
    = Some (forward_step sp prev' current).
Proof.
  induction rest as [|c r IH]; intros prev i prev' current Hp Hc.
  - destruct i; discriminate.
  - destruct i as [|i].
    + simpl in *. injection Hp as <-. injection Hc as <-. reflexivity.
    + cbn [forward_from]. simpl in Hc |- *.
      apply (IH _ i prev' current); [|exact Hc].
      exact Hp.
Qed.

(** Each entry is compared with its updated predecessor. *)
Lemma applyForwardSpacing_nth (sp : Q) (l : list entry) (i : nat)
  (prev' current : entry) :
  nth_error (applyForwardSpacing sp l) i = Some prev' ->
  nth_error l (S i) = Some current ->
  nth_error (applyForwardSpacing sp l) (S i)
  = Some (forward_step sp prev' current).
Proof.
  destruct l as [|first r]; [destruct i; discriminate|].
  intros Hp Hc. simpl in Hc. cbn [applyForwardSpacing] in *.
  apply (forward_from_nth sp r first i prev' current Hp Hc).
Qed.

(** The forward pass changes nothing where the spacing holds already. *)
Lemma forward_from_fixed (sp : Q) (prev : entry) (rest : list entry) :
  chain (spaced sp) (prev :: rest) -> forward_from sp prev rest = rest.
Proof.
  revert prev. induction rest as [|c r IH]; intros prev Hc; [reflexivity|].
  cbn [forward_from]. destruct Hc as [Hpc Hc].
  assert (forward_step sp prev c = c) as ->.
  { destruct (forward_step_cases sp prev c) as [(H & _) | (_ & E)];
      [|exact E].
    unfold_geometry. qlra. }
  rewrite (IH c Hc). reflexivity.
Qed.

Lemma applyForwardSpacing_fixed (sp : Q) (l : list entry) :
  chain (spaced sp) l -> applyForwardSpacing sp l = l.
Proof.
  destruct l as [|first r]; [reflexivity|].
  intros Hc. cbn [applyForwardSpacing].
  rewrite (forward_from_fixed sp first r Hc). reflexivity.
Qed.

(** *** Backward pass *)

Lemma backward_step_fixed (sp : Q) (next current : entry) :
  spaced sp current next -> backward_step sp next current = current.
Proof.
  unfold backward_step. intros H. num_cases; [|reflexivity].
  unfold_geometry. qlra.
Qed.

Lemma backward_from_fixed (sp : Q) (next : entry) (rest : list entry) :
  chain (fun a b => spaced sp b a) (next :: rest) ->
  backward_from sp next rest = rest.
Proof.
  revert next. induction rest as [|c r IH]; intros next Hc; [reflexivity|].
  cbn [backward_from]. destruct Hc as [Hnc Hc].
  rewrite (backward_step_fixed sp next c Hnc), (IH c Hc). reflexivity.
Qed.

(** The backward pass changes nothing where the spacing holds already. *)
Lemma applyBackwardSpacing_fixed (sp : Q) (l : list entry) :
  chain (spaced sp) l -> applyBackwardSpacing sp l = l.
Proof.
  intros Hc. unfold applyBackwardSpacing.
  pose proof (chain_rev (spaced sp) l Hc) as Hr.
  destruct (rev l) as [|last r] eqn:E.
  - destruct l as [|x t]; [reflexivity|].
    apply (f_equal (@List.length entry)) in E.
    rewrite length_rev in E. discriminate.
  - rewrite (backward_from_fixed sp last r Hr), <- E.
    apply rev_involutive.
Qed.

(** *** Uniform shifts *)

Lemma shift_spaced (sp d : Q) (l : list entry) :
  chain (spaced sp) l -> chain (spaced sp) (map (add_labelY d) l).
Proof.
  induction l as [|a [|b t] IH]; try (intros; exact I).
  intros [Hab Hc]. split; [|apply IH; exact Hc].
  unfold_geometry. qlra.
Qed.

(** The overflow block, run on a list where the spacing holds, is the
    uniform shift by the overflow. *)
Lemma overflow_block_shift (sp : Q) (l : list entry) (last : entry) :
  chain (spaced sp) l ->
  hd_error (rev l) = Some last ->
  MAX_BOUND < bottom_of last ->
  overflow_block sp l = map (add_labelY (- (bottom_of last - MAX_BOUND))) l.
Proof.
  intros Hc Hl Hov. unfold overflow_block.
  destruct (rev l) as [|x r]; [discriminate|].
  injection Hl as ->.
  destruct (NumFacts.ltb_cases MAX_BOUND (bottom_of last)) as [[_ ->] | [H _]];
    [|lra].
  apply applyBackwardSpacing_fixed. apply shift_spaced. exact Hc.
Qed.

Lemma overflow_block_spaced (sp : Q) (l : list entry) :
  chain (spaced sp) l -> chain (spaced sp) (overflow_block sp l).
Proof.
  intros Hc. unfold overflow_block.
  destruct (rev l) as [|x r] eqn:E; [exact Hc|].
  destruct (Num.ltb MAX_BOUND (bottom_of x)); [|exact Hc].
  rewrite applyBackwardSpacing_fixed; apply shift_spaced; exact Hc.
Qed.

Lemma underflow_block_spaced (sp : Q) (l : list entry) :
  chain (spaced sp) l -> chain (spaced sp) (underflow_block sp l).
Proof.
  intros Hc. unfold underflow_block.
  destruct l as [|first r]; [exact Hc|].
  destruct (Num.ltb (topEdge_of first) MIN_BOUND); [|exact Hc].
  rewrite applyForwardSpacing_fixed; apply shift_spaced; exact Hc.
Qed.

(** Before its final clamp [resolveSide] has every label at least [sp]
    below its predecessor. *)
Lemma passes_spaced (sp : Q) (l : list entry) :
  chain (spaced sp)
    (underflow_block sp (overflow_block sp (applyForwardSpacing sp l))).
Proof.
  apply underflow_block_spaced, overflow_block_spaced,
    applyForwardSpacing_spaced.
Qed.

(** The spacing of a side is never compressed below 1.5. *)
Lemma spacing_floor (l : list entry) : 3 # 2 <= spacing_of l.
Proof.
  unfold spacing_of, Num.max, MIN_VERTICAL_SPACING.
  num_cases; lra.
Qed.

(** *** What the solver and the de-collision loop keep *)

Section Framed.
Variable P : entry -> Prop.
Hypothesis P_framed : framed P.

Lemma framed_add (d : Q) (e : entry) : P e -> P (add_labelY d e).
Proof. apply P_framed. Qed.

Lemma framed_forward_step (sp : Q) (prev c : entry) :
  P c -> P (forward_step sp prev c).
Proof.
  unfold forward_step. destruct (Num.ltb _ sp); [apply framed_add | auto].
Qed.

Lemma framed_backward_step (sp : Q) (next c : entry) :
  P c -> P (backward_step sp next c).
Proof.
  unfold backward_step. destruct (Num.ltb _ sp); [apply framed_add | auto].
Qed.

Lemma framed_forward_from (sp : Q) (prev : entry) (l : list entry) :
  Forall P l -> Forall P (forward_from sp prev l).
Proof.
  intros H. revert prev. induction H as [|c r Hc Hr IH]; intros prev;
    cbn [forward_from]; constructor.
  - apply framed_forward_step. exact Hc.
  - apply IH.
Qed.

Lemma framed_backward_from (sp : Q) (next : entry) (l : list entry) :
  Forall P l -> Forall P (backward_from sp next l).
Proof.
  intros H. revert next. induction H as [|c r Hc Hr IH]; intros next;
    cbn [backward_from]; constructor.
  - apply framed_backward_step. exact Hc.
  - apply IH.
Qed.

Lemma framed_forward (sp : Q) (l : list entry) :
  Forall P l -> Forall P (applyForwardSpacing sp l).
Proof.
  destruct l as [|f r]; [auto|]. intros H.
  apply Forall_cons_iff in H as [Hf Hr].
  cbn [applyForwardSpacing]. constructor; [exact Hf|].
  apply framed_forward_from. exact Hr.
Qed.

Lemma framed_backward (sp : Q) (l : list entry) :
  Forall P l -> Forall P (applyBackwardSpacing sp l).
Proof.
  intros H. unfold applyBackwardSpacing.
  apply Forall_rev in H.
  destruct (rev l) as [|x r]; [constructor|].
  apply Forall_cons_iff in H as [Hx Hr].
  apply Forall_rev. constructor; [exact Hx|].
  apply framed_backward_from. exact Hr.
Qed.

Lemma framed_map (f : entry -> Q) (l : list entry) :
  Forall P l -> Forall P (map (fun e => set_labelY (f e) e) l).
Proof.
  intros H. apply Forall_map.
  revert H. apply Forall_impl. intros e. apply P_framed.
Qed.

Lemma framed_shift (d : Q) (l : list entry) :
  Forall P l -> Forall P (map (add_labelY d) l).
Proof.
  intros H. apply Forall_map.
  revert H. apply Forall_impl. intros e. apply framed_add.
Qed.

(** The entries before the final clamp of [resolveSide]. *)
Lemma framed_passes (sp : Q) (l : list entry) :
  Forall P l ->
  Forall P (underflow_block sp
              (overflow_block sp (applyForwardSpacing sp (initial_clamp l)))).
Proof.
  intros H. unfold underflow_block.
  assert (Forall P (overflow_block sp
            (applyForwardSpacing sp (initial_clamp l)))) as H2.
  { unfold overflow_block.
    assert (Forall P (applyForwardSpacing sp (initial_clamp l)))
      as H1 by (apply framed_forward; apply framed_map; exact H).
    destruct (rev _) as [|x r]; [exact H1|].
    destruct (Num.ltb MAX_BOUND (bottom_of x)); [|exact H1].
    apply framed_backward, framed_shift. exact H1. }
  destruct (overflow_block _ _) as [|f r]; [exact H2|].
  destruct (Num.ltb (topEdge_of f) MIN_BOUND); [|exact H2].
  apply framed_forward, framed_shift. exact H2.
Qed.

Lemma framed_resolveSide_entries (l : list entry) :
  Forall P l -> Forall P (resolveSide_entries l).
Proof.
  intros H. unfold resolveSide_entries, final_clamp.
  apply framed_map. apply framed_passes. exact H.
Qed.

Lemma framed_write_back (solved positions : list entry) :
  Forall P solved -> Forall P positions ->
  Forall P (write_back solved positions).
Proof.
  intros Hs Hp. unfold write_back. apply Forall_map.
  revert Hp. apply Forall_impl. intros p Pp.
  destruct (find _ solved) as [s|] eqn:E; [|exact Pp].
  apply find_some in E as [Hin _].
  rewrite Forall_forall in Hs. apply Hs. exact Hin.
Qed.

Lemma framed_resolveSide (isRight : bool) (positions : list entry) :
  Forall P positions -> Forall P (resolveSide isRight positions).
Proof.
  intros H. unfold resolveSide.
  assert (Forall P (side_entries isRight positions)) as Hs.
  { unfold side_entries, sort_by_top. apply sort_by_Forall.
    rewrite Forall_forall in *. intros x Hx.
    apply filter_In in Hx as [Hx _]. auto. }
  destruct (side_entries isRight positions) as [|e r] eqn:E; [exact H|].
  apply framed_write_back; [|exact H].
  apply framed_resolveSide_entries. exact Hs.
Qed.

Lemma framed_decollide (e : entry) : P e -> P (decollide e).
Proof. apply P_framed. Qed.

(** A property that does not read [labelY] and holds of the collected
    positions holds of the plan. *)
Lemma framed_plan (p : props) :
  Forall P (collect p) -> Forall P (adjustedPositions p).
Proof.
  intros H. unfold adjustedPositions. apply Forall_map.
  apply (framed_resolveSide true) in H.
  apply (framed_resolveSide false) in H.
  revert H. apply Forall_impl. intros e. apply framed_decollide.
Qed.
End Framed.

End CurvedFacts.

(** ** The curved variant: the plan *)

Module PlanFacts.
Import Curved CurvedSpec CurvedFacts.

Lemma collect_keys_In (p : props) (ks : list OrganKey) (e : entry) :
  In e (collect_keys p ks) ->
  exists k, In k ks /\ collect_one p k = Some e.
Proof.
  induction ks as [|k r IH]; simpl; [contradiction|].
  destruct (collect_one p k) as [e0|] eqn:E.
  - intros [<- | H].
    + exists k. split; [left; reflexivity | exact E].
    + destruct (IH H) as (k' & Hk' & E'). exists k'. split; [right|]; assumption.
  - intros H. destruct (IH H) as (k' & Hk' & E'). exists k'.
    split; [right|]; assumption.
Qed.

(** What [collect] puts in an entry. *)
Lemma collect_one_entry (p : props) (k : OrganKey) (e : entry) :
  collect_one p k = Some e ->
  isOrganHighlighted p k = true
  /\ markerPositions p k = Some (originalPosition e)
  /\ organKey e = k
  /\ a_left (adjustedPosition e) = left (originalPosition e)
  /\ a_top (adjustedPosition e) = top (originalPosition e)
  /\ isRightSide e = Num.ltb 55 (left (originalPosition e))
  /\ labelX (adjustedPosition e)
     = (if isRightSide e then left (originalPosition e) - 36
        else left (originalPosition e) + 36)
  /\ labelHeight e = estimateLabelHeight (getOrganDetail p k).
Proof.
  unfold collect_one.
  destruct (isOrganHighlighted p k); simpl; [|discriminate].
  destruct (markerPositions p k) as [pos|]; [|discriminate].
  intros H. injection H as <-. simpl. repeat split; reflexivity.
Qed.

Lemma plan_entry (p : props) (P : entry -> Prop) :
  framed P ->
  (forall k e, collect_one p k = Some e -> P e) ->
  forall e, In e (adjustedPositions p) -> P e.
Proof.
  intros HP Hc.
  apply Forall_forall. apply framed_plan; [exact HP|].
  apply Forall_forall. intros e He.
  apply collect_keys_In in He as (k & _ & E). exact (Hc k e E).
Qed.

(** Every label of the plan is at least [LABEL_HEIGHT] tall. *)
Lemma plan_heights (p : props) (e : entry) :
  In e (adjustedPositions p) -> LABEL_HEIGHT <= labelHeight e.
Proof.
  apply (plan_entry p (fun e => LABEL_HEIGHT <= labelHeight e)).
  - intros e0 y H. exact H.
  - intros k e0 E. apply collect_one_entry in E.
    destruct E as (_ & _ & _ & _ & _ & _ & _ & ->).
    apply HeightFacts.estimate_lower_bound.
Qed.

Lemma clamp_within_bounds (y : Q) (e : entry) :
  labelHeight e <= availableHeight ->
  within_bounds (set_labelY (clampCenterWithHeight y (labelHeight e)) e).
Proof.
  intros H. pose proof (clamp_range y (labelHeight e) H) as [H1 H2].
  unfold_geometry. qlra.
Qed.

Lemma final_clamp_within_bounds (l : list entry) :
  Forall fits l -> Forall within_bounds (final_clamp l).
Proof.
  intros H. unfold final_clamp. apply Forall_map.
  revert H. apply Forall_impl. intros e [_ He].
  apply clamp_within_bounds. exact He.
Qed.

Lemma fits_framed : framed fits.
Proof. intros e y H. exact H. Qed.

(** The labels that fit are between the bounds after [resolveSide]. *)
Lemma resolveSide_entries_within_bounds (l : list entry) :
  Forall fits l -> Forall within_bounds (resolveSide_entries l).
Proof.
  intros H. unfold resolveSide_entries.
  apply final_clamp_within_bounds.
  apply (framed_passes fits fits_framed). exact H.
Qed.

(** The labels that fit are between the bounds in the plan. *)
Lemma plan_within_bounds (p : props) (e : entry) :
  In e (adjustedPositions p) ->
  labelHeight e <= availableHeight -> within_bounds e.
Proof.
  unfold adjustedPositions. intros H Hh.
  apply in_map_iff in H as (e0 & <- & _).
  unfold decollide in *. apply clamp_within_bounds. exact Hh.
Qed.

Lemma within_bounds_center (e : entry) :
  0 <= labelHeight e -> within_bounds e ->
  MIN_BOUND <= y_of e /\ y_of e <= MAX_BOUND.
Proof. unfold_geometry. intros H0 [H1 H2]. qlra. Qed.

(** The de-collision loop: where the marker is far enough from both
    bounds, the label ends at least [LABEL_HEIGHT] away from it. *)
Lemma decollide_distance (e : entry) :
  MIN_BOUND + labelHeight e / 2 + (LABEL_HEIGHT + 1) <= top_of e ->
  top_of e <= MAX_BOUND - labelHeight e / 2 - (LABEL_HEIGHT + 1) ->
  LABEL_HEIGHT <= Num.abs (y_of (decollide e) - top_of (decollide e)).
Proof.
  intros H1 H2.
  unfold decollide, Num.abs, clampCenterWithHeight.
  unfold_geometry.
  num_cases; qlra.
Qed.

End PlanFacts.

(** * The claims *)

(** Closed comparisons of rationals, by computation. *)
Ltac q_decide :=
  match goal with
  | |- ~ (_ <= _) => apply Qlt_not_le; apply Qlt_alt; vm_compute; reflexivity
  | |- (_ <= _) -> False =>
      apply Qlt_not_le; apply Qlt_alt; vm_compute; reflexivity
  | |- ~ (_ < _) => apply Qle_not_lt; apply Qle_bool_iff; vm_compute; reflexivity
  | |- _ <= _ => apply Qle_bool_iff; vm_compute; reflexivity
  | |- _ < _ => apply Qlt_alt; vm_compute; reflexivity
  | |- _ == _ => apply Qeq_bool_iff; vm_compute; reflexivity
  end.

(** ** The elbow variant: spacing and order *)

(** C10. In the solver of the elbow variant, whatever the items of a
    side, the final centers of two neighbouring cards are at least
    [cardHeight + minVerticalGap] = 11 apart: the forward pass
    establishes the distance and the overflow pull-up loop moves a card
    up only within the slack above its predecessor. *)
Theorem grid_adjacent_gap (items : list Grid.item) (colX : Q) (isRight : bool)
  (i : nat) (a b : Grid.assignment) :
  nth_error (Grid.adjustSide items colX isRight) i = Some a ->
  nth_error (Grid.adjustSide items colX isRight) (S i) = Some b ->
  Grid.rowY a + (Grid.cardHeight + Grid.minVerticalGap) <= Grid.rowY b
  /\ Grid.rowY a + 11 <= Grid.rowY b.
Proof.
  intros Ha Hb.
  pose proof (GridFacts.adjustSide_chain items colX isRight) as Hc.
  destruct (chain_nth _ _ Hc i a b Ha Hb) as [_ H].
  unfold Grid.spacing, Grid.cardHeight, Grid.minVerticalGap in *.
  split; lra.
Qed.

(** Two sources at 90 and 91 on the left side. *)
Lemma grid_adjacent_gap_witness :
  exists a b,
    nth_error (Grid.adjustSide Sample.low_pair 73 false) 0 = Some a
    /\ nth_error (Grid.adjustSide Sample.low_pair 73 false) 1 = Some b
    /\ Grid.rowY a + 11 <= Grid.rowY b.
Proof.
  eexists. eexists.
  split; [vm_compute; reflexivity|].
  split; [vm_compute; reflexivity|].
  eapply (grid_adjacent_gap Sample.low_pair 73 false 0); reflexivity.
Defined.

(** C2, as stated, fails on two regions of one side with the same source
    y: the cards are one [spacing] apart although neither source is
    above the other. *)
Lemma order_with_ties_counterexample :
  exists a b,
    In a (Grid.gridPositions Sample.level_pair None)
    /\ In b (Grid.gridPositions Sample.level_pair None)
    /\ Grid.isRightSide a = Grid.isRightSide b
    /\ top (Grid.organPosition a) <= top (Grid.organPosition b)
    /\ ~ Grid.rowY a <= Grid.rowY b.
Proof.
  exists (Grid.mkAssignment heart (mkPosition 40 50) false 73 (50 + 11)).
  exists (Grid.mkAssignment brain (mkPosition 40 50) false 73 50).
  split; [right; left; vm_compute; reflexivity|].
  split; [left; vm_compute; reflexivity|].
  split; [reflexivity|].
  split; simpl; q_decide.
Qed.

(** C2, amended.  In the plan of the elbow variant, of two cards of one
    side the one whose source is strictly higher is placed strictly
    higher, by at least one [spacing]. *)
Theorem grid_order_preserved (p : props)
  (cols : option Grid.ColumnPositionOverrides) (a b : Grid.assignment) :
  In a (Grid.gridPositions p cols) ->
  In b (Grid.gridPositions p cols) ->
  Grid.isRightSide a = Grid.isRightSide b ->
  top (Grid.organPosition a) < top (Grid.organPosition b) ->
  Grid.rowY a < Grid.rowY b /\ Grid.rowY a + Grid.spacing <= Grid.rowY b.
Proof.
  intros Ha Hb Hside Hlt.
  assert (Grid.rowY a + Grid.spacing <= Grid.rowY b) as H.
  { unfold Grid.gridPositions in Ha, Hb.
    apply in_app_or in Ha. apply in_app_or in Hb.
    destruct Ha as [Ha | Ha], Hb as [Hb | Hb];
      pose proof (GridFacts.assign_side _ _ _ _ _ Ha) as [Sa _];
      pose proof (GridFacts.assign_side _ _ _ _ _ Hb) as [Sb _];
      try congruence;
      eapply GridFacts.adjustSide_order; eassumption. }
  split; [|exact H].
  unfold Grid.spacing, Grid.cardHeight, Grid.minVerticalGap in H. lra.
Qed.

Lemma grid_order_preserved_witness :
  exists a b,
    In a (Grid.gridPositions Sample.low_regions None)
    /\ In b (Grid.gridPositions Sample.low_regions None)
    /\ Grid.rowY a < Grid.rowY b.
Proof.
  eexists. eexists.
  split; [left; vm_compute; reflexivity|].
  split; [right; left; vm_compute; reflexivity|].
  eapply (grid_order_preserved Sample.low_regions None).
  - left. vm_compute. reflexivity.
  - right. left. vm_compute. reflexivity.
  - reflexivity.
  - simpl. q_decide.
Defined.

(** C3 on the elbow variant.  Two regions of the left side with sources
    at 90 and 91 need 18 of the 94 units between the bounds, yet the
    second card stays at 101: the pull-up loop finds no slack above it
    and spends the overflow on the first card.  The center 101 is beyond
    the bound 97 and beyond the canvas. *)
Theorem grid_pull_up_leaves_card_out_of_bounds :
  Grid.rowYs (Grid.gridPositions Sample.low_regions None) = [165 # 2; 101]
  /\ 2 * Grid.cardHeight + Grid.minVerticalGap
     <= GridSpec.maxBound - GridSpec.minBound
  /\ exists a, In a (Grid.gridPositions Sample.low_regions None)
        /\ GridSpec.maxBound < Grid.rowY a
        /\ ~ Grid.rowY a <= Grid.maxCenter.
Proof.
  split; [vm_compute; reflexivity|].
  split; [q_decide|].
  eexists. split; [right; left; vm_compute; reflexivity|].
  split; simpl; q_decide.
Qed.

(** ** The curved variant: spacing passes *)

(** C1 on the curved variant.  Two regions of the left side with sources
    at 50 and 56 and no detail text need 19 of the 84 units between the
    bounds.  The solver places the labels at 50 and 62.5; the
    de-collision loop then moves the first label to 57.5 and leaves the
    second one, so that the centers are 5 apart where 12.5 is required
    and the two labels overlap. *)
Theorem curved_decollision_overlap :
  Curved.labelYs (Curved.resolveSide false
                    (Curved.resolveSide true (Curved.collect Sample.close_pair)))
  = [50; 125 # 2]
  /\ Curved.labelYs (Curved.adjustedPositions Sample.close_pair)
     = [115 # 2; 125 # 2]
  /\ map Curved.labelHeight (Curved.adjustedPositions Sample.close_pair)
     = [Curved.LABEL_HEIGHT; Curved.LABEL_HEIGHT]
  /\ map Curved.isRightSide (Curved.adjustedPositions Sample.close_pair)
     = [false; false]
  /\ Curved.totalHeight (Curved.adjustedPositions Sample.close_pair)
     <= Curved.availableHeight
  /\ ~ chain (CurvedSpec.spaced Curved.MIN_VERTICAL_SPACING)
         (Curved.adjustedPositions Sample.close_pair)
  /\ ~ chain (CurvedSpec.spaced 0)
         (Curved.adjustedPositions Sample.close_pair).
Proof.
  split; [vm_compute; reflexivity|].
  split; [vm_compute; reflexivity|].
  split; [vm_compute; reflexivity|].
  split; [vm_compute; reflexivity|].
  split; [q_decide|].
  split; intros [H _]; revert H; unfold CurvedSpec.spaced; q_decide.
Qed.

(** The same loop inverts the order of two labels: sources at 76 and 89
    of one side end with their labels at 83.5 and 81.5. *)
Lemma curved_decollision_swaps_order :
  Curved.labelYs (Curved.adjustedPositions Sample.bottom_pair)
  = [167 # 2; 163 # 2]
  /\ map Curved.top_of (Curved.adjustedPositions Sample.bottom_pair) = [76; 89]
  /\ map Curved.isRightSide (Curved.adjustedPositions Sample.bottom_pair)
     = [false; false].
Proof. repeat split; vm_compute; reflexivity. Qed.

(** The clamp at the end of [resolveSide] has the same effect after an
    underflow shift: sources at 10, 90 and 91 of one side, 31.5 units of
    labels and gaps, leave the solver with the last two labels on the
    same center. *)
Lemma curved_clamp_overlap :
  Curved.labelYs (Curved.resolveSide false
                    (Curved.resolveSide true (Curved.collect Sample.spread_triple)))
  = [45 # 4; 355 # 4; 355 # 4]
  /\ Curved.labelYs (Curved.adjustedPositions Sample.spread_triple)
     = [35 # 2; 165 # 2; 167 # 2]
  /\ Curved.totalHeight (Curved.adjustedPositions Sample.spread_triple)
     <= Curved.availableHeight.
Proof.
  split; [vm_compute; reflexivity|].
  split; [vm_compute; reflexivity|].
  q_decide.
Qed.

(** ** Forward pass *)

Lemma grid_forward_nth (items : list Grid.item) :
  forall (prev : option Q) (i : nat) (c : Q) (it : Grid.item),
    nth_error (Grid.forward_centers prev items) i = Some c ->
    nth_error items (S i) = Some it ->
    nth_error (Grid.forward_centers prev items) (S i)
    = Some (Num.max (Grid.clampCenter (Grid.item_top it)) (c + Grid.spacing)).
Proof.
  induction items as [|x r IH]; intros prev i c it Hc Hi.
  - destruct i; discriminate.
  - destruct i as [|i].
    + destruct r as [|y r']; [discriminate|].
      simpl in Hc, Hi. injection Hc as <-. injection Hi as <-.
      reflexivity.
    + cbn [Grid.forward_centers] in *. simpl in Hc, Hi |- *.
      apply (IH _ i c it Hc Hi).
Qed.

(** C6.  In the forward pass each label is compared with its already
    placed predecessor; when its center is less than the required
    spacing [(heightPrev + heightCurr) / 2 + minGap] below, it is moved
    to exactly that distance.  This holds of [applyForwardSpacing] in
    the curved variant and of the forward pass of [adjustSide] in the
    elbow variant, where all heights are 7 and the gap is 4.  Sources at
    10 and 12 give the centers 10 and 21. *)
Theorem forward_pass_exact_spacing :
  (forall (minGap : Q) (l : list Curved.entry) (i : nat)
          (prev current : Curved.entry),
     nth_error (Curved.applyForwardSpacing minGap l) i = Some prev ->
     nth_error l (S i) = Some current ->
     Curved.y_of current - Curved.y_of prev
     < (Curved.labelHeight prev + Curved.labelHeight current) / 2 + minGap ->
     exists current',
       nth_error (Curved.applyForwardSpacing minGap l) (S i) = Some current'
       /\ Curved.y_of current'
          == Curved.y_of prev
             + ((Curved.labelHeight prev + Curved.labelHeight current) / 2
                + minGap))
  /\ (forall (items : list Grid.item) (i : nat) (prev : Q) (it : Grid.item),
        nth_error (Grid.forward_centers None items) i = Some prev ->
        nth_error items (S i) = Some it ->
        Grid.clampCenter (Grid.item_top it) - prev
        < (Grid.cardHeight + Grid.cardHeight) / 2 + Grid.minVerticalGap ->
        nth_error (Grid.forward_centers None items) (S i)
        = Some (prev + Grid.spacing))
  /\ Grid.spacing
     == (Grid.cardHeight + Grid.cardHeight) / 2 + Grid.minVerticalGap
  /\ Grid.rowYs (Grid.gridPositions Sample.scenario_B None) = [10; 21]
  /\ Curved.labelYs (Curved.applyForwardSpacing 4 Sample.scenario_B_entries)
     = [10; 21].
Proof.
  split; [|split; [|split; [q_decide | split; vm_compute; reflexivity]]].
  - intros minGap l i prev current Hp Hc Hlt.
    exists (Curved.forward_step minGap prev current).
    split; [apply CurvedFacts.applyForwardSpacing_nth; assumption|].
    destruct (CurvedFacts.forward_step_cases minGap prev current)
      as [(_ & _ & Hy) | (Hge & _)]; [rewrite Hy; lra | lra].
  - intros items i prev it Hp Hi Hlt.
    rewrite (grid_forward_nth items None i prev it Hp Hi).
    unfold Num.max.
    destruct (NumFacts.leb_cases (Grid.clampCenter (Grid.item_top it))
                (prev + Grid.spacing))
      as [[_ ->] | [Hgt _]].
    + reflexivity.
    + exfalso.
      unfold Grid.spacing, Grid.cardHeight, Grid.minVerticalGap in *. qlra.
Qed.

Lemma forward_pass_exact_spacing_witness :
  (exists current',
     nth_error (Curved.applyForwardSpacing 4 Sample.scenario_B_entries) 1
     = Some current'
     /\ Curved.y_of current' == 21)
  /\ nth_error (Grid.forward_centers None Sample.scenario_B_items) 1
     = Some (10 + Grid.spacing).
Proof.
  destruct forward_pass_exact_spacing as (Hcurved & Hgrid & _).
  split.
  - destruct (Hcurved 4 Sample.scenario_B_entries 0%nat
                (Sample.entry_at brain 10 7) (Sample.entry_at heart 12 7))
      as (c & Hn & Hy).
    + reflexivity.
    + reflexivity.
    + simpl. q_decide.
    + exists c. split; [exact Hn|]. rewrite Hy. simpl. q_decide.
  - apply (Hgrid Sample.scenario_B_items 0%nat 10
             (Grid.mkItem heart (mkPosition 40 12))).
    + reflexivity.
    + reflexivity.
    + q_decide.
Defined.

(** ** De-collision with the marker *)

(** C5, as stated, fails on a single region with its source at 88 and no
    detail text: the label is moved to 95.5 and clamped back to 88.75,
    which is 0.75 from the source, less than the height 6.5. *)
Lemma declutter_counterexample :
  exists e,
    In e (Curved.adjustedPositions (Sample.one_region 88))
    /\ Curved.labelHeight e = Curved.LABEL_HEIGHT
    /\ Num.abs (Curved.y_of e - Curved.top_of e) < Curved.labelHeight e.
Proof.
  eexists. split; [left; vm_compute; reflexivity|].
  split; [reflexivity|].
  q_decide.
Qed.

(** C5, amended.  The de-collision loop compares the distance between
    the label center and the source with the base height [LABEL_HEIGHT],
    not with the height of the label.  A closer label is moved to the
    source plus or minus [LABEL_HEIGHT + 1], upwards when it is above the
    source and downwards otherwise, also when the two coincide; the
    result is clamped to the bounds, and a label that was not closer is
    clamped only.  The clamp has priority: in the plan the label is at
    least [LABEL_HEIGHT] away from the source when the source leaves
    room for the move on both sides. *)
Theorem decollide_contract :
  (forall e : Curved.entry,
     Num.abs (Curved.y_of e - Curved.top_of e) < Curved.LABEL_HEIGHT ->
     Curved.y_of e < Curved.top_of e ->
     Curved.y_of (Curved.decollide e)
     = Curved.clampCenterWithHeight
         (Curved.top_of e - Curved.LABEL_HEIGHT - 1) (Curved.labelHeight e))
  /\ (forall e : Curved.entry,
        Num.abs (Curved.y_of e - Curved.top_of e) < Curved.LABEL_HEIGHT ->
        Curved.top_of e <= Curved.y_of e ->
        Curved.y_of (Curved.decollide e)
        = Curved.clampCenterWithHeight
            (Curved.top_of e + Curved.LABEL_HEIGHT + 1) (Curved.labelHeight e))
  /\ (forall e : Curved.entry,
        Curved.LABEL_HEIGHT <= Num.abs (Curved.y_of e - Curved.top_of e) ->
        Curved.y_of (Curved.decollide e)
        = Curved.clampCenterWithHeight (Curved.y_of e) (Curved.labelHeight e))
  /\ (forall (p : props) (e : Curved.entry),
        In e (Curved.adjustedPositions p) ->
        Curved.MIN_BOUND + Curved.labelHeight e / 2 + (Curved.LABEL_HEIGHT + 1)
        <= Curved.top_of e ->
        Curved.top_of e
        <= Curved.MAX_BOUND - Curved.labelHeight e / 2 - (Curved.LABEL_HEIGHT + 1) ->
        Curved.LABEL_HEIGHT <= Num.abs (Curved.y_of e - Curved.top_of e)).
Proof.
  split; [|split; [|split]].
  - intros e Hd Hlt. unfold Curved.decollide.
    destruct (NumFacts.ltb_cases (Num.abs (Curved.y_of e - Curved.top_of e))
                Curved.LABEL_HEIGHT) as [[_ ->] | [H _]]; [|lra].
    destruct (NumFacts.ltb_cases (Curved.y_of e) (Curved.top_of e))
      as [[_ ->] | [H _]]; [reflexivity | lra].
  - intros e Hd Hle. unfold Curved.decollide.
    destruct (NumFacts.ltb_cases (Num.abs (Curved.y_of e - Curved.top_of e))
                Curved.LABEL_HEIGHT) as [[_ ->] | [H _]]; [|lra].
    destruct (NumFacts.ltb_cases (Curved.y_of e) (Curved.top_of e))
      as [[H _] | [_ ->]]; [lra | reflexivity].
  - intros e Hd. unfold Curved.decollide.
    destruct (NumFacts.ltb_cases (Num.abs (Curved.y_of e - Curved.top_of e))
                Curved.LABEL_HEIGHT) as [[H _] | [_ ->]]; [lra | reflexivity].
  - intros p e He H1 H2. unfold Curved.adjustedPositions in He.
    apply in_map_iff in He as (e0 & <- & _).
    apply PlanFacts.decollide_distance; assumption.
Qed.

Lemma decollide_contract_witness :
  (exists e, In e (Curved.adjustedPositions (Sample.one_region 50))
             /\ Curved.LABEL_HEIGHT
                <= Num.abs (Curved.y_of e - Curved.top_of e))
  /\ Curved.y_of (Curved.decollide (Sample.entry_at brain 50 (13 # 2)))
     = Curved.clampCenterWithHeight (50 + Curved.LABEL_HEIGHT + 1) (13 # 2).
Proof.
  destruct decollide_contract as (_ & Hdown & _ & Hplan).
  split.
  - eexists. split; [left; vm_compute; reflexivity|].
    apply (Hplan (Sample.one_region 50)).
    + left. vm_compute. reflexivity.
    + q_decide.
    + q_decide.
  - apply (Hdown (Sample.entry_at brain 50 (13 # 2))).
    + q_decide.
    + q_decide.
Defined.

(** ** Degenerate inputs *)

Module DegenerateFacts.

Lemma deactivate_collect_one (p : props) (k k' : OrganKey) :
  markerPositions p k = None ->
  Curved.collect_one (deactivate k p) k' = Curved.collect_one p k'.
Proof.
  intros Hk. unfold Curved.collect_one, deactivate, getOrganDetail.
  cbn [isOrganHighlighted markerPositions organDetails].
  destruct (OrganKey_eqb k' k) eqn:E.
  - apply OrganKey_eqb_eq in E as ->. rewrite Hk.
    destruct (isOrganHighlighted p k); reflexivity.
  - reflexivity.
Qed.

Lemma deactivate_collect (p : props) (k : OrganKey) :
  markerPositions p k = None ->
  Curved.collect (deactivate k p) = Curved.collect p.
Proof.
  intros Hk. unfold Curved.collect.
  induction ORGAN_KEYS as [|k' r IH]; [reflexivity|].
  cbn [Curved.collect_keys].
  rewrite (deactivate_collect_one p k k' Hk), IH. reflexivity.
Qed.

Lemma deactivate_highlighted (p : props) (k : OrganKey) :
  markerPositions p k = None ->
  Grid.highlighted (deactivate k p) = Grid.highlighted p.
Proof.
  intros Hk. unfold Grid.highlighted.
  induction ORGAN_KEYS as [|k' r IH]; [reflexivity|].
  cbn [Grid.highlighted_keys]. rewrite IH.
  unfold deactivate at 1 2.
  cbn [isOrganHighlighted markerPositions].
  destruct (OrganKey_eqb k' k) eqn:E; [|reflexivity].
  apply OrganKey_eqb_eq in E as ->. rewrite Hk.
  destruct (isOrganHighlighted p k); reflexivity.
Qed.

Lemma collect_none (p : props) :
  (forall k, isOrganHighlighted p k = false) -> Curved.collect p = [].
Proof.
  intros H. unfold Curved.collect.
  induction ORGAN_KEYS as [|k r IH]; [reflexivity|].
  cbn [Curved.collect_keys]. unfold Curved.collect_one at 1.
  rewrite (H k). exact IH.
Qed.

Lemma highlighted_none (p : props) :
  (forall k, isOrganHighlighted p k = false) -> Grid.highlighted p = [].
Proof.
  intros H. unfold Grid.highlighted.
  induction ORGAN_KEYS as [|k r IH]; [reflexivity|].
  cbn [Grid.highlighted_keys]. rewrite (H k). exact IH.
Qed.

Lemma highlighted_keys_In (p : props) (ks : list OrganKey) (it : Grid.item) :
  In it (Grid.highlighted_keys p ks) ->
  markerPositions p (Grid.organKey it) = Some (Grid.item_position it).
Proof.
  induction ks as [|k r IH]; simpl; [contradiction|].
  destruct (isOrganHighlighted p k); [|exact IH].
  destruct (markerPositions p k) as [pos|] eqn:E; [|exact IH].
  intros [<- | H]; [exact E | exact (IH H)].
Qed.

Lemma assign_In (colX : Q) (isRight : bool) (items : list Grid.item)
  (centers : list Q) (a : Grid.assignment) :
  In a (Grid.assign colX isRight items centers) ->
  exists it, In it items /\ Grid.a_organKey a = Grid.organKey it
             /\ Grid.organPosition a = Grid.item_position it.
Proof.
  revert centers. induction items as [|x r IH]; intros centers H;
    [contradiction|].
  destruct centers as [|c cs]; [contradiction|].
  destruct H as [<- | H].
  - exists x. repeat split. left. reflexivity.
  - destruct (IH cs H) as (it & Hin & Hk & Hp).
    exists it. repeat split; try assumption. right. exact Hin.
Qed.

(** The organ of a card of the plan has a position. *)
Lemma gridPositions_resolved (p : props)
  (cols : option Grid.ColumnPositionOverrides) (a : Grid.assignment) :
  In a (Grid.gridPositions p cols) ->
  markerPositions p (Grid.a_organKey a) = Some (Grid.organPosition a).
Proof.
  unfold Grid.gridPositions, Grid.adjustSide. intros H.
  apply in_app_or in H as [H | H];
    apply assign_In in H as (it & Hin & -> & ->);
    apply sort_by_In in Hin; apply filter_In in Hin as [Hin _];
    apply (highlighted_keys_In p ORGAN_KEYS); exact Hin.
Qed.

(** The organ of a label of the plan has a position. *)
Lemma adjustedPositions_resolved (p : props) (e : Curved.entry) :
  In e (Curved.adjustedPositions p) ->
  markerPositions p (Curved.organKey e) = Some (Curved.originalPosition e).
Proof.
  apply (PlanFacts.plan_entry p
           (fun e => markerPositions p (Curved.organKey e)
                     = Some (Curved.originalPosition e))).
  - intros e0 y H. exact H.
  - intros k e0 E. apply PlanFacts.collect_one_entry in E.
    destruct E as (_ & Hpos & -> & _). exact Hpos.
Qed.

(** A single label that fits is clamped by [resolveSide], nothing
    more. *)
Lemma resolveSide_single (e : Curved.entry) :
  Curved.labelHeight e <= Curved.availableHeight ->
  Curved.resolveSide_entries [e]
  = [Curved.set_labelY
       (Curved.clampCenterWithHeight (Curved.top_of e) (Curved.labelHeight e)) e].
Proof.
  intros Hh.
  pose proof (CurvedFacts.clamp_range (Curved.top_of e) (Curved.labelHeight e) Hh)
    as [H1 H2].
  unfold Curved.resolveSide_entries.
  cbn [Curved.initial_clamp map Curved.applyForwardSpacing Curved.forward_from].
  set (y0 := Curved.clampCenterWithHeight _ _) in *.
  set (e0 := Curved.set_labelY y0 e).
  unfold Curved.overflow_block. cbn [rev app].
  destruct (NumFacts.ltb_cases Curved.MAX_BOUND (Curved.bottom_of e0))
    as [[H _] | [_ ->]].
  { exfalso. subst e0. CurvedFacts.unfold_geometry. qlra. }
  unfold Curved.underflow_block.
  destruct (NumFacts.ltb_cases (Curved.topEdge_of e0) Curved.MIN_BOUND)
    as [[H _] | [_ ->]].
  { exfalso. subst e0. CurvedFacts.unfold_geometry. qlra. }
  cbn [Curved.final_clamp map]. f_equal.
  change (Curved.y_of e0) with y0.
  change (Curved.labelHeight e0) with (Curved.labelHeight e).
  rewrite CurvedFacts.clamp_inside; [reflexivity | qlra | qlra].
Qed.

(** A single card is clamped by [adjustSide], nothing more. *)
Lemma adjustSide_single (it : Grid.item) (colX : Q) (isRight : bool) :
  exists c,
    Grid.adjustSide [it] colX isRight
    = [Grid.mkAssignment (Grid.organKey it) (Grid.item_position it)
         isRight colX c]
    /\ c == Grid.clampCenter (Grid.item_top it).
Proof.
  pose proof (GridFacts.clampCenter_range (Grid.item_top it)) as [H1 H2].
  exists (Num.max (Grid.clampCenter (Grid.item_top it)) Grid.minCenter).
  assert (Num.max (Grid.clampCenter (Grid.item_top it)) Grid.minCenter
          == Grid.clampCenter (Grid.item_top it)) as Hc
    by (unfold Num.max; num_cases; lra).
  split; [|exact Hc].
  unfold Grid.adjustSide, Grid.side_centers.
  cbn [sort_by sort_insert Grid.forward_centers].
  unfold Grid.overflow_block. cbn [rev app].
  set (c0 := Num.max _ _) in *.
  destruct (NumFacts.ltb_cases Grid.maxCenter c0) as [[H _] | [_ ->]];
    [lra | reflexivity].
Qed.

End DegenerateFacts.



(** ** Connector paths *)

(** C9, as stated, fails on the elbow: the first segment leaves the
    anchor horizontally, at the height of the card, and is not
    vertical. *)
Lemma elbow_counterexample :
  exists a,
    In a (Grid.gridPositions Sample.level_pair None)
    /\ ~ PathSpec.vertical_first (PathSpec.elbow_of a)
    /\ PathSpec.horizontal_first (PathSpec.elbow_of a).
Proof.
  eexists. split; [left; vm_compute; reflexivity|].
  split.
  - unfold PathSpec.vertical_first. simpl. intros H.
    apply Qeq_bool_iff in H. vm_compute in H. discriminate.
  - unfold PathSpec.horizontal_first. simpl. q_decide.
Qed.

(** C9, amended.  In the curved variant the path of a label of the plan
    starts at the source point and ends at the label, whose x is the
    source x minus 36 on the right side and plus 36 on the left side and
    whose y is the solved label center; it is a quadratic curve whose
    control point is the midpoint of the two ends moved by 8
    horizontally towards the label.  In the elbow variant the path of a
    card of the plan starts at the anchor, the column x of the side and
    the solved center, runs horizontally to the x midway between anchor
    and source, and from there straight to the source point. *)
Theorem connector_shape :
  (forall (p : props) (e : Curved.entry),
     In e (Curved.adjustedPositions p) ->
     let c := PathSpec.curve_of e in
     let source := Curved.originalPosition e in
     Curved.q_startX c = left source /\ Curved.q_startY c = top source
     /\ Curved.q_endY c = Curved.y_of e
     /\ Curved.q_endX c
        = (if Curved.isRightSide e then left source - 36 else left source + 36)
     /\ Curved.q_controlY c == (Curved.q_startY c + Curved.q_endY c) / 2
     /\ Curved.q_controlX c
        == (Curved.q_startX c + Curved.q_endX c) / 2
           + (if Curved.isRightSide e then - (8) else 8))
  /\ (forall (p : props) (cols : option Grid.ColumnPositionOverrides)
             (a : Grid.assignment),
        In a (Grid.gridPositions p cols) ->
        let c := PathSpec.elbow_of a in
        let source := Grid.organPosition a in
        Grid.e_startX c = Grid.columnX a /\ Grid.e_startY c = Grid.rowY a
        /\ Grid.columnX a
           = (if Grid.isRightSide a then Grid.rightColumnX cols
              else Grid.leftColumnX cols)
        /\ PathSpec.horizontal_first c
        /\ Grid.e_midX c = (left source + Grid.columnX a) / 2
        /\ Grid.e_endX c = left source /\ Grid.e_endY c = top source).
Proof.
  split.
  - intros p e He c source.
    assert (Curved.a_left (Curved.adjustedPosition e) = left source
            /\ Curved.a_top (Curved.adjustedPosition e) = top source
            /\ Curved.labelX (Curved.adjustedPosition e)
               = (if Curved.isRightSide e then left source - 36
                  else left source + 36)) as (Hl & Ht & Hx).
    { revert e He c source. cbv zeta.
      apply (PlanFacts.plan_entry p
               (fun e =>
                  Curved.a_left (Curved.adjustedPosition e)
                  = left (Curved.originalPosition e)
                  /\ Curved.a_top (Curved.adjustedPosition e)
                     = top (Curved.originalPosition e)
                  /\ Curved.labelX (Curved.adjustedPosition e)
                     = (if Curved.isRightSide e
                        then left (Curved.originalPosition e) - 36
                        else left (Curved.originalPosition e) + 36))).
      - intros e0 y H. exact H.
      - intros k e0 E. apply PlanFacts.collect_one_entry in E.
        destruct E as (_ & _ & _ & H1 & H2 & _ & H3 & _).
        repeat split; assumption. }
    subst c. unfold PathSpec.curve_of, Curved.connector.
    cbn [Curved.q_startX Curved.q_startY Curved.q_endX Curved.q_endY
         Curved.q_controlX Curved.q_controlY].
    rewrite Hl, Ht, Hx.
    repeat split; reflexivity.
  - intros p cols a Ha c source.
    assert (Grid.columnX a
            = (if Grid.isRightSide a then Grid.rightColumnX cols
               else Grid.leftColumnX cols)) as Hcol.
    { unfold Grid.gridPositions in Ha.
      apply in_app_or in Ha as [Ha | Ha];
        apply GridFacts.assign_side in Ha as [-> ->]; reflexivity. }
    subst c. unfold PathSpec.elbow_of, PathSpec.horizontal_first,
      Grid.pathCommand.
    cbn [Grid.e_startX Grid.e_startY Grid.e_midX Grid.e_midY Grid.e_endX
         Grid.e_endY].
    repeat split; try reflexivity. exact Hcol.
Qed.

Lemma connector_shape_witness :
  (exists e, In e (Curved.adjustedPositions (Sample.one_region 50))
             /\ Curved.q_controlX (PathSpec.curve_of e) == 66)
  /\ (exists a, In a (Grid.gridPositions Sample.level_pair None)
                /\ PathSpec.horizontal_first (PathSpec.elbow_of a)).
Proof.
  destruct connector_shape as (Hcurve & Helbow).
  split.
  - eexists. split; [left; vm_compute; reflexivity|].
    match goal with
    | |- context [PathSpec.curve_of ?e] =>
        destruct (Hcurve (Sample.one_region 50) e) as (_ & _ & _ & _ & _ & H)
    end.
    + left. vm_compute. reflexivity.
    + rewrite H. q_decide.
  - eexists. split; [left; vm_compute; reflexivity|].
    match goal with
    | |- context [PathSpec.elbow_of ?a] =>
        destruct (Helbow Sample.level_pair None a) as (_ & _ & _ & H & _)
    end.
    + left. vm_compute. reflexivity.
    + exact H.
Defined.

(** * Further properties of the code *)

(** ** Which organs are highlighted *)

Module HighlightFacts.
Import Highlight.

Lemma startsWith_spec (needle hay : JsText.jsstring) :
  startsWith needle hay = true <-> exists post, hay = needle ++ post.
Proof.
  revert hay. induction needle as [|n ns IH]; intros hay.
  - split; [intros _; exists hay; reflexivity | reflexivity].
  - destruct hay as [|h hs]; simpl.
    + split; [discriminate | intros [post H]; discriminate].
    + rewrite andb_true_iff, N.eqb_eq, IH. split.
      * intros [-> [post ->]]. exists post. reflexivity.
      * intros [post H]. injection H as -> ->. split; [reflexivity|].
        exists post. reflexivity.
Qed.

Lemma includes_spec (needle hay : JsText.jsstring) :
  includes needle hay = true <-> exists pre post, hay = pre ++ needle ++ post.
Proof.
  induction hay as [|h hs IH].
  - cbn [includes]. rewrite orb_false_r, startsWith_spec. split.
    + intros [post H]. exists [], post. exact H.
    + intros (pre & post & H). destruct pre; [|discriminate].
      exists post. exact H.
  - cbn [includes]. rewrite orb_true_iff, startsWith_spec, IH. split.
    + intros [[post H] | (pre & post & H)].
      * exists [], post. exact H.
      * exists (h :: pre), post. rewrite H. reflexivity.
    + intros (pre & post & H). destruct pre as [|p pre].
      * left. exists post. exact H.
      * right. injection H as -> ->. exists pre, post. reflexivity.
Qed.

Lemma includes_length (needle hay : JsText.jsstring) :
  includes needle hay = true -> (List.length needle <= List.length hay)%nat.
Proof.
  intros H. apply includes_spec in H as (pre & post & ->).
  rewrite !length_app. lia.
Qed.

End HighlightFacts.

(** X1.  An organ is highlighted exactly when one of the lower-cased
    names contains the organ key as a contiguous part.  The test is one
    way only: a name shorter than the key, such as a truncated or
    singular form of it, highlights nothing. *)
Theorem highlighted_iff_name_contains_key :
  (forall (names : list JsText.jsstring) (k : OrganKey),
     Highlight.isOrganHighlighted names k = true
     <-> exists name pre post,
           In name names /\ name = pre ++ Highlight.key_units k ++ post)
  /\ (forall (names : list JsText.jsstring) (k : OrganKey),
        (forall name, In name names ->
           (List.length name < List.length (Highlight.key_units k))%nat) ->
        Highlight.isOrganHighlighted names k = false).
Proof.
  split.
  - intros names k. unfold Highlight.isOrganHighlighted.
    rewrite existsb_exists. split.
    + intros (name & Hin & H).
      apply HighlightFacts.includes_spec in H as (pre & post & H).
      exists name, pre, post. split; assumption.
    + intros (name & pre & post & Hin & H). exists name. split; [exact Hin|].
      apply HighlightFacts.includes_spec. exists pre, post. exact H.
  - intros names k H. unfold Highlight.isOrganHighlighted.
    apply not_true_is_false. intros E.
    apply existsb_exists in E as (name & Hin & E).
    apply HighlightFacts.includes_length in E.
    specialize (H name Hin). lia.
Qed.

(** The name "lung" does not highlight the lungs. *)
Lemma highlighted_iff_name_contains_key_witness :
  Highlight.isOrganHighlighted [[108; 117; 110; 103]%N] lungs = false.
Proof.
  destruct highlighted_iff_name_contains_key as (_ & Hshort).
  apply Hshort. intros name [<- | []]. simpl. lia.
Defined.

(** X2.  No organ key is part of another organ key: a name that is
    exactly the key of an organ highlights this organ and no other. *)
Theorem key_highlights_its_organ_only (k k' : OrganKey) :
  Highlight.isOrganHighlighted [Highlight.key_units k] k' = true <-> k' = k.
Proof.
  split.
  - destruct k, k'; intros H; try reflexivity; vm_compute in H; discriminate.
  - intros ->. destruct k; reflexivity.
Qed.

(** ** The marker positions *)

Module MeasureFacts.
Import Measure.

Lemma or_else_nonzero (value fallback : Q) :
  ~ fallback == 0 -> ~ or_else value fallback == 0.
Proof.
  unfold or_else. intros Hf.
  destruct (Qeq_bool value 0) eqn:E; [exact Hf|].
  intros H. apply Qeq_bool_iff in H. congruence.
Qed.

Lemma viewBoxWidth_nonzero (s : svg) : ~ viewBoxWidth s == 0.
Proof.
  unfold viewBoxWidth. destruct (viewBox s) as [vb|].
  - apply or_else_nonzero. discriminate.
  - discriminate.
Qed.

Lemma viewBoxHeight_nonzero (s : svg) : ~ viewBoxHeight s == 0.
Proof.
  unfold viewBoxHeight. destruct (viewBox s) as [vb|].
  - apply or_else_nonzero. discriminate.
  - discriminate.
Qed.

Lemma or_else_positive (value fallback : Q) :
  0 < value -> or_else value fallback = value.
Proof.
  unfold or_else. intros H.
  destruct (Qeq_bool value 0) eqn:E; [|reflexivity].
  apply Qeq_bool_iff in E. lra.
Qed.

(** The percentage of a point of the segment [0, size]. *)
Lemma percent_range (a size : Q) :
  0 < size -> 0 <= a -> a <= size ->
  0 <= a / size * 100 /\ a / size * 100 <= 100.
Proof.
  intros Hs H0 H1.
  assert (0 <= a / size) as Hlo by (apply Qle_shift_div_l; lra).
  assert (a / size <= 1) as Hhi by (apply Qle_shift_div_r; lra).
  split; lra.
Qed.

End MeasureFacts.

(** X3.  The effect that measures the diagram never divides by zero: a
    missing or zero view box size is replaced by the size of
    [BODY_VIEWBOX].  An organ has a marker position exactly when the
    diagram is ready and its group is found, and the position of a
    group whose bounding box lies inside a view box of positive size is
    a pair of percentages between 0 and 100. *)
Theorem marker_positions_are_percentages :
  (forall s : Measure.svg,
     ~ Measure.viewBoxWidth s == 0 /\ ~ Measure.viewBoxHeight s == 0)
  /\ (forall (s : option Measure.svg) (k : OrganKey),
        Measure.markerPositions_of s k = None
        <-> s = None
            \/ exists s', s = Some s' /\ Measure.organGroup s' k = None)
  /\ (forall (s : Measure.svg) (vb bbox : Measure.rect) (k : OrganKey),
        Measure.viewBox s = Some vb ->
        Measure.organGroup s k = Some bbox ->
        0 < Measure.width vb -> 0 < Measure.height vb ->
        0 <= Measure.x bbox -> 0 <= Measure.width bbox ->
        Measure.x bbox + Measure.width bbox <= Measure.width vb ->
        0 <= Measure.y bbox -> 0 <= Measure.height bbox ->
        Measure.y bbox + Measure.height bbox <= Measure.height vb ->
        exists pos,
          Measure.markerPositions_of (Some s) k = Some pos
          /\ 0 <= left pos /\ left pos <= 100
          /\ 0 <= top pos /\ top pos <= 100).
Proof.
  split; [|split].
  - intros s. split;
      [apply MeasureFacts.viewBoxWidth_nonzero
      | apply MeasureFacts.viewBoxHeight_nonzero].
  - intros s k. unfold Measure.markerPositions_of. split.
    + destruct s as [s'|]; [|left; reflexivity].
      destruct (Measure.organGroup s' k) eqn:E; [discriminate|].
      intros _. right. exists s'. split; [reflexivity | exact E].
    + intros [-> | (s' & -> & ->)]; reflexivity.
  - intros s vb bbox k Hvb Hg Hw Hh Hx Hbw Hxw Hy Hbh Hyh.
    exists (Measure.center_percent s bbox).
    split; [unfold Measure.markerPositions_of; rewrite Hg; reflexivity|].
    unfold Measure.center_percent, Measure.viewBoxWidth, Measure.viewBoxHeight.
    rewrite Hvb.
    rewrite (MeasureFacts.or_else_positive _ _ Hw),
            (MeasureFacts.or_else_positive _ _ Hh).
    cbn [left top].
    assert (Measure.width bbox / 2 == Measure.width bbox * (1 # 2)) as Ew
      by reflexivity.
    assert (Measure.height bbox / 2 == Measure.height bbox * (1 # 2)) as Eh
      by reflexivity.
    destruct (MeasureFacts.percent_range
                (Measure.x bbox + Measure.width bbox / 2) (Measure.width vb))
      as [H1 H2]; [lra | lra | lra |].
    destruct (MeasureFacts.percent_range
                (Measure.y bbox + Measure.height bbox / 2) (Measure.height vb))
      as [H3 H4]; [lra | lra | lra |].
    repeat split; assumption.
Qed.

Lemma marker_positions_are_percentages_witness :
  exists pos,
    Measure.markerPositions_of (Some SampleDiagram.diagram) heart = Some pos
    /\ 0 <= left pos /\ left pos <= 100
    /\ 0 <= top pos /\ top pos <= 100.
Proof.
  destruct marker_positions_are_percentages as (_ & _ & H).
  apply (H SampleDiagram.diagram (Measure.mkRect 0 0 810 1000)
           (Measure.mkRect 300 200 100 80) heart);
    try reflexivity; simpl; q_decide.
Defined.

(** ** The compressed spacing of [resolveSide] *)

Module SpacingFacts.
Import Curved.

Lemma count_two (a b : entry) (t : list entry) : 2 <= count (a :: b :: t).
Proof.
  unfold count. rewrite <- (Zle_Qle 2). simpl List.length. lia.
Qed.

Lemma spacing_fits (l : list entry) :
  totalHeight l <= availableHeight -> spacing_of l = MIN_VERTICAL_SPACING.
Proof.
  intros H. unfold spacing_of.
  destruct (NumFacts.ltb_cases availableHeight (totalHeight l))
    as [[Hlt _] | [_ ->]]; [lra | reflexivity].
Qed.

(** The value of the spacing when the labels of at most one entry are
    too tall. *)
Lemma spacing_short (l : list entry) :
  (List.length l <= 1)%nat -> availableHeight < totalHeight l ->
  spacing_of l == 3 # 2.
Proof.
  intros Hn Hov. unfold spacing_of.
  destruct (NumFacts.ltb_cases availableHeight (totalHeight l))
    as [[_ ->] | [Hle _]]; [|lra].
  assert (count l <= 1) as Hc.
  { destruct l as [|a [|b t]]; [| |simpl in Hn; lia].
    - change (count []) with 0. lra.
    - change (count [a]) with 1. lra. }
  assert (totalHeight l == sum_heights l) as Ht.
  { unfold totalHeight, Num.max, MIN_VERTICAL_SPACING.
    destruct (NumFacts.leb_cases 0 (count l - 1)) as [[H ->] | [H ->]]; lra. }
  assert (Num.max 1 (count l - 1) = 1) as ->.
  { unfold Num.max.
    destruct (NumFacts.leb_cases 1 (count l - 1)) as [[H ->] | [H ->]];
      [exfalso; lra | reflexivity]. }
  rewrite Ht in Hov.
  assert ((availableHeight - sum_heights l) / 1
          == availableHeight - sum_heights l) as Ev by (field).
  unfold Num.max. num_cases; lra.
Qed.

(** The value of the spacing when two or more labels do not fit with the
    gap [MIN_VERTICAL_SPACING]. *)
Lemma spacing_compressed (a b : entry) (t : list entry) :
  let l := a :: b :: t in
  availableHeight < totalHeight l ->
  spacing_of l < MIN_VERTICAL_SPACING
  /\ (spacing_of l == 3 # 2
      \/ sum_heights l + (count l - 1) * spacing_of l == availableHeight).
Proof.
  intros l Hov. unfold spacing_of.
  destruct (NumFacts.ltb_cases availableHeight (totalHeight l))
    as [[_ ->] | [Hle _]]; [|lra].
  pose proof (count_two a b t) as Hc. fold l in Hc.
  assert (Num.max 1 (count l - 1) = count l - 1) as ->.
  { unfold Num.max.
    destruct (NumFacts.leb_cases 1 (count l - 1)) as [[H ->] | [H ->]];
      [reflexivity | exfalso; lra]. }
  assert (totalHeight l
          == sum_heights l + (count l - 1) * MIN_VERTICAL_SPACING) as Ht.
  { unfold totalHeight, Num.max. num_cases; lra. }
  set (d := count l - 1) in *.
  set (v := (availableHeight - sum_heights l) / d).
  assert (0 < d) as Hd by (unfold d; lra).
  assert (v * d == availableHeight - sum_heights l) as Evd.
  { unfold v. field. lra. }
  assert (v < MIN_VERTICAL_SPACING) as Hv.
  { unfold v. apply Qlt_shift_div_r; [exact Hd|]. rewrite Ht in Hov. lra. }
  unfold Num.max, MIN_VERTICAL_SPACING in *. num_cases.
  - split; [exact Hv|]. right. lra.
  - split; [lra|]. left. reflexivity.
Qed.

End SpacingFacts.

(** X4.  The gap that [resolveSide] uses between the labels of a side is
    [MIN_VERTICAL_SPACING] = 6 when the labels fit between the bounds
    with it, and is compressed otherwise, never below 1.5 and never
    above 6.  The compressed gap lets the labels of a side of two or
    more fill the span between the bounds exactly, unless this would
    take a gap below 1.5. *)
Theorem spacing_is_compressed_within_limits :
  (forall l : list Curved.entry,
     3 # 2 <= Curved.spacing_of l
     /\ Curved.spacing_of l <= Curved.MIN_VERTICAL_SPACING)
  /\ (forall l : list Curved.entry,
        Curved.totalHeight l <= Curved.availableHeight ->
        Curved.spacing_of l = Curved.MIN_VERTICAL_SPACING)
  /\ (forall l : list Curved.entry,
        Curved.availableHeight < Curved.totalHeight l ->
        Curved.spacing_of l < Curved.MIN_VERTICAL_SPACING
        /\ (Curved.spacing_of l == 3 # 2
            \/ Curved.sum_heights l
               + (Curved.count l - 1) * Curved.spacing_of l
               == Curved.availableHeight)).
Proof.
  assert (forall l : list Curved.entry,
            Curved.availableHeight < Curved.totalHeight l ->
            Curved.spacing_of l < Curved.MIN_VERTICAL_SPACING
            /\ (Curved.spacing_of l == 3 # 2
                \/ Curved.sum_heights l
                   + (Curved.count l - 1) * Curved.spacing_of l
                   == Curved.availableHeight)) as Hover.
  { intros l Hov. destruct l as [|a [|b t]].
    - rewrite (SpacingFacts.spacing_short [] ltac:(simpl; lia) Hov).
      split; [reflexivity | left; reflexivity].
    - rewrite (SpacingFacts.spacing_short [a] ltac:(simpl; lia) Hov).
      split; [reflexivity | left; reflexivity].
    - apply SpacingFacts.spacing_compressed. exact Hov. }
  split; [|split; [exact SpacingFacts.spacing_fits | exact Hover]].
  intros l. split; [apply CurvedFacts.spacing_floor|].
  destruct (Qlt_le_dec Curved.availableHeight (Curved.totalHeight l)) as [H | H].
  - apply Qlt_le_weak. apply Hover. exact H.
  - rewrite (SpacingFacts.spacing_fits l H). apply Qle_refl.
Qed.

Lemma spacing_is_compressed_within_limits_witness :
  Curved.spacing_of Sample.low_triple = Curved.MIN_VERTICAL_SPACING
  /\ Curved.spacing_of SampleDiagram.tall_pair < Curved.MIN_VERTICAL_SPACING.
Proof.
  destruct spacing_is_compressed_within_limits as (_ & Hfit & Hover).
  split.
  - apply Hfit. q_decide.
  - apply Hover. q_decide.
Defined.

(** ** The clamp of a label center *)

(** X5.  [clampCenterWithHeight] returns a center whose label lies
    between the bounds and is idempotent when the label is not taller
    than the span between the bounds.  For a taller label it pins the
    top edge to [MIN_BOUND] or the bottom edge to [MAX_BOUND], and a
    second application always moves the label to the other bound: the
    clamp is idempotent exactly for the labels that fit. *)
Theorem clamp_idempotent_iff_fits (center height : Q) :
  (height <= Curved.availableHeight ->
   Curved.clampCenterWithHeight
     (Curved.clampCenterWithHeight center height) height
   = Curved.clampCenterWithHeight center height)
  /\ (Curved.availableHeight < height ->
      (Curved.clampCenterWithHeight center height
       = Curved.MIN_BOUND + height / 2
       \/ Curved.clampCenterWithHeight center height
          = Curved.MAX_BOUND - height / 2)
      /\ ~ Curved.clampCenterWithHeight
             (Curved.clampCenterWithHeight center height) height
           == Curved.clampCenterWithHeight center height).
Proof.
  split.
  - intros H.
    pose proof (CurvedFacts.clamp_range center height H) as [H1 H2].
    apply CurvedFacts.clamp_inside; lra.
  - intros H. unfold Curved.clampCenterWithHeight.
    unfold Curved.availableHeight, Curved.MIN_BOUND, Curved.MAX_BOUND in *.
    destruct (NumFacts.ltb_cases (center - height / 2) 8) as [[H1 ->] | [H1 ->]].
    + split; [left; reflexivity|].
      destruct (NumFacts.ltb_cases (8 + height / 2 - height / 2) 8)
        as [[H2 ->] | [H2 ->]]; [lra|].
      destruct (NumFacts.ltb_cases 92 (8 + height / 2 + height / 2))
        as [[H3 ->] | [H3 ->]]; qlra.
    + destruct (NumFacts.ltb_cases 92 (center + height / 2))
        as [[H2 ->] | [H2 ->]]; [|qlra].
      split; [right; reflexivity|].
      destruct (NumFacts.ltb_cases (92 - height / 2 - height / 2) 8)
        as [[H3 ->] | [H3 ->]]; qlra.
Qed.

Lemma clamp_idempotent_iff_fits_witness :
  Curved.clampCenterWithHeight (Curved.clampCenterWithHeight 95 (13 # 2)) (13 # 2)
  = Curved.clampCenterWithHeight 95 (13 # 2)
  /\ ~ Curved.clampCenterWithHeight (Curved.clampCenterWithHeight 50 100) 100
       == Curved.clampCenterWithHeight 50 100.
Proof.
  split.
  - apply (clamp_idempotent_iff_fits 95 (13 # 2)). q_decide.
  - apply (clamp_idempotent_iff_fits 50 100). q_decide.
Defined.

(** ** The entries of a plan *)

Module EntriesFacts.

Lemma collect_keys_keys (p : props) (ks : list OrganKey) :
  map Curved.organKey (Curved.collect_keys p ks) = filter (active p) ks.
Proof.
  induction ks as [|k r IH]; [reflexivity|].
  cbn [Curved.collect_keys filter].
  unfold Curved.collect_one at 1, active at 1.
  destruct (isOrganHighlighted p k); simpl; [|exact IH].
  destruct (markerPositions p k); simpl; [|exact IH].
  rewrite IH. reflexivity.
Qed.

Lemma write_back_keys (solved positions : list Curved.entry) :
  map Curved.organKey (Curved.write_back solved positions)
  = map Curved.organKey positions.
Proof.
  unfold Curved.write_back. rewrite map_map. apply map_ext_in.
  intros e _. destruct (find _ solved) as [s|] eqn:E; [|reflexivity].
  apply find_some in E as [_ E]. apply OrganKey_eqb_eq. exact E.
Qed.

Lemma resolveSide_keys (isRight : bool) (positions : list Curved.entry) :
  map Curved.organKey (Curved.resolveSide isRight positions)
  = map Curved.organKey positions.
Proof.
  unfold Curved.resolveSide.
  destruct (Curved.side_entries isRight positions); [reflexivity|].
  apply write_back_keys.
Qed.

Lemma adjustedPositions_keys (p : props) :
  map Curved.organKey (Curved.adjustedPositions p)
  = filter (active p) ORGAN_KEYS.
Proof.
  unfold Curved.adjustedPositions. rewrite map_map.
  change (map (fun e => Curved.organKey (Curved.decollide e)))
    with (map Curved.organKey).
  rewrite !resolveSide_keys. apply collect_keys_keys.
Qed.

Lemma ORGAN_KEYS_NoDup : NoDup ORGAN_KEYS.
Proof.
  unfold ORGAN_KEYS.
  repeat (constructor; [simpl; intuition discriminate|]). constructor.
Qed.

Lemma highlighted_keys_keys (p : props) (ks : list OrganKey) :
  map Grid.organKey (Grid.highlighted_keys p ks) = filter (active p) ks.
Proof.
  induction ks as [|k r IH]; [reflexivity|].
  cbn [Grid.highlighted_keys filter]. unfold active at 1.
  destruct (isOrganHighlighted p k); simpl; [|exact IH].
  destruct (markerPositions p k); simpl; [|exact IH].
  rewrite IH. reflexivity.
Qed.

Section SortPermutation.
Context {A : Type} (key : A -> Q).

Lemma sort_insert_perm (e : A) (l : list A) :
  Permutation (sort_insert key e l) (e :: l).
Proof.
  induction l as [|x r IH]; [apply Permutation_refl|].
  cbn [sort_insert]. destruct (Num.leb (key e) (key x)).
  - apply Permutation_refl.
  - apply perm_trans with (x :: e :: r).
    + apply perm_skip. exact IH.
    + apply perm_swap.
Qed.

(** The sort rearranges the array, nothing more. *)
Lemma sort_by_perm (l : list A) : Permutation (sort_by key l) l.
Proof.
  induction l as [|e r IH]; [apply Permutation_refl|].
  cbn [sort_by]. apply perm_trans with (e :: sort_by key r).
  - apply sort_insert_perm.
  - apply perm_skip. exact IH.
Qed.
End SortPermutation.

(** The two filters of [gridPositions] split the items. *)
Lemma left_right_split (l : list Grid.item) :
  Permutation
    (filter (fun it => Num.leb (left (Grid.item_position it)) 50) l
     ++ filter (fun it => Num.ltb 50 (left (Grid.item_position it))) l)
    l.
Proof.
  induction l as [|it r IH]; [apply Permutation_refl|].
  cbn [filter].
  destruct (NumFacts.leb_cases (left (Grid.item_position it)) 50)
    as [[H ->] | [H ->]];
    destruct (NumFacts.ltb_cases 50 (left (Grid.item_position it)))
      as [[H' ->] | [H' ->]]; try lra.
  - cbn [app]. apply perm_skip. exact IH.
  - apply Permutation_sym. apply Permutation_cons_app.
    apply Permutation_sym. exact IH.
Qed.

Lemma assign_keys (colX : Q) (isRight : bool) (items : list Grid.item) :
  forall centers : list Q,
    List.length centers = List.length items ->
    map Grid.a_organKey (Grid.assign colX isRight items centers)
    = map Grid.organKey items.
Proof.
  induction items as [|it r IH]; intros centers H; [reflexivity|].
  destruct centers as [|c cs]; [discriminate|].
  cbn [Grid.assign map]. rewrite IH; [reflexivity|].
  simpl in H. congruence.
Qed.

Lemma adjustSide_keys (items : list Grid.item) (colX : Q) (isRight : bool) :
  Permutation (map Grid.a_organKey (Grid.adjustSide items colX isRight))
    (map Grid.organKey items).
Proof.
  unfold Grid.adjustSide.
  rewrite assign_keys by apply GridFacts.side_centers_length.
  apply Permutation_map. apply sort_by_perm.
Qed.

Lemma gridPositions_keys (p : props)
  (cols : option Grid.ColumnPositionOverrides) :
  Permutation (map Grid.a_organKey (Grid.gridPositions p cols))
    (filter (active p) ORGAN_KEYS).
Proof.
  unfold Grid.gridPositions. rewrite map_app.
  rewrite <- (highlighted_keys_keys p ORGAN_KEYS).
  fold (Grid.highlighted p).
  apply perm_trans with
    (map Grid.organKey
       (filter (fun it => Num.leb (left (Grid.item_position it)) 50)
          (Grid.highlighted p)
        ++ filter (fun it => Num.ltb 50 (left (Grid.item_position it)))
             (Grid.highlighted p))).
  - rewrite map_app. apply Permutation_app; apply adjustSide_keys.
  - apply Permutation_map. apply left_right_split.
Qed.

End EntriesFacts.

(** X6.  The plan of the curved variant has exactly one entry for each
    organ that is highlighted and has a marker position, in the order of
    the organ keys; each entry carries the marker position of its organ
    and the height estimated from the detail text of its organ. *)
Theorem curved_plan_entries (p : props) :
  map Curved.organKey (Curved.adjustedPositions p)
  = filter (active p) ORGAN_KEYS
  /\ NoDup (map Curved.organKey (Curved.adjustedPositions p))
  /\ (forall e, In e (Curved.adjustedPositions p) ->
        markerPositions p (Curved.organKey e)
        = Some (Curved.originalPosition e)
        /\ Curved.labelHeight e
           = Curved.estimateLabelHeight (getOrganDetail p (Curved.organKey e))).
Proof.
  split; [apply EntriesFacts.adjustedPositions_keys|].
  split.
  - rewrite EntriesFacts.adjustedPositions_keys.
    apply NoDup_filter. apply EntriesFacts.ORGAN_KEYS_NoDup.
  - apply (PlanFacts.plan_entry p
             (fun e =>
                markerPositions p (Curved.organKey e)
                = Some (Curved.originalPosition e)
                /\ Curved.labelHeight e
                   = Curved.estimateLabelHeight
                       (getOrganDetail p (Curved.organKey e)))).
    + intros e y H. exact H.
    + intros k e E. apply PlanFacts.collect_one_entry in E.
      destruct E as (_ & Hpos & -> & _ & _ & _ & _ & Hh).
      split; assumption.
Qed.

Lemma curved_plan_entries_witness :
  exists e,
    In e (Curved.adjustedPositions Sample.brain_only)
    /\ markerPositions Sample.brain_only (Curved.organKey e)
       = Some (Curved.originalPosition e).
Proof.
  eexists. split; [left; vm_compute; reflexivity|].
  apply (curved_plan_entries Sample.brain_only).
  left. vm_compute. reflexivity.
Defined.

(** X7.  The plan of the elbow variant has exactly one card for each
    organ that is highlighted and has a marker position: the organs of
    its cards are a rearrangement of these organs, without repetition,
    and each card carries the marker position of its organ.  The cards
    of the left column come first, then the cards of the right column;
    within a column the cards are in the order of their source y, from
    the top down, each row at least one [spacing] below the row before
    it. *)
Theorem grid_plan_entries (p : props)
  (cols : option Grid.ColumnPositionOverrides) :
  Permutation (map Grid.a_organKey (Grid.gridPositions p cols))
    (filter (active p) ORGAN_KEYS)
  /\ NoDup (map Grid.a_organKey (Grid.gridPositions p cols))
  /\ (forall k, In k (map Grid.a_organKey (Grid.gridPositions p cols))
                <-> active p k = true)
  /\ (forall a, In a (Grid.gridPositions p cols) ->
        markerPositions p (Grid.a_organKey a) = Some (Grid.organPosition a))
  /\ (exists L R : list Grid.assignment,
        Grid.gridPositions p cols = L ++ R
        /\ Forall (fun a => Grid.isRightSide a = false
                            /\ Grid.columnX a = Grid.leftColumnX cols) L
        /\ Forall (fun a => Grid.isRightSide a = true
                            /\ Grid.columnX a = Grid.rightColumnX cols) R
        /\ chain GridSpec.above L
        /\ chain GridSpec.above R).
Proof.
  pose proof (EntriesFacts.gridPositions_keys p cols) as Hperm.
  split; [exact Hperm|].
  split; [|split; [|split]].
  - apply (Permutation_NoDup (Permutation_sym Hperm)).
    apply NoDup_filter. apply EntriesFacts.ORGAN_KEYS_NoDup.
  - intros k. split.
    + intros H. apply (Permutation_in _ Hperm) in H.
      apply filter_In in H. tauto.
    + intros H. apply (Permutation_in _ (Permutation_sym Hperm)).
      apply filter_In. split; [destruct k; simpl; tauto | exact H].
  - intros a. apply DegenerateFacts.gridPositions_resolved.
  - unfold Grid.gridPositions. eexists. eexists.
    split; [reflexivity|].
    split; [|split; [|split]].
    + apply Forall_forall. intros a Ha.
      exact (GridFacts.assign_side _ _ _ _ a Ha).
    + apply Forall_forall. intros a Ha.
      exact (GridFacts.assign_side _ _ _ _ a Ha).
    + apply GridFacts.adjustSide_chain.
    + apply GridFacts.adjustSide_chain.
Qed.

Lemma grid_plan_entries_witness :
  exists a,
    In a (Grid.gridPositions Sample.low_regions None)
    /\ markerPositions Sample.low_regions (Grid.a_organKey a)
       = Some (Grid.organPosition a).
Proof.
  eexists. split; [left; vm_compute; reflexivity|].
  destruct (grid_plan_entries Sample.low_regions None)
    as (_ & _ & _ & Hpos & _).
  apply Hpos.
  left. vm_compute. reflexivity.
Defined.

(** X8.  The side of an entry is decided by the x of its marker alone:
    in the curved variant an entry is on the right side exactly when its
    marker is beyond 55, in the elbow variant exactly when it is beyond
    50; a marker on the threshold goes to the left side. *)
Theorem side_by_marker_x :
  (forall (p : props) (e : Curved.entry),
     In e (Curved.adjustedPositions p) ->
     (Curved.isRightSide e = true <-> 55 < left (Curved.originalPosition e)))
  /\ (forall (p : props) (cols : option Grid.ColumnPositionOverrides)
             (a : Grid.assignment),
        In a (Grid.gridPositions p cols) ->
        (Grid.isRightSide a = true <-> 50 < left (Grid.organPosition a))).
Proof.
  split.
  - intros p.
    apply (PlanFacts.plan_entry p
             (fun e => Curved.isRightSide e = true
                       <-> 55 < left (Curved.originalPosition e))).
    + intros e y H. exact H.
    + intros k e E. apply PlanFacts.collect_one_entry in E.
      destruct E as (_ & _ & _ & _ & _ & -> & _).
      destruct (NumFacts.ltb_cases 55 (left (Curved.originalPosition e)))
        as [[H ->] | [H ->]]; split; intros; try assumption;
        try reflexivity; try discriminate; lra.
  - intros p cols a Ha. unfold Grid.gridPositions, Grid.adjustSide in Ha.
    apply in_app_or in Ha as [Ha | Ha];
      pose proof (GridFacts.assign_side _ _ _ _ _ Ha) as [-> _];
      apply DegenerateFacts.assign_In in Ha as (it & Hin & _ & ->);
      apply sort_by_In in Hin; apply filter_In in Hin as [_ Hin].
    + destruct (NumFacts.leb_cases (left (Grid.item_position it)) 50)
        as [[H E] | [H E]]; [|congruence].
      split; [discriminate | lra].
    + destruct (NumFacts.ltb_cases 50 (left (Grid.item_position it)))
        as [[H E] | [H E]]; [|congruence].
      split; [intros _; exact H | reflexivity].
Qed.

Lemma side_by_marker_x_witness :
  exists a,
    In a (Grid.gridPositions Sample.low_regions None)
    /\ (Grid.isRightSide a = true <-> 50 < left (Grid.organPosition a)).
Proof.
  eexists. split; [left; vm_compute; reflexivity|].
  apply (proj2 side_by_marker_x Sample.low_regions None).
  left. vm_compute. reflexivity.
Defined.

(** ** The overflow block of [adjustSide] *)

Module PullUpFacts.
Import Grid GridSpec PullUpSpec.

Lemma forward_centers_pushed (prev : option Q) (items : list item) :
  chain low_or_pushed (forward_centers prev items)
  /\ (forall c, hd_error (forward_centers prev items) = Some c ->
        c <= maxCenter \/ exists q, prev = Some q /\ c = q + spacing).
Proof.
  revert prev. induction items as [|it r IH]; intros prev.
  - split; [exact I | discriminate].
  - cbn [forward_centers].
    set (preferred := clampCenter (item_top it)).
    set (minAllowed := match prev with None => minCenter | Some c => c + spacing end).
    set (c0 := Num.max preferred minAllowed).
    destruct (IH (Some c0)) as [IHc IHh].
    split.
    + apply chain_cons; [exact IHc|].
      intros b Hb. destruct (IHh b Hb) as [H | (q & Hq & H)].
      * left. exact H.
      * right. injection Hq as <-. exact H.
    + intros c Hc. simpl in Hc. injection Hc as <-.
      pose proof (GridFacts.clampCenter_range (item_top it)) as [_ Hp].
      fold preferred in Hp. unfold c0, Num.max.
      destruct (NumFacts.leb_cases preferred minAllowed) as [[H ->] | [H ->]].
      * destruct prev as [q|].
        -- right. exists q. split; reflexivity.
        -- left. unfold minAllowed, minCenter, maxCenter, halfHeight,
             topPadding, bottomPadding, cardHeight. qlra.
      * left. exact Hp.
Qed.

(** The loop leaves alone a center that is one [spacing] below its
    predecessor. *)
Lemma pull_up_pushed_head (o q : Q) (rest : list Q) :
  exists rest', pull_up o ((q + spacing) :: q :: rest) = (q + spacing) :: rest'.
Proof.
  cbn [pull_up]. destruct (Num.ltb 0 o); [|eexists; reflexivity].
  destruct (NumFacts.leb_cases (q + spacing - (q + spacing)) 0)
    as [[_ ->] | [H _]]; [eexists; reflexivity | lra].
Qed.

(** The overflow block never moves the last center. *)
Lemma overflow_block_last (prev : option Q) (items : list item) :
  prev = None ->
  hd_error (rev (overflow_block (forward_centers prev items)))
  = hd_error (rev (forward_centers prev items)).
Proof.
  intros Hprev. unfold overflow_block.
  destruct (forward_centers_pushed prev items) as [Hc Hh].
  apply (chain_rev low_or_pushed) in Hc.
  destruct (rev (forward_centers prev items)) as [|c rest] eqn:E;
    [rewrite E; reflexivity|].
  destruct (NumFacts.ltb_cases maxCenter c) as [[Hov ->] | [_ ->]];
    [|rewrite E; reflexivity].
  rewrite rev_involutive.
  destruct rest as [|q rest'].
  - exfalso.
    assert (forward_centers prev items = [c]) as E1.
    { rewrite <- (rev_involutive (forward_centers prev items)), E.
      reflexivity. }
    rewrite E1 in Hh. destruct (Hh c eq_refl) as [H | (q & Hq & _)];
      [lra | congruence].
  - destruct Hc as [[H | ->] _]; [lra|].
    destruct (pull_up_pushed_head (q + spacing - maxCenter) q rest')
      as (rest'' & ->).
    reflexivity.
Qed.

(** Below the last center of a gapped column nothing is higher. *)
Lemma gapped_below_last (c : Q) (rest : list Q) :
  chain (fun a b => gap_le b a) (c :: rest) -> Forall (fun x => x <= c) rest.
Proof.
  revert c. induction rest as [|q r IH]; intros c Hc; [constructor|].
  destruct Hc as [Hqc Hc]. unfold gap_le, spacing, cardHeight,
    minVerticalGap in Hqc.
  constructor; [lra|].
  specialize (IH q Hc). revert IH. apply Forall_impl. intros x Hx. lra.
Qed.

Lemma all_below_iff_last (cs : list Q) :
  chain gap_le cs ->
  (Forall (fun x => x <= maxCenter) cs
   <-> forall c, hd_error (rev cs) = Some c -> c <= maxCenter).
Proof.
  intros Hc. split.
  - intros H c E. rewrite Forall_forall in H. apply H.
    apply in_rev. destruct (rev cs); [discriminate|].
    injection E as ->. left. reflexivity.
  - intros H. apply (chain_rev gap_le) in Hc.
    rewrite <- (rev_involutive cs). apply Forall_rev.
    destruct (rev cs) as [|c rest]; [constructor|].
    specialize (H c eq_refl).
    constructor; [exact H|].
    pose proof (gapped_below_last c rest Hc) as Hb.
    revert Hb. apply Forall_impl. intros x Hx. lra.
Qed.

Lemma assign_rows (colX : Q) (isRight : bool) (items : list item) :
  forall centers : list Q,
    List.length centers = List.length items ->
    map rowY (assign colX isRight items centers) = centers.
Proof.
  induction items as [|it r IH]; intros centers H.
  - destruct centers; [reflexivity | discriminate].
  - destruct centers as [|c cs]; [discriminate|].
    cbn [assign map rowY]. rewrite IH; [reflexivity|].
    simpl in H. congruence.
Qed.

(** The centers of the cards of a side. *)
Lemma adjustSide_rows (items : list item) (colX : Q) (isRight : bool) :
  map rowY (adjustSide items colX isRight)
  = side_centers (sort_by item_top items).
Proof.
  unfold adjustSide. apply assign_rows. apply GridFacts.side_centers_length.
Qed.

(** The loop moves no center down. *)
Lemma pull_up_only_up (o : Q) (l : list Q) : Forall2 Qle (pull_up o l) l.
Proof.
  assert (forall l : list Q, Forall2 Qle l l) as Hrefl.
  { intros l0. induction l0; constructor; [apply Qle_refl | assumption]. }
  revert o. induction l as [|c before IH]; intros o; [constructor|].
  cbn [pull_up]. destruct (Num.ltb 0 o) eqn:Ho; [|apply Hrefl].
  destruct (NumFacts.leb_cases
              (c - match before with [] => minCenter | p :: _ => p + spacing end)
              0) as [[_ ->] | [Ha ->]].
  - constructor; [apply Qle_refl | apply IH].
  - constructor; [|apply IH].
    destruct (NumFacts.ltb_cases 0 o) as [[Hpos _] | [_ E]]; [|congruence].
    unfold Num.min. num_cases; lra.
Qed.

Lemma Forall2_reversed (l l' : list Q) :
  Forall2 Qle l l' -> Forall2 Qle (rev l) (rev l').
Proof.
  induction 1 as [|a b l l' Hab H IH]; [constructor|].
  simpl. apply Forall2_app; [exact IH|].
  constructor; [exact Hab | constructor].
Qed.

Lemma overflow_block_only_up (centers : list Q) :
  Forall2 Qle (overflow_block centers) centers.
Proof.
  assert (forall l : list Q, Forall2 Qle l l) as Hrefl.
  { intros l0. induction l0; constructor; [apply Qle_refl | assumption]. }
  unfold overflow_block.
  destruct (rev centers) as [|last r] eqn:E; [apply Hrefl|].
  destruct (Num.ltb maxCenter last); [|apply Hrefl].
  assert (centers = rev (last :: r)) as ->
    by (rewrite <- E, rev_involutive; reflexivity).
  apply Forall2_reversed. apply pull_up_only_up.
Qed.

End PullUpFacts.

(** The lowest card keeps the center of the forward pass, so the cards
    of a side are all at or above [maxCenter] exactly when the forward
    pass left them there. *)
Lemma grid_overflow_never_repaired_aux (items : list Grid.item) (colX : Q)
  (isRight : bool) :
  Forall (fun a => Grid.rowY a <= Grid.maxCenter)
    (Grid.adjustSide items colX isRight)
  <-> Forall (fun c => c <= Grid.maxCenter)
        (Grid.forward_centers None (sort_by Grid.item_top items)).
Proof.
  rewrite <- (Forall_map Grid.rowY (fun c => c <= Grid.maxCenter)).
  rewrite PullUpFacts.adjustSide_rows. unfold Grid.side_centers.
  set (fwd := Grid.forward_centers None (sort_by Grid.item_top items)).
  assert (hd_error (rev (Grid.overflow_block fwd)) = hd_error (rev fwd)) as Hl
    by (apply PullUpFacts.overflow_block_last; reflexivity).
  rewrite (PullUpFacts.all_below_iff_last (Grid.overflow_block fwd)),
          (PullUpFacts.all_below_iff_last fwd).
  - rewrite Hl. tauto.
  - apply GridFacts.forward_centers_gapped.
  - apply GridFacts.overflow_block_gapped, GridFacts.forward_centers_gapped.
Qed.

(** X9.  In [adjustSide] the overflow block never moves the lowest card:
    its final center is the center that the forward pass gave it.  So
    the block never brings a column back below [maxCenter]: all cards of
    a side end at or above [maxCenter] exactly when the forward pass
    already left them there. *)
Theorem grid_overflow_never_repaired (items : list Grid.item) (colX : Q)
  (isRight : bool) :
  hd_error (rev (map Grid.rowY (Grid.adjustSide items colX isRight)))
  = hd_error (rev (Grid.forward_centers None (sort_by Grid.item_top items)))
  /\ (Forall (fun a => Grid.rowY a <= Grid.maxCenter)
        (Grid.adjustSide items colX isRight)
      <-> Forall (fun c => c <= Grid.maxCenter)
            (Grid.forward_centers None (sort_by Grid.item_top items))).
Proof.
  rewrite <- (Forall_map Grid.rowY (fun c => c <= Grid.maxCenter)).
  rewrite PullUpFacts.adjustSide_rows. unfold Grid.side_centers.
  set (fwd := Grid.forward_centers None (sort_by Grid.item_top items)).
  assert (hd_error (rev (Grid.overflow_block fwd)) = hd_error (rev fwd)) as Hl
    by (apply PullUpFacts.overflow_block_last; reflexivity).
  split; [exact Hl|].
  rewrite (PullUpFacts.all_below_iff_last (Grid.overflow_block fwd)),
          (PullUpFacts.all_below_iff_last fwd).
  - rewrite Hl. tauto.
  - apply GridFacts.forward_centers_gapped.
  - apply GridFacts.overflow_block_gapped, GridFacts.forward_centers_gapped.
Qed.

(** X10.  In the plan of the elbow variant no card is above the top
    bound: every center is at least [minCenter], so that the card starts
    at or below [topPadding].  The overflow block moves cards up only:
    no final center is below the center of the forward pass. *)
Theorem grid_top_bound_and_moves_up :
  (forall (p : props) (cols : option Grid.ColumnPositionOverrides)
          (a : Grid.assignment),
     In a (Grid.gridPositions p cols) ->
     Grid.minCenter <= Grid.rowY a
     /\ GridSpec.minBound <= Grid.rowY a - Grid.halfHeight)
  /\ (forall (items : list Grid.item) (colX : Q) (isRight : bool),
        Forall2 Qle
          (map Grid.rowY (Grid.adjustSide items colX isRight))
          (Grid.forward_centers None (sort_by Grid.item_top items))).
Proof.
  split.
  - intros p cols a Ha.
    assert (Grid.minCenter <= Grid.rowY a) as H.
    { unfold Grid.gridPositions in Ha.
      apply in_app_or in Ha as [Ha | Ha];
        apply (in_map Grid.rowY) in Ha;
        rewrite PullUpFacts.adjustSide_rows in Ha;
        match type of Ha with
        | In _ (Grid.side_centers ?l) =>
            pose proof (GridFacts.side_centers_min l) as Hm
        end;
        rewrite Forall_forall in Hm; apply Hm; exact Ha. }
    split; [exact H|].
    unfold GridSpec.minBound, Grid.minCenter in *. lra.
  - intros items colX isRight. rewrite PullUpFacts.adjustSide_rows.
    apply PullUpFacts.overflow_block_only_up.
Qed.

Lemma grid_top_bound_and_moves_up_witness :
  exists a,
    In a (Grid.gridPositions Sample.low_regions None)
    /\ Grid.minCenter <= Grid.rowY a.
Proof.
  eexists. split; [left; vm_compute; reflexivity|].
  apply (proj1 grid_top_bound_and_moves_up Sample.low_regions None).
  left. vm_compute. reflexivity.
Defined.

(** ** The two sides of the curved variant *)

Module SideFacts.
Import Curved SideSpec.

Lemma frame_set (y : Q) (e : entry) : frame (set_labelY y e) = frame e.
Proof. reflexivity. Qed.

Lemma frame_key (a b : entry) : frame a = frame b -> organKey a = organKey b.
Proof. intros H. apply (f_equal organKey) in H. exact H. Qed.

Lemma frame_side (a b : entry) :
  frame a = frame b -> isRightSide a = isRightSide b.
Proof. intros H. apply (f_equal isRightSide) in H. exact H. Qed.

Lemma frame_forward_from (sp : Q) (prev : entry) (l : list entry) :
  map frame (forward_from sp prev l) = map frame l.
Proof.
  revert prev. induction l as [|c r IH]; intros prev; [reflexivity|].
  cbn [forward_from map]. rewrite IH. f_equal.
  unfold forward_step. destruct (Num.ltb _ sp); reflexivity.
Qed.

Lemma frame_backward_from (sp : Q) (next : entry) (l : list entry) :
  map frame (backward_from sp next l) = map frame l.
Proof.
  revert next. induction l as [|c r IH]; intros next; [reflexivity|].
  cbn [backward_from map]. rewrite IH. f_equal.
  unfold backward_step. destruct (Num.ltb _ sp); reflexivity.
Qed.

Lemma frame_forward (sp : Q) (l : list entry) :
  map frame (applyForwardSpacing sp l) = map frame l.
Proof.
  destruct l as [|f r]; [reflexivity|].
  cbn [applyForwardSpacing map]. rewrite frame_forward_from. reflexivity.
Qed.

Lemma frame_backward (sp : Q) (l : list entry) :
  map frame (applyBackwardSpacing sp l) = map frame l.
Proof.
  unfold applyBackwardSpacing.
  destruct (rev l) as [|x r] eqn:E.
  - destruct l as [|a t]; [reflexivity|].
    apply (f_equal (@List.length entry)) in E.
    rewrite length_rev in E. discriminate.
  - rewrite map_rev. cbn [map]. rewrite frame_backward_from.
    change (frame x :: map frame r) with (map frame (x :: r)).
    rewrite <- E, <- map_rev, rev_involutive. reflexivity.
Qed.

Lemma frame_map_set (f : entry -> Q) (l : list entry) :
  map frame (map (fun e => set_labelY (f e) e) l) = map frame l.
Proof. rewrite map_map. apply map_ext. intros e. reflexivity. Qed.

Lemma frame_shift (d : Q) (l : list entry) :
  map frame (map (add_labelY d) l) = map frame l.
Proof. rewrite map_map. apply map_ext. intros e. reflexivity. Qed.

(** [resolveSide] changes the label centers of its entries, nothing
    else. *)
Lemma frame_resolveSide_entries (l : list entry) :
  map frame (resolveSide_entries l) = map frame l.
Proof.
  unfold resolveSide_entries, final_clamp, initial_clamp.
  rewrite frame_map_set.
  set (sp := spacing_of l).
  set (s0 := map _ l).
  assert (map frame s0 = map frame l) as H0 by apply frame_map_set.
  assert (map frame (overflow_block sp (applyForwardSpacing sp s0))
          = map frame l) as H2.
  { unfold overflow_block.
    destruct (rev (applyForwardSpacing sp s0)) as [|x r].
    - rewrite frame_forward. exact H0.
    - destruct (Num.ltb MAX_BOUND (bottom_of x)).
      + rewrite frame_backward, frame_shift, frame_forward. exact H0.
      + rewrite frame_forward. exact H0. }
  unfold underflow_block.
  destruct (overflow_block sp (applyForwardSpacing sp s0)) as [|f r];
    [exact H2|].
  destruct (Num.ltb (topEdge_of f) MIN_BOUND); [|exact H2].
  rewrite frame_forward, frame_shift. exact H2.
Qed.

Lemma In_frame (e : entry) (l l' : list entry) :
  map frame l = map frame l' -> In e l ->
  exists e', In e' l' /\ frame e' = frame e.
Proof.
  intros H He. apply (in_map frame) in He. rewrite H in He.
  apply in_map_iff in He as (e' & Hf & He'). exists e'. split; assumption.
Qed.

Lemma keys_inj (l : list entry) (a b : entry) :
  NoDup (map organKey l) -> In a l -> In b l ->
  organKey a = organKey b -> a = b.
Proof.
  induction l as [|x r IH]; intros Hnd Ha Hb Hk; [contradiction|].
  cbn [map] in Hnd. apply NoDup_cons_iff in Hnd as [Hx Hnd].
  destruct Ha as [-> | Ha], Hb as [-> | Hb].
  - reflexivity.
  - exfalso. apply Hx. rewrite Hk. apply in_map. exact Hb.
  - exfalso. apply Hx. rewrite <- Hk. apply in_map. exact Ha.
  - apply IH; assumption.
Qed.

Lemma side_entries_In (r : bool) (ps : list entry) (e : entry) :
  In e (side_entries r ps) <-> In e ps /\ isRightSide e = r.
Proof.
  unfold side_entries, sort_by_top. rewrite sort_by_In, filter_In.
  destruct (isRightSide e), r; simpl; intuition congruence.
Qed.

Lemma side_entries_keys (r : bool) (ps : list entry) :
  NoDup (map organKey ps) -> NoDup (map organKey (side_entries r ps)).
Proof.
  intros H. unfold side_entries, sort_by_top.
  apply (Permutation_NoDup
           (l := map organKey (filter (fun e => Bool.eqb (isRightSide e) r) ps))).
  - apply Permutation_map, Permutation_sym, EntriesFacts.sort_by_perm.
  - induction ps as [|x t IH]; [constructor|].
    cbn [map] in H. apply NoDup_cons_iff in H as [Hx H].
    cbn [filter]. destruct (Bool.eqb (isRightSide x) r); [|apply IH; exact H].
    cbn [map]. constructor; [|apply IH; exact H].
    intros Hin. apply Hx. apply in_map_iff in Hin as (y & Hy & Hin).
    apply filter_In in Hin as [Hin _]. rewrite <- Hy. apply in_map. exact Hin.
Qed.

Section WriteBack.
Variable r : bool.
Variable ps : list entry.
Hypothesis ps_keys : NoDup (map organKey ps).

Local Abbreviation side := (side_entries r ps).
Local Abbreviation solved := (resolveSide_entries (side_entries r ps)).
Local Abbreviation stored := (SideSpec.stored r ps).

Lemma solved_origin (s : entry) :
  In s solved -> exists e, In e ps /\ isRightSide e = r /\ frame s = frame e.
Proof.
  intros Hs.
  destruct (In_frame s solved side (frame_resolveSide_entries side) Hs)
    as (e & He & Hf).
  apply side_entries_In in He as [He Hr].
  exists e. repeat split; [exact He | exact Hr | symmetry; exact Hf].
Qed.

Lemma solved_side (s : entry) : In s solved -> isRightSide s = r.
Proof.
  intros Hs. destruct (solved_origin s Hs) as (e & _ & Hr & Hf).
  rewrite (frame_side s e Hf). exact Hr.
Qed.

Lemma solved_keys : NoDup (map organKey solved).
Proof.
  assert (map organKey solved = map organKey side) as ->.
  { pose proof (frame_resolveSide_entries side) as H.
    apply (f_equal (map organKey)) in H. rewrite !map_map in H. exact H. }
  apply side_entries_keys. exact ps_keys.
Qed.

Lemma stored_other_side (e : entry) :
  In e ps -> isRightSide e <> r -> stored e = e.
Proof.
  intros He Hr. unfold SideSpec.stored.
  destruct (find _ solved) as [s|] eqn:E; [|reflexivity].
  exfalso. apply find_some in E as [Hs Hk].
  apply OrganKey_eqb_eq in Hk.
  destruct (solved_origin s Hs) as (e' & He' & Hr' & Hf).
  apply Hr. rewrite <- Hr'. f_equal.
  apply (keys_inj ps e e' ps_keys He He').
  rewrite <- Hk. apply frame_key. exact Hf.
Qed.

Lemma stored_this_side (e : entry) :
  In e ps -> isRightSide e = r ->
  In (stored e) solved /\ frame (stored e) = frame e.
Proof.
  intros He Hr. unfold SideSpec.stored.
  assert (In e side) as Hside by (apply side_entries_In; split; assumption).
  destruct (In_frame e side solved
              (eq_sym (frame_resolveSide_entries side)) Hside)
    as (s & Hs & Hf).
  destruct (find _ solved) as [s'|] eqn:E.
  - apply find_some in E as [Hs' Hk]. apply OrganKey_eqb_eq in Hk.
    assert (s' = s) as ->.
    { apply (keys_inj solved s' s solved_keys Hs' Hs).
      rewrite Hk. symmetry. apply frame_key. exact Hf. }
    split; assumption.
  - exfalso. pose proof (find_none _ _ E s Hs) as Hn. cbv beta in Hn.
    rewrite (proj2 (OrganKey_eqb_eq _ _) (frame_key _ _ Hf)) in Hn.
    discriminate.
Qed.

Lemma resolveSide_stored : resolveSide r ps = map stored ps.
Proof.
  unfold resolveSide, SideSpec.stored.
  destruct side as [|x t] eqn:E; [|reflexivity].
  rewrite <- (map_id ps) at 1. apply map_ext_in.
  intros e He. reflexivity.
Qed.

(** After [resolveSide] on the side [r], [positions] holds the solved
    entries of this side and the untouched entries of the other side. *)
Lemma resolveSide_In (q : entry) :
  In q (resolveSide r ps)
  <-> In q solved \/ (In q ps /\ isRightSide q <> r).
Proof.
  rewrite resolveSide_stored, in_map_iff. split.
  - intros (e & <- & He).
    destruct (bool_dec (isRightSide e) r) as [Hr | Hr].
    + left. apply stored_this_side; assumption.
    + right. rewrite (stored_other_side e He Hr). split; assumption.
  - intros [Hs | [Hq Hr]].
    + destruct (solved_origin q Hs) as (e & He & Hr & Hf).
      exists e. split; [|exact He].
      destruct (stored_this_side e He Hr) as [Hin Hf'].
      apply (keys_inj solved _ _ solved_keys Hin Hs).
      rewrite (frame_key _ _ Hf'), (frame_key _ _ Hf). reflexivity.
    + exists q. split; [apply stored_other_side|]; assumption.
Qed.

(** The entries of the other side stay where they are. *)
Lemma resolveSide_other_side (r' : bool) :
  r' <> r ->
  filter (fun e => Bool.eqb (isRightSide e) r') (resolveSide r ps)
  = filter (fun e => Bool.eqb (isRightSide e) r') ps.
Proof.
  intros Hr'. rewrite resolveSide_stored.
  assert (forall l, incl l ps ->
            filter (fun e => Bool.eqb (isRightSide e) r') (map stored l)
            = filter (fun e => Bool.eqb (isRightSide e) r') l) as H.
  { induction l as [|e t IH]; intros Hincl; [reflexivity|].
    assert (In e ps) as He by (apply Hincl; left; reflexivity).
    assert (incl t ps) as Ht by (intros z Hz; apply Hincl; right; exact Hz).
    cbn [map filter]. rewrite (IH Ht).
    destruct (bool_dec (isRightSide e) r) as [Hr | Hr].
    - destruct (stored_this_side e He Hr) as [_ Hf].
      rewrite (frame_side _ _ Hf), Hr.
      destruct r, r'; simpl; try reflexivity; exfalso; apply Hr'; reflexivity.
    - rewrite (stored_other_side e He Hr). reflexivity. }
  apply H. apply incl_refl.
Qed.

End WriteBack.

Lemma collect_keys_NoDup (p : props) : NoDup (map organKey (collect p)).
Proof.
  unfold collect. rewrite EntriesFacts.collect_keys_keys.
  apply NoDup_filter, EntriesFacts.ORGAN_KEYS_NoDup.
Qed.

End SideFacts.

(** X11.  In the curved variant each side is solved on its own: the
    entries of the plan on a side are the entries that [resolveSide]
    computes from the collected entries of this side, each passed
    through the de-collision loop.  The entries of the other side, and
    the order in which the two sides are solved, have no part in it. *)
Theorem curved_sides_independent (p : props) (r : bool) (e : Curved.entry) :
  In e (Curved.adjustedPositions p) /\ Curved.isRightSide e = r
  <-> exists e0,
        In e0 (Curved.resolveSide_entries
                 (Curved.side_entries r (Curved.collect p)))
        /\ e = Curved.decollide e0.
Proof.
  pose proof (SideFacts.collect_keys_NoDup p) as Hk.
  set (ps := Curved.collect p) in *.
  assert (NoDup (map Curved.organKey (Curved.resolveSide true ps))) as Hk1
    by (rewrite EntriesFacts.resolveSide_keys; exact Hk).
  assert (Curved.side_entries false (Curved.resolveSide true ps)
          = Curved.side_entries false ps) as Hleft.
  { unfold Curved.side_entries.
    rewrite (SideFacts.resolveSide_other_side true ps Hk false);
      [reflexivity | discriminate]. }
  assert (forall q,
            In q (Curved.resolveSide false (Curved.resolveSide true ps))
            /\ Curved.isRightSide q = r
            <-> In q (Curved.resolveSide_entries (Curved.side_entries r ps)))
    as Hplan.
  { intros q.
    rewrite (SideFacts.resolveSide_In false _ Hk1), Hleft.
    rewrite (SideFacts.resolveSide_In true ps Hk).
    pose proof (SideFacts.solved_side true ps q) as Ht.
    pose proof (SideFacts.solved_side false ps q) as Hf.
    destruct r; split.
    - intros [[H | [[H | [_ H]] _]] Hr]; try assumption.
      + specialize (Hf H). congruence.
      + congruence.
    - intros H. split; [|exact (Ht H)].
      right. split; [left; exact H|]. rewrite (Ht H). discriminate.
    - intros [[H | [[H | [_ H]] H']] Hr]; try assumption.
      + congruence.
      + destruct (Curved.isRightSide q); congruence.
    - intros H. split; [|exact (Hf H)]. left. exact H. }
  unfold Curved.adjustedPositions. fold ps. rewrite in_map_iff. split.
  - intros [(e0 & <- & H0) Hr]. exists e0. split; [|reflexivity].
    apply Hplan. split; [exact H0 | exact Hr].
  - intros (e0 & H0 & ->). apply Hplan in H0 as [H0 Hr].
    split; [|exact Hr]. exists e0. split; [reflexivity | exact H0].
Qed.

(** ** The normalised detail text *)

Module CleanFacts.
Import JsText CleanSpec.

Lemma filter_reversed (f : N -> bool) (s : jsstring) :
  filter f (rev s) = rev (filter f s).
Proof.
  induction s as [|c r IH]; [reflexivity|].
  simpl. rewrite filter_app, IH. simpl.
  destruct (f c); simpl; [reflexivity | apply app_nil_r].
Qed.

Lemma ink_trimStart (s : jsstring) : filter ink (trimStart s) = filter ink s.
Proof.
  induction s as [|c r IH]; [reflexivity|].
  simpl. unfold ink at 2. destruct (is_space c) eqn:E; simpl; [exact IH|].
  unfold ink at 1. rewrite E. reflexivity.
Qed.

Lemma ink_replace_runs (b : bool) (s : jsstring) :
  filter ink (replace_runs b s) = filter ink s.
Proof.
  revert b. induction s as [|c r IH]; intros b; [reflexivity|].
  simpl. unfold ink at 2. destruct (is_space c) eqn:E; simpl.
  - destruct b; simpl; apply IH.
  - unfold ink at 1. rewrite E. simpl. rewrite IH. reflexivity.
Qed.

Lemma ink_clean (s : jsstring) : filter ink (clean s) = filter ink s.
Proof.
  unfold clean, trim, trimEnd.
  rewrite filter_reversed, ink_trimStart, filter_reversed, rev_involutive.
  rewrite ink_trimStart. apply ink_replace_runs.
Qed.

Lemma trimStart_length (s : jsstring) :
  (List.length (trimStart s) <= List.length s)%nat.
Proof.
  induction s as [|c r IH]; simpl; [lia|].
  destruct (is_space c); simpl; lia.
Qed.

Lemma replace_runs_length (b : bool) (s : jsstring) :
  (List.length (replace_runs b s) <= List.length s)%nat.
Proof.
  revert b. induction s as [|c r IH]; intros b; simpl; [lia|].
  pose proof (IH true) as Ht. pose proof (IH false) as Hf.
  destruct (is_space c); [destruct b|]; simpl; lia.
Qed.

Lemma clean_length (s : jsstring) :
  (List.length (clean s) <= List.length s)%nat.
Proof.
  unfold clean, trim, trimEnd. rewrite length_rev.
  pose proof (trimStart_length (rev (trimStart (replace_runs false s)))) as H1.
  rewrite length_rev in H1.
  pose proof (trimStart_length (replace_runs false s)) as H2.
  pose proof (replace_runs_length false s) as H3. lia.
Qed.

Lemma trimStart_starts (s : jsstring) : starts_with_ink (trimStart s).
Proof.
  induction s as [|c r IH]; intros x Hx; [discriminate|].
  simpl in Hx. destruct (is_space c) eqn:E; [exact (IH x Hx)|].
  injection Hx as <-. exact E.
Qed.

Lemma trimStart_fixed (s : jsstring) : starts_with_ink s -> trimStart s = s.
Proof.
  destruct s as [|c r]; [reflexivity|].
  intros H. simpl. rewrite (H c eq_refl). reflexivity.
Qed.

Lemma trimStart_snoc (u : jsstring) (c : N) :
  is_space c = false -> trimStart (u ++ [c]) = trimStart u ++ [c].
Proof.
  intros Hc. induction u as [|x r IH]; simpl.
  - rewrite Hc. reflexivity.
  - destruct (is_space x); [exact IH | reflexivity].
Qed.

(** Trimming the end keeps a first code unit that is not white space. *)
Lemma trimEnd_starts (s : jsstring) :
  starts_with_ink s -> starts_with_ink (trimEnd s).
Proof.
  destruct s as [|c r]; intros H x Hx; [discriminate|].
  pose proof (H c eq_refl) as Hc.
  unfold trimEnd in Hx. simpl rev in Hx.
  rewrite (trimStart_snoc (rev r) c Hc), rev_app_distr in Hx.
  simpl in Hx. injection Hx as <-. exact Hc.
Qed.

Lemma clean_starts (s : jsstring) : starts_with_ink (clean s).
Proof. apply trimEnd_starts, trimStart_starts. Qed.

Lemma clean_ends (s : jsstring) : starts_with_ink (rev (clean s)).
Proof.
  unfold clean, trim, trimEnd. rewrite rev_involutive.
  apply trimStart_starts.
Qed.

(** *** The shape of the text after the replacement *)

Lemma replace_runs_plain (b : bool) (s : jsstring) :
  Forall plain_space (replace_runs b s).
Proof.
  revert b. induction s as [|c r IH]; intros b; [constructor|].
  simpl. destruct (is_space c) eqn:E.
  - destruct b; [apply IH|].
    constructor; [intros _; reflexivity | apply IH].
  - constructor; [|apply IH]. intros H. congruence.
Qed.

Lemma replace_runs_single (b : bool) (s : jsstring) :
  chain not_both_space (replace_runs b s)
  /\ (b = true -> starts_with_ink (replace_runs b s)).
Proof.
  revert b. induction s as [|c r IH]; intros b.
  - split; [exact I | intros _ x Hx; discriminate].
  - simpl. destruct (is_space c) eqn:E.
    + destruct b.
      * apply IH.
      * destruct (IH true) as [Hc Hs]. split; [|discriminate].
        apply chain_cons; [exact Hc|].
        intros x Hx. right. apply (Hs eq_refl x Hx).
    + destruct (IH false) as [Hc _]. split.
      * apply chain_cons; [exact Hc|]. intros x _. left. exact E.
      * intros _ x Hx. injection Hx as <-. exact E.
Qed.

Lemma plain_trimStart (s : jsstring) :
  Forall plain_space s -> Forall plain_space (trimStart s).
Proof.
  intros H. induction H as [|c r Hc Hr IH]; [constructor|].
  simpl. destruct (is_space c); [exact IH | constructor; assumption].
Qed.

Lemma single_trimStart (s : jsstring) :
  chain not_both_space s -> chain not_both_space (trimStart s).
Proof.
  induction s as [|c r IH]; intros H; [exact I|].
  simpl. destruct (is_space c); [|exact H].
  apply IH. exact (chain_tail _ _ _ H).
Qed.

Lemma single_rev (s : jsstring) :
  chain not_both_space s -> chain not_both_space (rev s).
Proof.
  intros H. apply chain_rev in H.
  revert H. generalize (rev s). intros l.
  induction l as [|a [|b t] IH]; simpl; auto.
  intros [Hab Hc]. split; [|apply IH; exact Hc].
  unfold not_both_space in *. tauto.
Qed.

Lemma clean_plain (s : jsstring) : Forall plain_space (clean s).
Proof.
  unfold clean, trim, trimEnd.
  apply Forall_rev, plain_trimStart, Forall_rev, plain_trimStart,
    replace_runs_plain.
Qed.

Lemma clean_single (s : jsstring) : chain not_both_space (clean s).
Proof.
  unfold clean, trim, trimEnd.
  apply single_rev, single_trimStart, single_rev, single_trimStart,
    replace_runs_single.
Qed.

(** A text of this shape is left as it is by the replacement. *)
Lemma replace_runs_fixed (s : jsstring) :
  Forall plain_space s -> chain not_both_space s ->
  replace_runs false s = s
  /\ (starts_with_ink s -> replace_runs true s = s).
Proof.
  intros Hp. induction Hp as [|c r Hc Hr IH]; intros Hs.
  - split; reflexivity.
  - pose proof (chain_tail _ _ _ Hs) as Ht.
    destruct (IH Ht) as [IHf IHt].
    simpl. destruct (is_space c) eqn:E.
    + split.
      * rewrite (Hc E). f_equal. apply IHt.
        intros x Hx. destruct r as [|y r']; [discriminate|].
        injection Hx as <-. destruct Hs as [[H | H] _]; congruence.
      * intros H. specialize (H c eq_refl). congruence.
    + split; [|intros _]; f_equal; exact IHf.
Qed.

Lemma trimEnd_fixed (s : jsstring) :
  starts_with_ink (rev s) -> trimEnd s = s.
Proof.
  intros H. unfold trimEnd. rewrite (trimStart_fixed _ H).
  apply rev_involutive.
Qed.

(** Cleaning a clean text changes nothing. *)
Lemma clean_idempotent (s : jsstring) : clean (clean s) = clean s.
Proof.
  unfold clean at 1.
  destruct (replace_runs_fixed (clean s) (clean_plain s) (clean_single s))
    as [-> _].
  unfold trim. rewrite (trimStart_fixed _ (clean_starts s)).
  apply trimEnd_fixed, clean_ends.
Qed.

End CleanFacts.

(** X12.  The normalisation of a detail text, [replace(/\s+/g, ' ')]
    followed by [trim()], keeps the code units that are not white space,
    in their order, and never lengthens the text.  Its result neither
    starts nor ends with white space, has single spaces as its only
    white space, and is left unchanged by a second normalisation. *)
Theorem clean_normal_form (s : JsText.jsstring) :
  filter CleanSpec.ink (JsText.clean s) = filter CleanSpec.ink s
  /\ (List.length (JsText.clean s) <= List.length s)%nat
  /\ CleanSpec.starts_with_ink (JsText.clean s)
  /\ CleanSpec.starts_with_ink (rev (JsText.clean s))
  /\ Forall CleanSpec.plain_space (JsText.clean s)
  /\ chain CleanSpec.not_both_space (JsText.clean s)
  /\ JsText.clean (JsText.clean s) = JsText.clean s.
Proof.
  repeat split.
  - apply CleanFacts.ink_clean.
  - apply CleanFacts.clean_length.
  - apply CleanFacts.clean_starts.
  - apply CleanFacts.clean_ends.
  - apply CleanFacts.clean_plain.
  - apply CleanFacts.clean_single.
  - apply CleanFacts.clean_idempotent.
Qed.

Module HeightMoreFacts.
Import JsText TextSpec Curved.

Lemma lines_for_mono (a b : nat) :
  (a <= b)%nat -> (lines_for a <= lines_for b)%Z.
Proof. intros H. unfold lines_for. apply Z.div_le_mono; lia. Qed.

Lemma lines_for_positive (a : nat) : (1 <= a)%nat -> (1 <= lines_for a)%Z.
Proof.
  intros H. unfold lines_for.
  change 1%Z with (34 / 34)%Z at 1. apply Z.div_le_mono; lia.
Qed.

(** One formula for every text. *)
Lemma estimate_formula (s : jsstring) :
  estimateLabelHeight (Some s)
  == LABEL_HEIGHT + inject_Z (lines_for (List.length (clean s))) * perLineHeight.
Proof.
  destruct (truthy (clean s)) eqn:E.
  - rewrite (HeightFacts.estimate_of_clean s E). reflexivity.
  - assert (clean s = []) as Hc by (destruct (clean s); [reflexivity | discriminate]).
    unfold estimateLabelHeight. rewrite Hc.
    destruct (truthy s); reflexivity.
Qed.

Lemma height_of_lines_mono (a b : nat) :
  (a <= b)%nat ->
  LABEL_HEIGHT + inject_Z (lines_for a) * perLineHeight
  <= LABEL_HEIGHT + inject_Z (lines_for b) * perLineHeight.
Proof.
  intros H. apply lines_for_mono in H. rewrite Zle_Qle in H.
  unfold perLineHeight. nra.
Qed.

End HeightMoreFacts.

(** X13.  The estimated height of a label is the base height plus 3.2
    for each line of 34 code units of the normalised detail text, for
    every text.  It is the same for a text and for its normalised form,
    it grows with the length of the normalised text, it is never more
    than what the length of the raw text gives, and a text with a code
    unit that is not white space takes at least one line. *)
Theorem height_follows_normalised_length :
  (forall s,
     Curved.estimateLabelHeight (Some s)
     == Curved.LABEL_HEIGHT
        + inject_Z (TextSpec.lines_for (List.length (JsText.clean s)))
          * TextSpec.perLineHeight)
  /\ (forall s,
        Curved.estimateLabelHeight (Some (JsText.clean s))
        == Curved.estimateLabelHeight (Some s))
  /\ (forall s1 s2,
        (List.length (JsText.clean s1) <= List.length (JsText.clean s2))%nat ->
        Curved.estimateLabelHeight (Some s1)
        <= Curved.estimateLabelHeight (Some s2))
  /\ (forall s,
        Curved.estimateLabelHeight (Some s)
        <= Curved.LABEL_HEIGHT
           + inject_Z (TextSpec.lines_for (List.length s))
             * TextSpec.perLineHeight)
  /\ (forall s,
        TextSpec.has_ink s = true ->
        Curved.LABEL_HEIGHT + TextSpec.perLineHeight
        <= Curved.estimateLabelHeight (Some s)).
Proof.
  split; [exact HeightMoreFacts.estimate_formula|].
  split; [|split; [|split]].
  - intros s. rewrite !HeightMoreFacts.estimate_formula.
    rewrite CleanFacts.clean_idempotent. reflexivity.
  - intros s1 s2 H. rewrite !HeightMoreFacts.estimate_formula.
    apply HeightMoreFacts.height_of_lines_mono. exact H.
  - intros s. rewrite HeightMoreFacts.estimate_formula.
    apply HeightMoreFacts.height_of_lines_mono, CleanFacts.clean_length.
  - intros s H. rewrite HeightMoreFacts.estimate_formula.
    assert (1 <= List.length (JsText.clean s))%nat as Hl.
    { rewrite <- JsTextFacts.has_ink_clean in H.
      destruct (JsText.clean s); [discriminate | simpl; lia]. }
    apply HeightMoreFacts.lines_for_positive in Hl. rewrite Zle_Qle in Hl.
    change (inject_Z 1) with 1 in Hl.
    unfold TextSpec.perLineHeight. lra.
Qed.

Lemma height_follows_normalised_length_witness :
  Curved.estimateLabelHeight (Some [97; 32; 32; 98]%N)
  <= Curved.estimateLabelHeight (Some (repeat 97%N 40))
  /\ Curved.LABEL_HEIGHT + TextSpec.perLineHeight
     <= Curved.estimateLabelHeight (Some [32; 97]%N).
Proof.
  destruct height_follows_normalised_length as (_ & _ & Hmono & _ & Hink).
  split.
  - apply Hmono. vm_compute. lia.
  - apply Hink. reflexivity.
Defined.

(** ** From the names and the diagram to the plan *)

Module ContainerFacts.

Lemma active_container (names : list JsText.jsstring) (s : option Measure.svg)
  (details : string -> option JsText.jsstring) (k : OrganKey) :
  active (container_props names s details) k = true
  <-> Highlight.isOrganHighlighted names k = true
      /\ exists s' bbox, s = Some s' /\ Measure.organGroup s' k = Some bbox.
Proof.
  unfold active, container_props. cbn [isOrganHighlighted markerPositions].
  rewrite andb_true_iff. unfold Measure.markerPositions_of.
  split; intros [Hh Hp]; (split; [exact Hh|]).
  - destruct s as [s'|]; [|discriminate].
    destruct (Measure.organGroup s' k) as [bbox|] eqn:E; [|discriminate].
    exists s', bbox. split; [reflexivity | exact E].
  - destruct Hp as (s' & bbox & -> & ->). reflexivity.
Qed.

Lemma In_ORGAN_KEYS (k : OrganKey) : In k ORGAN_KEYS.
Proof. destruct k; simpl; tauto. Qed.

End ContainerFacts.

(** X14.  An organ has an entry in the plan, in either variant, exactly
    when one of the lower-cased names contains its key and the group of
    the organ is found in the realized diagram.  While the diagram is
    not ready, or when no name is given, both plans are empty. *)
Theorem plan_organs_of_container (names : list JsText.jsstring)
  (s : option Measure.svg) (details : string -> option JsText.jsstring)
  (cols : option Grid.ColumnPositionOverrides) :
  (forall k,
     In k (map Curved.organKey
             (Curved.adjustedPositions (container_props names s details)))
     <-> Highlight.isOrganHighlighted names k = true
         /\ exists s' bbox, s = Some s' /\ Measure.organGroup s' k = Some bbox)
  /\ (forall k,
        In k (map Grid.a_organKey
                (Grid.gridPositions (container_props names s details) cols))
        <-> Highlight.isOrganHighlighted names k = true
            /\ exists s' bbox,
                 s = Some s' /\ Measure.organGroup s' k = Some bbox)
  /\ (s = None \/ names = [] ->
      Curved.adjustedPositions (container_props names s details) = []
      /\ Grid.gridPositions (container_props names s details) cols = []).
Proof.
  set (p := container_props names s details).
  assert (forall k,
            In k (filter (active p) ORGAN_KEYS)
            <-> Highlight.isOrganHighlighted names k = true
                /\ exists s' bbox,
                     s = Some s' /\ Measure.organGroup s' k = Some bbox) as Hact.
  { intros k. rewrite filter_In.
    pose proof (ContainerFacts.active_container names s details k) as Ha.
    fold p in Ha.
    pose proof (ContainerFacts.In_ORGAN_KEYS k). tauto. }
  pose proof (EntriesFacts.gridPositions_keys p cols) as Hperm.
  split; [|split].
  - intros k. rewrite EntriesFacts.adjustedPositions_keys. apply Hact.
  - intros k. rewrite <- Hact. split.
    + apply (Permutation_in _ Hperm).
    + apply (Permutation_in _ (Permutation_sym Hperm)).
  - intros Hempty.
    assert (filter (active p) ORGAN_KEYS = []) as Hnone.
    { destruct (filter (active p) ORGAN_KEYS) as [|k t] eqn:E; [reflexivity|].
      exfalso.
      destruct (proj1 (Hact k) (or_introl eq_refl))
        as [Hh (s' & bbox & Hs & _)].
      destruct Hempty as [En | En];
        [rewrite En in Hs | rewrite En in Hh]; discriminate. }
    split.
    + apply (map_eq_nil Curved.organKey).
      rewrite EntriesFacts.adjustedPositions_keys. exact Hnone.
    + apply (map_eq_nil Grid.a_organKey).
      rewrite Hnone in Hperm. apply Permutation_sym in Hperm.
      apply Permutation_nil in Hperm. exact Hperm.
Qed.

Lemma plan_organs_of_container_witness :
  Curved.adjustedPositions
    (container_props [[104; 101; 97; 114; 116]%N] None (fun _ => None)) = []
  /\ Grid.gridPositions
       (container_props [[104; 101; 97; 114; 116]%N] None (fun _ => None)) None
     = [].
Proof.
  apply (plan_organs_of_container [[104; 101; 97; 114; 116]%N] None
           (fun _ => None) None).
  left. reflexivity.
Defined.

(** ** Order and stability in the curved variant *)

Module OrderFacts.
Import Curved CurvedSpec CurvedFacts.

Lemma clamp_monotone (c c' h : Q) :
  h <= availableHeight -> c <= c' ->
  clampCenterWithHeight c h <= clampCenterWithHeight c' h.
Proof.
  unfold clampCenterWithHeight, availableHeight, MIN_BOUND, MAX_BOUND.
  intros Hh Hc. num_cases; qlra.
Qed.

Lemma final_clamp_ordered (sp h : Q) (l : list entry) :
  0 <= sp + h -> h <= availableHeight ->
  Forall (fun e => labelHeight e = h) l ->
  chain (spaced sp) l ->
  chain (fun a b => y_of a <= y_of b) (final_clamp l).
Proof.
  intros Hsp Hh Hl. induction Hl as [|a t Ha Ht IH]; intros Hc; [exact I|].
  destruct t as [|b t']; [exact I|].
  destruct Hc as [Hab Hc]. cbn [final_clamp map]. split; [|apply IH; exact Hc].
  apply Forall_inv in Ht. unfold y_of at 1 3. cbn [set_labelY labelY adjustedPosition].
  rewrite Ha, Ht. apply clamp_monotone; [exact Hh|].
  unfold spaced, topEdge_of, bottom_of in Hab. rewrite Ha, Ht in Hab. qlra.
Qed.

Lemma chain_map_top (l l' : list entry) :
  map SideSpec.frame l = map SideSpec.frame l' ->
  chain (key_le top_of) l' -> chain (key_le top_of) l.
Proof.
  revert l'. induction l as [|a t IH]; intros l' H Hc; [exact I|].
  destruct l' as [|a' t']; [discriminate|].
  change (SideSpec.frame a :: map SideSpec.frame t
          = SideSpec.frame a' :: map SideSpec.frame t') in H.
  assert (SideSpec.frame a = SideSpec.frame a') as Ha
    by (apply (f_equal (hd a)) in H; exact H).
  assert (map SideSpec.frame t = map SideSpec.frame t') as Ht
    by (apply (f_equal (@tl entry)) in H; exact H).
  destruct t as [|b u]; [exact I|].
  destruct t' as [|b' u']; [discriminate|].
  destruct Hc as [Hab Hc]. split; [|apply (IH (b' :: u')); assumption].
  assert (SideSpec.frame b = SideSpec.frame b') as Hb
    by (apply (f_equal (hd b)) in Ht; exact Ht).
  unfold key_le, top_of in *.
  apply (f_equal originalPosition) in Ha, Hb. simpl in Ha, Hb.
  rewrite Ha, Hb. exact Hab.
Qed.

Lemma chain_both {A : Type} (R S : A -> A -> Prop) (l : list A) :
  chain R l -> chain S l -> chain (fun a b => R a b /\ S a b) l.
Proof.
  induction l as [|a [|b t] IH]; simpl; auto.
  intros [Hr Hcr] [Hs Hcs]. split; [split; assumption | apply IH; assumption].
Qed.

(** With labels of one height that fit, the solver of a side keeps the
    labels in the order of their sources. *)
Lemma resolveSide_entries_ordered (h : Q) (l : list entry) :
  0 <= h -> h <= availableHeight ->
  Forall (fun e => labelHeight e = h) l ->
  chain (key_le top_of) l ->
  chain (fun a b => top_of a <= top_of b /\ y_of a <= y_of b)
    (resolveSide_entries l).
Proof.
  intros H0 Hh Hl Hsorted. apply chain_both.
  - apply (chain_map_top _ l); [|exact Hsorted].
    apply SideFacts.frame_resolveSide_entries.
  - unfold resolveSide_entries.
    apply (final_clamp_ordered (spacing_of l) h).
    + pose proof (spacing_floor l). lra.
    + exact Hh.
    + apply (framed_passes (fun e => labelHeight e = h)); [|exact Hl].
      intros e y H. exact H.
    + apply passes_spaced.
Qed.

End OrderFacts.

(** X15.  When all labels of a side have one height that fits between
    the bounds, as they do without detail texts, [resolveSide] never
    inverts two labels: a label whose source is strictly higher is not
    placed lower.  An inversion in the plan of the curved variant comes
    from the de-collision loop, not from the solver. *)
Theorem solver_keeps_order_for_equal_heights (r : bool)
  (positions : list Curved.entry) (h : Q) (a b : Curved.entry) :
  0 <= h -> h <= Curved.availableHeight ->
  Forall (fun e => Curved.labelHeight e = h) positions ->
  In a (Curved.resolveSide_entries (Curved.side_entries r positions)) ->
  In b (Curved.resolveSide_entries (Curved.side_entries r positions)) ->
  Curved.top_of a < Curved.top_of b ->
  Curved.y_of a <= Curved.y_of b.
Proof.
  intros H0 Hh Hl Ha Hb Hlt.
  assert (chain (fun a b => Curved.top_of a <= Curved.top_of b
                            /\ Curved.y_of a <= Curved.y_of b)
            (Curved.resolveSide_entries (Curved.side_entries r positions)))
    as Hc.
  { apply (OrderFacts.resolveSide_entries_ordered h); try assumption.
    - unfold Curved.side_entries, Curved.sort_by_top.
      apply sort_by_Forall. rewrite Forall_forall in *.
      intros e He. apply filter_In in He as [He _]. auto.
    - apply sort_by_sorted. }
  apply In_nth_error in Ha as [i Hi].
  apply In_nth_error in Hb as [j Hj].
  assert (forall x y z : Curved.entry,
            Curved.top_of x <= Curved.top_of y /\ Curved.y_of x <= Curved.y_of y ->
            Curved.top_of y <= Curved.top_of z /\ Curved.y_of y <= Curved.y_of z ->
            Curved.top_of x <= Curved.top_of z /\ Curved.y_of x <= Curved.y_of z)
    as Htrans by (intros x y z [? ?] [? ?]; split; lra).
  destruct (Nat.lt_trichotomy i j) as [Hij | [<- | Hji]].
  - apply (chain_later _ Htrans _ Hc i j a b Hij Hi Hj).
  - rewrite Hi in Hj. injection Hj as <-. lra.
  - pose proof (chain_later _ Htrans _ Hc j i b a Hji Hj Hi) as [H _]. lra.
Qed.

Lemma solver_keeps_order_for_equal_heights_witness :
  exists a b,
    In a (Curved.resolveSide_entries
            (Curved.side_entries false Sample.scenario_B_entries))
    /\ In b (Curved.resolveSide_entries
               (Curved.side_entries false Sample.scenario_B_entries))
    /\ Curved.top_of a < Curved.top_of b
    /\ Curved.y_of a <= Curved.y_of b.
Proof.
  let v := eval vm_compute in
             (Curved.resolveSide_entries
                (Curved.side_entries false Sample.scenario_B_entries)) in
  assert (Curved.resolveSide_entries
            (Curved.side_entries false Sample.scenario_B_entries) = v) as E
    by (vm_compute; reflexivity).
  eexists. eexists.
  split; [rewrite E; left; reflexivity|].
  split; [rewrite E; right; left; reflexivity|].
  split; [simpl; q_decide|].
  apply (solver_keeps_order_for_equal_heights false
           Sample.scenario_B_entries 7).
  - q_decide.
  - q_decide.
  - repeat constructor.
  - rewrite E. left. reflexivity.
  - rewrite E. right. left. reflexivity.
  - simpl. q_decide.
Defined.

Module StableFacts.
Import Curved.

(** The center that the de-collision loop gives to a label at [y] with
    its source at [t]. *)
Lemma decollide_y (e : entry) :
  y_of (decollide e)
  = clampCenterWithHeight
      (if Num.ltb (Num.abs (y_of e - top_of e)) LABEL_HEIGHT
       then (if Num.ltb (y_of e) (top_of e)
             then top_of e - LABEL_HEIGHT - 1
             else top_of e + LABEL_HEIGHT + 1)
       else y_of e)
      (labelHeight e).
Proof. reflexivity. Qed.

Lemma clamp_cases (c h : Q) :
  (c - h / 2 < MIN_BOUND /\ clampCenterWithHeight c h = MIN_BOUND + h / 2)
  \/ (MIN_BOUND <= c - h / 2 /\ MAX_BOUND < c + h / 2
      /\ clampCenterWithHeight c h = MAX_BOUND - h / 2)
  \/ (MIN_BOUND <= c - h / 2 /\ c + h / 2 <= MAX_BOUND
      /\ clampCenterWithHeight c h = c).
Proof.
  unfold clampCenterWithHeight.
  destruct (NumFacts.ltb_cases (c - h / 2) MIN_BOUND) as [[H1 ->] | [H1 ->]];
    [left; split; [exact H1 | reflexivity]|].
  destruct (NumFacts.ltb_cases MAX_BOUND (c + h / 2)) as [[H2 ->] | [H2 ->]].
  - right. left. repeat split; assumption.
  - right. right. repeat split; assumption.
Qed.

Lemma abs_lt (a b : Q) : Num.abs a < b <-> - b < a /\ a < b.
Proof.
  unfold Num.abs.
  destruct (NumFacts.ltb_cases a 0) as [[H ->] | [H ->]]; split; intros; lra.
Qed.

(** The second pass of the loop over a label that went up. *)
Lemma stable_up (y1 t h : Q) :
  y1 = clampCenterWithHeight (t - LABEL_HEIGHT - 1) h ->
  y1 < t -> clampCenterWithHeight y1 h = y1 ->
  clampCenterWithHeight
    (if Num.ltb (Num.abs (y1 - t)) LABEL_HEIGHT
     then (if Num.ltb y1 t then t - LABEL_HEIGHT - 1 else t + LABEL_HEIGHT + 1)
     else y1) h = y1.
Proof.
  intros E Hlt Hfix.
  destruct (Num.ltb (Num.abs (y1 - t)) LABEL_HEIGHT); [|exact Hfix].
  destruct (NumFacts.ltb_cases y1 t) as [[_ ->] | [H _]]; [|lra].
  symmetry. exact E.
Qed.

(** The second pass of the loop over a label that went down. *)
Lemma stable_down (y1 t h : Q) :
  y1 = clampCenterWithHeight (t + LABEL_HEIGHT + 1) h ->
  t <= y1 -> clampCenterWithHeight y1 h = y1 ->
  clampCenterWithHeight
    (if Num.ltb (Num.abs (y1 - t)) LABEL_HEIGHT
     then (if Num.ltb y1 t then t - LABEL_HEIGHT - 1 else t + LABEL_HEIGHT + 1)
     else y1) h = y1.
Proof.
  intros E Hle Hfix.
  destruct (Num.ltb (Num.abs (y1 - t)) LABEL_HEIGHT); [|exact Hfix].
  destruct (NumFacts.ltb_cases y1 t) as [[H _] | [_ ->]]; [lra|].
  symmetry. exact E.
Qed.

Lemma decollide_twice (y t h : Q) :
  h <= availableHeight ->
  MIN_BOUND <= y - h / 2 -> y + h / 2 <= MAX_BOUND ->
  let y1 :=
    clampCenterWithHeight
      (if Num.ltb (Num.abs (y - t)) LABEL_HEIGHT
       then (if Num.ltb y t then t - LABEL_HEIGHT - 1 else t + LABEL_HEIGHT + 1)
       else y) h in
  clampCenterWithHeight
    (if Num.ltb (Num.abs (y1 - t)) LABEL_HEIGHT
     then (if Num.ltb y1 t then t - LABEL_HEIGHT - 1 else t + LABEL_HEIGHT + 1)
     else y1) h = y1.
Proof.
  intros Hh Hlo Hhi y1.
  assert (clampCenterWithHeight y1 h = y1) as Hfix.
  { unfold y1.
    match goal with
    | |- clampCenterWithHeight (clampCenterWithHeight ?c h) h = _ =>
        pose proof (CurvedFacts.clamp_range c h Hh) as [H1 H2];
        apply CurvedFacts.clamp_inside; lra
    end. }
  destruct (NumFacts.ltb_cases (Num.abs (y - t)) LABEL_HEIGHT)
    as [[Hd E] | [Hd E]].
  - apply abs_lt in Hd as [Hd1 Hd2].
    destruct (NumFacts.ltb_cases y t) as [[Hyt E'] | [Hyt E']].
    + assert (y1 = clampCenterWithHeight (t - LABEL_HEIGHT - 1) h) as Ey
        by (unfold y1; rewrite E, E'; reflexivity).
      apply stable_up; [exact Ey | | exact Hfix].
      rewrite Ey.
      destruct (clamp_cases (t - LABEL_HEIGHT - 1) h)
        as [[H ->] | [(H1 & H2 & ->) | (H1 & H2 & ->)]];
        unfold LABEL_HEIGHT, MIN_BOUND, MAX_BOUND in *; qlra.
    + assert (y1 = clampCenterWithHeight (t + LABEL_HEIGHT + 1) h) as Ey
        by (unfold y1; rewrite E, E'; reflexivity).
      apply stable_down; [exact Ey | | exact Hfix].
      rewrite Ey.
      destruct (clamp_cases (t + LABEL_HEIGHT + 1) h)
        as [[H ->] | [(H1 & H2 & ->) | (H1 & H2 & ->)]];
        unfold LABEL_HEIGHT, MIN_BOUND, MAX_BOUND in *; qlra.
  - assert (y1 = y) as Ey.
    { unfold y1. rewrite E. apply CurvedFacts.clamp_inside; assumption. }
    rewrite Ey, E. apply CurvedFacts.clamp_inside; assumption.
Qed.

End StableFacts.

(** X16.  The de-collision loop is stable on labels that lie between the
    bounds, as the labels that fit do after [resolveSide]: applied to
    its own result it changes nothing. *)
Theorem decollide_idempotent (e : Curved.entry) :
  Curved.labelHeight e <= Curved.availableHeight ->
  CurvedSpec.within_bounds e ->
  Curved.decollide (Curved.decollide e) = Curved.decollide e.
Proof.
  intros Hh [Hlo Hhi].
  pose proof (StableFacts.decollide_twice (Curved.y_of e) (Curved.top_of e)
                (Curved.labelHeight e) Hh Hlo Hhi) as H.
  cbv zeta in H. rewrite <- StableFacts.decollide_y in H.
  unfold Curved.decollide at 1.
  change (Curved.top_of (Curved.decollide e)) with (Curved.top_of e).
  change (Curved.labelHeight (Curved.decollide e)) with (Curved.labelHeight e).
  rewrite H. reflexivity.
Qed.

Lemma decollide_idempotent_witness :
  Curved.decollide (Curved.decollide (Sample.entry_at brain 88 (13 # 2)))
  = Curved.decollide (Sample.entry_at brain 88 (13 # 2)).
Proof.
  apply (decollide_idempotent (Sample.entry_at brain 88 (13 # 2))).
  - q_decide.
  - split; simpl; q_decide.
Defined.

(** ** When the elbow variant stays within its bounds *)

Module RoomFacts.
Import Grid GridSpec PullUpSpec.

Lemma size_cons {A : Type} (a : A) (l : list A) : size (a :: l) == size l + 1.
Proof.
  unfold size. cbn [List.length]. rewrite Nat2Z.inj_succ.
  unfold Z.succ. rewrite inject_Z_plus. reflexivity.
Qed.

Lemma size_nonneg {A : Type} (l : list A) : 0 <= size l.
Proof. unfold size. rewrite <- (Zle_Qle 0). lia. Qed.

Lemma preferred_range (it : item) :
  minCenter <= preferred it /\ preferred it <= maxCenter.
Proof. apply GridFacts.clampCenter_range. Qed.

(** The forward pass stays at or above [maxCenter] exactly when there is
    room below every item and below the center [q] before the first
    one. *)
Lemma forward_room (items : list item) :
  forall prev : option Q,
    Forall (fun c => c <= maxCenter) (forward_centers prev items)
    <-> room_below items
        /\ (forall q, prev = Some q -> items <> [] ->
              q + size items * spacing <= maxCenter).
Proof.
  induction items as [|it r IH]; intros prev.
  - split; [intros _; split; [exact I | intros q _ H; congruence]
           | intros _; constructor].
  - cbn [forward_centers room_below].
    set (c := Num.max (clampCenter (item_top it))
                (match prev with None => minCenter | Some c => c + spacing end)).
    rewrite Forall_cons_iff, (IH (Some c)).
    pose proof (preferred_range it) as [Hp1 Hp2]. unfold preferred in *.
    pose proof (size_cons it r) as Hs. pose proof (size_nonneg r) as Hn.
    assert (spacing == 11) as Esp by reflexivity.
    assert (c == clampCenter (item_top it) /\
            match prev with
            | None => minCenter
            | Some q => q + spacing
            end <= clampCenter (item_top it)
            \/ c == match prev with
                    | None => minCenter
                    | Some q => q + spacing
                    end /\
               clampCenter (item_top it)
               <= match prev with
                  | None => minCenter
                  | Some q => q + spacing
                  end) as Hc.
    { unfold c, Num.max.
      destruct (NumFacts.leb_cases (clampCenter (item_top it))
                  (match prev with None => minCenter | Some q => q + spacing end))
        as [[H ->] | [H ->]]; [right | left]; split; lra. }
    clearbody c.
    split.
    + intros (Hc0 & Hroom & Hq). split; [split; [|exact Hroom]|].
      * destruct r as [|it' r'].
        -- change (size []) with 0. lra.
        -- assert (it' :: r' <> []) as Hne by discriminate.
           specialize (Hq c eq_refl Hne).
           destruct Hc as [[Hc _] | [Hc Hle]]; nra.
      * intros q -> _.
        destruct r as [|it' r'].
        -- change (size [it]) with 1. destruct Hc as [[Hc Hle] | [Hc _]]; lra.
        -- assert (it' :: r' <> []) as Hne by discriminate.
           specialize (Hq c eq_refl Hne).
           destruct Hc as [[Hc Hle] | [Hc _]]; nra.
    + intros [[Hit Hroom] Hq].
      assert (c + size r * spacing <= maxCenter) as Hcr.
      { destruct Hc as [[Hc _] | [Hc _]]; [nra|].
        destruct prev as [q|].
        - assert (it :: r <> []) as Hne by discriminate.
          specialize (Hq q eq_refl Hne). nra.
        - nra. }
      split; [nra|]. split; [exact Hroom|].
      intros q Eq _. injection Eq as <-. exact Hcr.
Qed.

(** Items whose clamped sources are well apart get these as centers. *)
Lemma forward_at_preferred (items : list item) :
  forall prev : option Q,
    chain well_apart items ->
    (forall q it, prev = Some q -> hd_error items = Some it ->
       q + spacing <= preferred it) ->
    Forall2 Qeq (forward_centers prev items) (map preferred items).
Proof.
  induction items as [|it r IH]; intros prev Hc Hq; [constructor|].
  cbn [forward_centers map].
  set (c := Num.max (clampCenter (item_top it))
              (match prev with None => minCenter | Some c => c + spacing end)).
  assert (c == preferred it) as Ec.
  { pose proof (preferred_range it) as [Hp1 _].
    unfold c, Num.max, preferred in *.
    destruct prev as [q|].
    - specialize (Hq q it eq_refl eq_refl). unfold preferred in Hq.
      num_cases; lra.
    - num_cases; lra. }
  constructor; [exact Ec|].
  apply IH; [exact (chain_tail _ _ _ Hc)|].
  intros q it' Eq Hit'. injection Eq as <-.
  destruct r as [|x r']; [discriminate|]. injection Hit' as ->.
  destruct Hc as [Hw _]. unfold well_apart in Hw. lra.
Qed.

Lemma overflow_block_untouched (cs : list Q) :
  Forall (fun c => c <= maxCenter) cs -> overflow_block cs = cs.
Proof.
  intros H. unfold overflow_block.
  destruct (rev cs) as [|last r] eqn:E; [reflexivity|].
  destruct (NumFacts.ltb_cases maxCenter last) as [[Hov _] | [_ ->]];
    [|reflexivity].
  exfalso. rewrite Forall_forall in H.
  assert (In last cs) as Hin by (apply in_rev; rewrite E; left; reflexivity).
  specialize (H last Hin). lra.
Qed.

End RoomFacts.

(** X17.  The cards of a side of the elbow variant all end at or above
    [maxCenter] exactly when the clamped source of every card, in the
    order of the sort, leaves room for the cards after it: clamped
    source plus 11 for each later card is at most [maxCenter].  Nothing
    else decides it, since the overflow block never repairs an
    overflow. *)
Theorem grid_within_bounds_iff_room (items : list Grid.item) (colX : Q)
  (isRight : bool) :
  Forall (fun a => Grid.minCenter <= Grid.rowY a
                   /\ Grid.rowY a <= Grid.maxCenter)
    (Grid.adjustSide items colX isRight)
  <-> PullUpSpec.room_below (sort_by Grid.item_top items).
Proof.
  pose proof (grid_overflow_never_repaired_aux items colX isRight) as Hiff.
  pose proof (RoomFacts.forward_room (sort_by Grid.item_top items) None)
    as Hroom.
  split.
  - intros H. apply Hroom. apply Hiff.
    revert H. apply Forall_impl. intros a [_ Ha]. exact Ha.
  - intros H.
    assert (Forall (fun a => Grid.rowY a <= Grid.maxCenter)
              (Grid.adjustSide items colX isRight)) as Hmax.
    { apply Hiff. apply Hroom. split; [exact H|]. intros q Eq. discriminate. }
    rewrite Forall_forall in *. intros a Ha. split; [|apply Hmax; exact Ha].
    apply (in_map Grid.rowY) in Ha.
    rewrite PullUpFacts.adjustSide_rows in Ha.
    pose proof (GridFacts.side_centers_min (sort_by Grid.item_top items)) as Hm.
    rewrite Forall_forall in Hm. apply Hm. exact Ha.
Qed.

(** X18.  When the clamped sources of the cards of a side, in the order
    of the sort, are at least one [spacing] apart, [adjustSide] moves no
    card: every card is placed at the clamped y of its marker. *)
Theorem grid_cards_stay_at_markers (items : list Grid.item) (colX : Q)
  (isRight : bool) :
  chain PullUpSpec.well_apart (sort_by Grid.item_top items) ->
  Forall2 Qeq
    (map Grid.rowY (Grid.adjustSide items colX isRight))
    (map PullUpSpec.preferred (sort_by Grid.item_top items)).
Proof.
  intros Hc. rewrite PullUpFacts.adjustSide_rows. unfold Grid.side_centers.
  pose proof (RoomFacts.forward_at_preferred
                (sort_by Grid.item_top items) None Hc) as Hf.
  assert (Forall2 Qeq (Grid.forward_centers None (sort_by Grid.item_top items))
            (map PullUpSpec.preferred (sort_by Grid.item_top items))) as H
    by (apply Hf; intros q it Eq; discriminate).
  rewrite RoomFacts.overflow_block_untouched; [exact H|].
  clear Hf Hc. revert H.
  generalize (Grid.forward_centers None (sort_by Grid.item_top items)).
  induction (sort_by Grid.item_top items) as [|it r IH]; intros cs H.
  - inversion H. constructor.
  - inversion H as [|c p cs' ps Hcp Hrest]; subst.
    constructor; [|apply IH; exact Hrest].
    pose proof (RoomFacts.preferred_range it) as [_ Hp]. lra.
Qed.

Lemma grid_cards_stay_at_markers_witness :
  Forall2 Qeq
    (map Grid.rowY (Grid.adjustSide SampleDiagram.apart_items 73 false))
    (map PullUpSpec.preferred (sort_by Grid.item_top SampleDiagram.apart_items)).
Proof.
  apply grid_cards_stay_at_markers.
  simpl. split; [|exact I]. unfold PullUpSpec.well_apart. q_decide.
Defined.

(** ** The two spacing passes of [resolveSide] *)

Module PassFacts.
Import Curved CurvedSpec CurvedFacts.

Lemma Forall2_rev_gen {A : Type} (R : A -> A -> Prop) (l l' : list A) :
  Forall2 R l l' -> Forall2 R (rev l) (rev l').
Proof.
  induction 1 as [|a b l l' Hab H IH]; [constructor|].
  simpl. apply Forall2_app; [exact IH|].
  constructor; [exact Hab | constructor].
Qed.

Lemma forward_step_down (sp : Q) (prev c : entry) :
  y_of c <= y_of (forward_step sp prev c).
Proof.
  destruct (forward_step_cases sp prev c) as [(H & _ & Hy) | (_ & ->)];
    [rewrite Hy; qlra | apply Qle_refl].
Qed.

Lemma forward_from_down (sp : Q) (prev : entry) (l : list entry) :
  Forall2 (fun a b => y_of a <= y_of b) l (forward_from sp prev l).
Proof.
  revert prev. induction l as [|c r IH]; intros prev; [constructor|].
  cbn [forward_from]. constructor; [apply forward_step_down | apply IH].
Qed.

Lemma backward_step_cases (sp : Q) (next c : entry) :
  spaced sp (backward_step sp next c) next
  /\ y_of (backward_step sp next c) <= y_of c.
Proof.
  unfold backward_step.
  destruct (NumFacts.ltb_cases
              (y_of next - labelHeight next / 2 - (y_of c + labelHeight c / 2))
              sp) as [[H ->] | [H ->]]; unfold_geometry; split; qlra.
Qed.

Lemma backward_from_spaced (sp : Q) (next : entry) (l : list entry) :
  chain (fun a b => spaced sp b a) (next :: backward_from sp next l).
Proof.
  revert next. induction l as [|c r IH]; intros next; [exact I|].
  cbn [backward_from]. apply chain_cons; [apply IH|].
  intros b Hb. injection Hb as <-. apply backward_step_cases.
Qed.

Lemma backward_from_up (sp : Q) (next : entry) (l : list entry) :
  Forall2 (fun a b => y_of b <= y_of a) l (backward_from sp next l).
Proof.
  revert next. induction l as [|c r IH]; intros next; [constructor|].
  cbn [backward_from]. constructor; [apply backward_step_cases | apply IH].
Qed.

Lemma applyBackwardSpacing_spaced (sp : Q) (l : list entry) :
  chain (spaced sp) (applyBackwardSpacing sp l).
Proof.
  unfold applyBackwardSpacing.
  destruct (rev l) as [|last r]; [exact I|].
  apply chain_rev_inv. rewrite rev_involutive. apply backward_from_spaced.
Qed.

Lemma applyBackwardSpacing_up (sp : Q) (l : list entry) :
  Forall2 (fun a b => y_of b <= y_of a) l (applyBackwardSpacing sp l).
Proof.
  unfold applyBackwardSpacing.
  destruct (rev l) as [|last r] eqn:E.
  - destruct l as [|a t]; [constructor|].
    apply (f_equal (@List.length entry)) in E.
    rewrite length_rev in E. discriminate.
  - assert (l = rev (last :: r)) as ->
      by (rewrite <- E, rev_involutive; reflexivity).
    apply Forall2_rev_gen.
    constructor; [apply Qle_refl | apply backward_from_up].
Qed.

End PassFacts.

(** X19.  Each spacing pass of [resolveSide] establishes the spacing
    with the least moves in its direction.  The forward pass leaves
    every label at least the spacing below its predecessor, moves labels
    down only and leaves a list alone where the spacing holds already,
    so that a second forward pass changes nothing; the backward pass
    does the same upwards. *)
Theorem spacing_passes_settle (sp : Q) (l : list Curved.entry) :
  chain (CurvedSpec.spaced sp) (Curved.applyForwardSpacing sp l)
  /\ Forall2 (fun a b => Curved.y_of a <= Curved.y_of b)
       l (Curved.applyForwardSpacing sp l)
  /\ Curved.applyForwardSpacing sp (Curved.applyForwardSpacing sp l)
     = Curved.applyForwardSpacing sp l
  /\ chain (CurvedSpec.spaced sp) (Curved.applyBackwardSpacing sp l)
  /\ Forall2 (fun a b => Curved.y_of b <= Curved.y_of a)
       l (Curved.applyBackwardSpacing sp l)
  /\ Curved.applyBackwardSpacing sp (Curved.applyBackwardSpacing sp l)
     = Curved.applyBackwardSpacing sp l.
Proof.
  split; [apply CurvedFacts.applyForwardSpacing_spaced|].
  split.
  { destruct l as [|f r]; [constructor|].
    cbn [Curved.applyForwardSpacing].
    constructor; [apply Qle_refl | apply PassFacts.forward_from_down]. }
  split.
  { apply CurvedFacts.applyForwardSpacing_fixed,
      CurvedFacts.applyForwardSpacing_spaced. }
  split; [apply PassFacts.applyBackwardSpacing_spaced|].
  split; [apply PassFacts.applyBackwardSpacing_up|].
  apply CurvedFacts.applyBackwardSpacing_fixed,
    PassFacts.applyBackwardSpacing_spaced.
Qed.

(** * The overflow block and the height contract *)

(** ** The overflow block of the two variants *)

(** C4, as stated, fails on [adjustSide].  Three cards of the left
    column with sources 80, 85 and 90: the forward pass puts them at 80,
    91 and 102, beyond [maxCenter] by 8.5.  The overflow block moves the
    first card alone, to 71.5; the two cards below it have no slack and
    stay, so that no common shift relates the rows to the forward pass,
    and the last card ends beyond the lower bound. *)
Lemma overflow_shift_counterexample :
  map Qred (Grid.forward_centers None SampleDiagram.low_items) = [80; 91; 102]
  /\ map Qred (map Grid.rowY (Grid.adjustSide SampleDiagram.low_items 73 false))
     = [143 # 2; 91; 102]
  /\ ~ (exists d : Q,
          Forall2 Qeq
            (map Grid.rowY (Grid.adjustSide SampleDiagram.low_items 73 false))
            (map (fun c => c - d)
               (Grid.forward_centers None SampleDiagram.low_items)))
  /\ (exists a, In a (Grid.adjustSide SampleDiagram.low_items 73 false)
                /\ Grid.maxCenter < Grid.rowY a
                /\ GridSpec.maxBound < Grid.rowY a + Grid.halfHeight).
Proof.
  split; [vm_compute; reflexivity|].
  split; [vm_compute; reflexivity|].
  split.
  - intros [d H].
    assert (forall x y, Qred x = Qred y -> x == y) as Hred.
    { intros x y E. rewrite <- (Qred_correct x), <- (Qred_correct y), E.
      reflexivity. }
    remember (map Grid.rowY (Grid.adjustSide SampleDiagram.low_items 73 false))
      as rows eqn:Er.
    remember (Grid.forward_centers None SampleDiagram.low_items) as fwd eqn:Ef.
    assert (map Qred rows = [143 # 2; 91; 102]) as Hr
      by (subst rows; vm_compute; reflexivity).
    assert (map Qred fwd = [80; 91; 102]) as Hf
      by (subst fwd; vm_compute; reflexivity).
    clear Er Ef.
    destruct rows as [|r0 [|r1 rows]]; try discriminate.
    destruct fwd as [|f0 [|f1 fwd]]; try discriminate.
    injection Hr as Hr0 Hr1 _. injection Hf as Hf0 Hf1 _.
    apply (Hred r0 (143 # 2)) in Hr0. apply (Hred r1 91) in Hr1.
    apply (Hred f0 80) in Hf0. apply (Hred f1 91) in Hf1.
    cbn [map] in H.
    inversion H as [|? ? ? ? H0 H']; subst.
    inversion H' as [|? ? ? ? H1 _]; subst.
    lra.
  - eexists. split; [right; right; left; vm_compute; reflexivity|].
    split; q_decide.
Qed.

(** C4, amended.  In [resolveSide], when the forward pass leaves the
    bottom edge of the last label beyond [MAX_BOUND], the overflow block
    is the shift of every label of the side up by the same amount, the
    overflow: the spacing of the forward pass holds after the shift, so
    that the backward pass which follows has nothing to move, and the
    last bottom edge lands on [MAX_BOUND].  Three labels that fit
    between the bounds stay between the bounds, here and in the plan.
    In [adjustSide] there is no common shift: its overflow block moves
    no card down and keeps neighbours one [spacing] apart. *)
Theorem overflow_shift_per_variant :
  (forall (sp : Q) (l : list Curved.entry) (last : Curved.entry),
     hd_error (rev (Curved.applyForwardSpacing sp l)) = Some last ->
     Curved.MAX_BOUND < Curved.bottom_of last ->
     let overflow := Curved.bottom_of last - Curved.MAX_BOUND in
     let shifted :=
       map (Curved.add_labelY (- overflow)) (Curved.applyForwardSpacing sp l) in
     Curved.overflow_block sp (Curved.applyForwardSpacing sp l) = shifted
     /\ Curved.applyBackwardSpacing sp shifted = shifted
     /\ chain (CurvedSpec.spaced sp) shifted
     /\ Curved.bottom_of (Curved.add_labelY (- overflow) last)
        == Curved.MAX_BOUND)
  /\ (forall e1 e2 e3 : Curved.entry,
        Forall CurvedSpec.fits [e1; e2; e3] ->
        Forall (fun e => CurvedSpec.within_bounds e
                         /\ Curved.MIN_BOUND <= Curved.y_of e
                         /\ Curved.y_of e <= Curved.MAX_BOUND)
          (Curved.resolveSide_entries [e1; e2; e3]))
  /\ (forall (p : props) (e : Curved.entry),
        In e (Curved.adjustedPositions p) ->
        Curved.labelHeight e <= Curved.availableHeight ->
        CurvedSpec.within_bounds e
        /\ Curved.MIN_BOUND <= Curved.y_of e
        /\ Curved.y_of e <= Curved.MAX_BOUND)
  /\ (forall (items : list Grid.item) (colX : Q) (isRight : bool),
        Forall2 Qle
          (map Grid.rowY (Grid.adjustSide items colX isRight))
          (Grid.forward_centers None (sort_by Grid.item_top items))
        /\ chain GridSpec.gap_le
             (map Grid.rowY (Grid.adjustSide items colX isRight))).
Proof.
  split; [|split; [|split]].
  - intros sp l last Hl Hov overflow shifted.
    pose proof (CurvedFacts.applyForwardSpacing_spaced sp l) as Hc.
    assert (chain (CurvedSpec.spaced sp) shifted) as Hs
      by (apply CurvedFacts.shift_spaced; exact Hc).
    assert (Curved.applyBackwardSpacing sp shifted = shifted) as Hb
      by (apply CurvedFacts.applyBackwardSpacing_fixed; exact Hs).
    repeat split; try assumption.
    + apply (CurvedFacts.overflow_block_shift sp _ last Hc Hl Hov).
    + unfold overflow. CurvedFacts.unfold_geometry. qlra.
  - intros e1 e2 e3 Hfit.
    pose proof (PlanFacts.resolveSide_entries_within_bounds _ Hfit) as Hb.
    assert (Forall (fun e => 0 <= Curved.labelHeight e)
              (Curved.resolveSide_entries [e1; e2; e3])) as Hh.
    { apply CurvedFacts.framed_resolveSide_entries.
      - intros e y H. exact H.
      - revert Hfit. apply Forall_impl. intros e [H _]. exact H. }
    rewrite Forall_forall in *. intros e He.
    split; [apply Hb; exact He|].
    apply PlanFacts.within_bounds_center; [apply Hh | apply Hb]; exact He.
  - intros p e He Hh.
    pose proof (PlanFacts.plan_within_bounds p e He Hh) as Hb.
    split; [exact Hb|].
    apply PlanFacts.within_bounds_center; [|exact Hb].
    pose proof (PlanFacts.plan_heights p e He) as H.
    unfold Curved.LABEL_HEIGHT in H. lra.
  - intros items colX isRight.
    rewrite PullUpFacts.adjustSide_rows. split.
    + apply PullUpFacts.overflow_block_only_up.
    + apply GridFacts.side_centers_gapped.
Qed.

Lemma overflow_shift_per_variant_witness :
  (exists last,
     hd_error (rev (Curved.applyForwardSpacing 6
                      (Curved.initial_clamp Sample.low_triple))) = Some last
     /\ Curved.MAX_BOUND < Curved.bottom_of last
     /\ Curved.bottom_of
          (Curved.add_labelY (- (Curved.bottom_of last - Curved.MAX_BOUND)) last)
        == Curved.MAX_BOUND)
  /\ Forall (fun e => CurvedSpec.within_bounds e
                      /\ Curved.MIN_BOUND <= Curved.y_of e
                      /\ Curved.y_of e <= Curved.MAX_BOUND)
       (Curved.resolveSide_entries Sample.low_triple).
Proof.
  destruct overflow_shift_per_variant as (Hshift & Hthree & _).
  split.
  - eexists.
    split; [vm_compute; reflexivity|].
    split; [q_decide|].
    eapply (Hshift 6 (Curved.initial_clamp Sample.low_triple)).
    + vm_compute. reflexivity.
    + q_decide.
  - apply Hthree.
    repeat constructor; simpl; q_decide.
Defined.

(** ** The normalisation as the words of the text *)

Module NormalFacts.
Import JsText TextSpec CleanSpec NormalSpec.

Lemma words_spaces_before (sp t : jsstring) :
  forallb is_space sp = true -> words (sp ++ t) = words t.
Proof.
  induction sp as [|c r IH]; [reflexivity|].
  simpl. intros H. apply andb_true_iff in H as [Hc Hr].
  rewrite Hc. exact (IH Hr).
Qed.

Lemma begins_word_spaces (sp : jsstring) :
  forallb is_space sp = true -> begins_word sp = false.
Proof.
  destruct sp as [|c r]; [reflexivity|].
  simpl. intros H. apply andb_true_iff in H as [Hc _].
  rewrite Hc. reflexivity.
Qed.

Lemma begins_word_app (t sp : jsstring) :
  forallb is_space sp = true -> begins_word (t ++ sp) = begins_word t.
Proof.
  destruct t as [|c r]; [|reflexivity].
  apply begins_word_spaces.
Qed.

Lemma words_spaces_after (t sp : jsstring) :
  forallb is_space sp = true -> words (t ++ sp) = words t.
Proof.
  intros H. induction t as [|c r IH].
  - rewrite <- (app_nil_r sp). apply (words_spaces_before sp []). exact H.
  - cbn [app words]. rewrite IH, (begins_word_app r sp H). reflexivity.
Qed.

Lemma begins_word_replace_runs (s : jsstring) :
  begins_word (replace_runs false s) = begins_word s.
Proof.
  destruct s as [|c r]; [reflexivity|].
  simpl. destruct (is_space c) eqn:E; simpl; [reflexivity|].
  rewrite E. reflexivity.
Qed.

(** The replacement keeps the words. *)
Lemma words_replace_runs (b : bool) (s : jsstring) :
  words (replace_runs b s) = words s.
Proof.
  revert b. induction s as [|c r IH]; intros b; [reflexivity|].
  cbn [replace_runs words]. destruct (is_space c) eqn:E.
  - destruct b; [apply IH|].
    change (words (SPACE :: replace_runs true r)) with (words (replace_runs true r)).
    apply IH.
  - cbn [words]. rewrite E, IH, begins_word_replace_runs. reflexivity.
Qed.

Lemma words_trimStart (s : jsstring) : words (trimStart s) = words s.
Proof.
  induction s as [|c r IH]; [reflexivity|].
  cbn [trimStart]. destruct (is_space c) eqn:E; [|reflexivity].
  cbn [words]. rewrite E. exact IH.
Qed.

(** What [trimStart] takes away is white space. *)
Lemma trimStart_split (s : jsstring) :
  exists sp, forallb is_space sp = true /\ s = sp ++ trimStart s.
Proof.
  induction s as [|c r IH]; [exists []; split; reflexivity|].
  cbn [trimStart]. destruct (is_space c) eqn:E.
  - destruct IH as (sp & Hsp & Hr). exists (c :: sp). split.
    + simpl. rewrite E. exact Hsp.
    + simpl. f_equal. exact Hr.
  - exists []. split; reflexivity.
Qed.

Lemma forallb_reversed (f : N -> bool) (s : jsstring) :
  forallb f s = true -> forallb f (rev s) = true.
Proof.
  rewrite !forallb_forall. intros H x Hx. apply H, in_rev. exact Hx.
Qed.

Lemma words_trimEnd (s : jsstring) : words (trimEnd s) = words s.
Proof.
  destruct (trimStart_split (rev s)) as (sp & Hsp & Hs).
  apply (f_equal (@rev N)) in Hs.
  rewrite rev_involutive, rev_app_distr in Hs.
  fold (trimEnd s) in Hs. rewrite Hs at 2.
  symmetry. apply words_spaces_after. apply forallb_reversed. exact Hsp.
Qed.

Lemma words_clean (s : jsstring) : words (clean s) = words s.
Proof.
  unfold clean, trim.
  rewrite words_trimEnd, words_trimStart. apply words_replace_runs.
Qed.

(** A text that begins with a word has a word. *)
Lemma words_begun (s : jsstring) :
  begins_word s = true -> exists w ws, words s = w :: ws.
Proof.
  destruct s as [|c r]; [discriminate|].
  cbn [begins_word words]. intros H. apply negb_true_iff in H. rewrite H.
  destruct (begins_word r); [destruct (words r)|]; eauto.
Qed.

Lemma join_words_cons (c : N) (w : jsstring) (ws : list jsstring) :
  join_words ((c :: w) :: ws) = c :: join_words (w :: ws).
Proof. destruct ws; reflexivity. Qed.

Lemma join_words_next (v w : jsstring) (ws : list jsstring) :
  join_words (v :: w :: ws) = v ++ SPACE :: join_words (w :: ws).
Proof. reflexivity. Qed.

Lemma ends_tail (c x : N) (r : jsstring) :
  starts_with_ink (rev (c :: x :: r)) -> starts_with_ink (rev (x :: r)).
Proof.
  intros H y Hy. apply H.
  change (rev (c :: x :: r)) with (rev (x :: r) ++ [c]).
  destruct (rev (x :: r)) as [|z t]; [discriminate|]. exact Hy.
Qed.

(** A text with single plain spaces that does not end in white space is
    its words joined, after its leading white space. *)
Lemma join_words_tidy (t : jsstring) :
  Forall plain_space t -> chain not_both_space t ->
  starts_with_ink (rev t) ->
  join_words (words t) = trimStart t.
Proof.
  induction t as [|c r IH]; intros Hp Hc He; [reflexivity|].
  assert (r <> [] -> join_words (words r) = trimStart r) as IHr.
  { intros Hr. apply IH.
    - inversion Hp; assumption.
    - exact (chain_tail _ _ _ Hc).
    - destruct r as [|x r']; [contradiction|]. exact (ends_tail c x r' He). }
  cbn [words trimStart]. destruct (is_space c) eqn:E.
  - destruct r as [|x r'].
    + exfalso. specialize (He c eq_refl). congruence.
    + apply IHr. discriminate.
  - destruct r as [|x r']; [reflexivity|].
    specialize (IHr ltac:(discriminate)).
    cbn [begins_word]. destruct (is_space x) eqn:Ex; cbn [negb].
    + (* a space follows: [c] is a word of its own *)
      assert (x = SPACE) as ->.
      { inversion Hp as [|? ? _ Hp']. inversion Hp' as [|? ? Hx _].
        exact (Hx Ex). }
      destruct r' as [|y r''].
      { exfalso. pose proof (ends_tail c SPACE [] He) as H.
        specialize (H SPACE eq_refl). discriminate. }
      assert (is_space y = false) as Ey.
      { destruct Hc as [_ [[H | H] _]]; [congruence | exact H]. }
      change (words (SPACE :: y :: r'')) with (words (y :: r'')).
      change (words (SPACE :: y :: r'')) with (words (y :: r'')) in IHr.
      change (trimStart (SPACE :: y :: r'')) with (trimStart (y :: r'')) in IHr.
      destruct (words_begun (y :: r'')) as (w & ws & Hw).
      { simpl. rewrite Ey. reflexivity. }
      rewrite Hw in *. rewrite join_words_next, IHr.
      cbn [trimStart app]. rewrite Ey. reflexivity.
    + destruct (words_begun (x :: r')) as (w & ws & Hw).
      { simpl. rewrite Ex. reflexivity. }
      rewrite Hw in *. rewrite join_words_cons, IHr.
      cbn [trimStart]. rewrite Ex. reflexivity.
Qed.

(** [detail.replace(/\s+/g, ' ').trim()] is the normalised text. *)
Lemma clean_normalise (s : jsstring) : clean s = normalise s.
Proof.
  unfold normalise. rewrite <- (words_clean s).
  rewrite join_words_tidy.
  - symmetry. apply CleanFacts.trimStart_fixed, CleanFacts.clean_starts.
  - apply CleanFacts.clean_plain.
  - apply CleanFacts.clean_single.
  - apply CleanFacts.clean_ends.
Qed.

Lemma normalise_gapped (n : nat) :
  (1 <= n)%nat -> normalise (gapped_text n) = [97; 32; 98]%N.
Proof.
  intros Hn. unfold normalise, gapped_text.
  assert (forallb is_space (repeat SPACE n) = true) as Hsp.
  { apply forallb_forall. intros x Hx. apply repeat_spec in Hx. subst x.
    reflexivity. }
  cbn [words]. change (is_space 97) with false. cbn iota.
  rewrite (words_spaces_before _ [98%N] Hsp).
  destruct n as [|n]; [lia|]. reflexivity.
Qed.

End NormalFacts.

(** C7.  The height estimator computes the height of the contract: the
    base height [LABEL_HEIGHT] for an absent text, otherwise the base
    height plus 3.2 for each line, the number of lines being the ceiling
    of the length of the white-space-normalised text over 34.  The
    normalised text, [detail.replace(/\s+/g, ' ').trim()] in the code, is
    the words of the text joined by single spaces: leading and trailing
    white space is dropped and every inner run of white space, of any
    length and of any kind, counts as one code unit.  An empty text and
    a text of white space only get exactly the base height, and no
    result is below the base height.  A text whose normalised form has
    70 code units, such as a text of 70 code units without white space,
    takes 3 lines; two letters with a run of spaces between them take
    one line, however long the run. *)
Theorem estimateLabelHeight_contract :
  (forall d, Curved.estimateLabelHeight d == NormalSpec.height_of_text d)
  /\ (forall s : JsText.jsstring, JsText.clean s = NormalSpec.normalise s)
  /\ Curved.estimateLabelHeight None = Curved.LABEL_HEIGHT
  /\ (forall s : JsText.jsstring, forallb JsText.is_space s = true ->
        Curved.estimateLabelHeight (Some s) = Curved.LABEL_HEIGHT)
  /\ (forall s : JsText.jsstring, forallb JsText.is_space s = false ->
        Curved.estimateLabelHeight (Some s)
        = Curved.LABEL_HEIGHT
          + inject_Z (TextSpec.lines_for (List.length (NormalSpec.normalise s)))
            * TextSpec.perLineHeight)
  /\ (forall d, Curved.LABEL_HEIGHT <= Curved.estimateLabelHeight d)
  /\ (forall s : JsText.jsstring, List.length (NormalSpec.normalise s) = 70%nat ->
        TextSpec.lines_for (List.length (NormalSpec.normalise s)) = 3%Z
        /\ Curved.estimateLabelHeight (Some s)
           == Curved.LABEL_HEIGHT + 3 * TextSpec.perLineHeight)
  /\ (forall s : JsText.jsstring, existsb JsText.is_space s = false -> List.length s = 70%nat ->
        Curved.estimateLabelHeight (Some s)
        == Curved.LABEL_HEIGHT + 3 * TextSpec.perLineHeight)
  /\ (forall n, (1 <= n)%nat ->
        NormalSpec.normalise (NormalSpec.gapped_text n) = [97; 32; 98]%N
        /\ Curved.estimateLabelHeight (Some (NormalSpec.gapped_text n))
           == Curved.LABEL_HEIGHT + 1 * TextSpec.perLineHeight)
  /\ NormalSpec.normalise NormalSpec.mixed_text = [97; 32; 98]%N.
Proof.
  assert (forall s : JsText.jsstring, forallb JsText.is_space s = true ->
            Curved.estimateLabelHeight (Some s) = Curved.LABEL_HEIGHT) as Hblank.
  { intros s H. unfold Curved.estimateLabelHeight.
    destruct (JsText.truthy s); simpl; [|reflexivity].
    rewrite (JsTextFacts.clean_all_space s H). reflexivity. }
  assert (forall s : JsText.jsstring, forallb JsText.is_space s = false ->
            Curved.estimateLabelHeight (Some s)
            = Curved.LABEL_HEIGHT
              + inject_Z (TextSpec.lines_for
                            (List.length (NormalSpec.normalise s)))
                * TextSpec.perLineHeight) as Hink.
  { intros s H. rewrite <- NormalFacts.clean_normalise.
    apply HeightFacts.estimate_of_clean.
    apply JsTextFacts.has_ink_truthy. rewrite JsTextFacts.has_ink_clean.
    apply JsTextFacts.has_ink_not_all_space. exact H. }
  assert (forall s : JsText.jsstring, List.length (NormalSpec.normalise s) = 70%nat ->
            Curved.estimateLabelHeight (Some s)
            == Curved.LABEL_HEIGHT + 3 * TextSpec.perLineHeight) as Hlen.
  { intros s H. rewrite Hink.
    - rewrite H. reflexivity.
    - destruct (forallb JsText.is_space s) eqn:E; [|reflexivity].
      rewrite <- NormalFacts.clean_normalise in H.
      rewrite (JsTextFacts.clean_all_space s E) in H. discriminate. }
  split.
  { intros [s|]; [|reflexivity].
    destruct (forallb JsText.is_space s) eqn:E.
    - rewrite (Hblank s E). unfold NormalSpec.height_of_text.
      rewrite <- NormalFacts.clean_normalise.
      rewrite (JsTextFacts.clean_all_space s E). reflexivity.
    - rewrite (Hink s E). reflexivity. }
  split; [exact NormalFacts.clean_normalise|].
  split; [reflexivity|].
  split; [exact Hblank|].
  split; [exact Hink|].
  split; [exact HeightFacts.estimate_lower_bound|].
  split.
  { intros s H. split; [rewrite H; reflexivity | apply Hlen; exact H]. }
  split.
  { intros s Hs H. apply Hlen.
    rewrite <- NormalFacts.clean_normalise, (JsTextFacts.clean_no_space s Hs).
    exact H. }
  split.
  { intros n Hn. pose proof (NormalFacts.normalise_gapped n Hn) as E.
    split; [exact E|].
    rewrite Hink.
    - rewrite E. reflexivity.
    - unfold NormalSpec.gapped_text. reflexivity. }
  reflexivity.
Qed.

(** A text of blanks, a text of 70 letters, and two letters 40 spaces
    apart. *)
Lemma estimateLabelHeight_contract_witness :
  Curved.estimateLabelHeight (Some [32; 9; 32]%N) = Curved.LABEL_HEIGHT
  /\ Curved.estimateLabelHeight (Some (repeat 97%N 70))
     == Curved.LABEL_HEIGHT + 3 * TextSpec.perLineHeight
  /\ Curved.estimateLabelHeight (Some (NormalSpec.gapped_text 40))
     == Curved.LABEL_HEIGHT + 1 * TextSpec.perLineHeight.
Proof.
  destruct estimateLabelHeight_contract
    as (_ & _ & _ & Hblank & _ & _ & _ & Hlen & Hgap & _).
  split; [|split].
  - apply Hblank. reflexivity.
  - apply (Hlen (repeat 97%N 70)); reflexivity.
  - apply (Hgap 40%nat). lia.
Defined.
